(** * Workflow execution subsystem of the ai-service: a shallow embedding

    Sources embedded here (all under [apps/ai-service/app]):
    - [engine/context.py]            [ExecutionContext]
    - [engine/nodes/base.py]         [NodeExecutor.run]
    - [engine/nodes/condition_node.py]
    - [engine/workflow_engine.py]    [WorkflowEngine]
    - [services/execution_service.py] [ExecutionService]

    Conventions.  A Python [str] is the list of its Unicode code points.
    JSON-like data is the inductive [value]; numbers are integers (floats and
    wall-clock readings such as timestamps and durations are left out).
    Python dictionaries keep insertion order, so they are association lists
    with unique keys; Python sets, of which only membership is observed, are
    [gset]s. *)

From Stdlib Require Import ZArith NArith List String Ascii Bool Lia DecimalString.
From stdpp Require Import base decidable list gmap sets.

Import ListNotations.
Local Open Scope list_scope.
Set Warnings "-register-all,-clear-no-such-hyp".

(** ** Python strings *)

Definition pystr := list N.

Definition s2p (s : string) : pystr :=
  List.map N_of_ascii (list_ascii_of_string s).

Arguments s2p : simpl never.

Definition LBRACE : N := 123.
Definition RBRACE : N := 125.
Definition DOT : N := 46.

(** [str.isspace] on one code point, as used by [str.strip()]. *)
Definition is_space (c : N) : bool :=
  ((9 <=? c) && (c <=? 13) || (28 <=? c) && (c <=? 32)
   || (c =? 133) || (c =? 160) || (c =? 5760)
   || (8192 <=? c) && (c <=? 8202)
   || (c =? 8232) || (c =? 8233) || (c =? 8239) || (c =? 8287)
   || (c =? 12288))%N.

Fixpoint lstrip (s : pystr) : pystr :=
  match s with
  | c :: t => if is_space c then lstrip t else s
  | [] => []
  end.

Definition strip (s : pystr) : pystr := rev (lstrip (rev (lstrip s))).

(** [path.split(".")] *)
Fixpoint split_dot (s : pystr) : list pystr :=
  match s with
  | [] => [[]]
  | c :: t =>
      if (c =? DOT)%N then [] :: split_dot t
      else match split_dot t with
           | p :: ps => (c :: p) :: ps
           | [] => [[c]]
           end
  end.

Fixpoint join (sep : pystr) (l : list pystr) : pystr :=
  match l with
  | [] => []
  | [x] => x
  | x :: rest => x ++ sep ++ join sep rest
  end.

(** [needle in haystack] on strings *)
Fixpoint is_prefix (p s : pystr) : bool :=
  match p, s with
  | [], _ => true
  | a :: p', b :: s' => (a =? b)%N && is_prefix p' s'
  | _ :: _, [] => false
  end.

Fixpoint contains (needle hay : pystr) : bool :=
  is_prefix needle hay ||
  match hay with
  | [] => false
  | _ :: hay' => contains needle hay'
  end.

(** ** JSON-like values and dictionaries *)

Inductive value : Type :=
| VNone
| VBool (b : bool)
| VInt (z : Z)
| VStr (s : pystr)
| VList (l : list value)
| VDict (d : list (pystr * value)).

Definition dict (V : Type) := list (pystr * V).

Fixpoint dict_get {V} (d : dict V) (k : pystr) : option V :=
  match d with
  | [] => None
  | (k', v) :: d' => if decide (k' = k) then Some v else dict_get d' k
  end.

(** [d[k] = v]: replaces the value in place, or appends a new key *)
Fixpoint dict_set {V} (d : dict V) (k : pystr) (v : V) : dict V :=
  match d with
  | [] => [(k, v)]
  | (k', v') :: d' =>
      if decide (k' = k) then (k, v) :: d' else (k', v') :: dict_set d' k v
  end.

Definition dict_mem {V} (d : dict V) (k : pystr) : bool :=
  match dict_get d k with Some _ => true | None => false end.

Definition dict_keys {V} (d : dict V) : list pystr := List.map fst d.

(** [d.get(k)] on a dictionary of values: [None] when the key is missing *)
Definition value_get (d : dict value) (k : pystr) : value :=
  match dict_get d k with Some v => v | None => VNone end.

Definition Z_to_pystr (z : Z) : pystr := s2p (NilZero.string_of_int (Z.to_int z)).

(** A [repr] for the worked examples: exact on [None], booleans, integers
    and containers of them; a string is put between single quotes as it is,
    which is what Python prints for printable text without quotes or
    backslashes.  The theorems hold for every [repr]. *)
Fixpoint repr_plain (v : value) : pystr :=
  match v with
  | VNone => s2p "None"
  | VBool true => s2p "True"
  | VBool false => s2p "False"
  | VInt z => Z_to_pystr z
  | VStr s => s2p "'" ++ s ++ s2p "'"
  | VList l => s2p "[" ++ join (s2p ", ") (List.map repr_plain l) ++ s2p "]"
  | VDict d =>
      s2p "{" ++
      join (s2p ", ")
        (List.map (fun '(k, x) => s2p "'" ++ k ++ s2p "': " ++ repr_plain x) d)
      ++ s2p "}"
  end.

Section Workflow.

(** [repr] is the interpreter's own rendering of a value (quoting and
    escaping of strings included); [str] of a list or dictionary is built
    from it. *)
Variable py_repr : value -> pystr.

Definition py_str (v : value) : pystr :=
  match v with
  | VNone => s2p "None"
  | VBool true => s2p "True"
  | VBool false => s2p "False"
  | VInt z => Z_to_pystr z
  | VStr s => s
  | VList l => s2p "[" ++ join (s2p ", ") (List.map py_repr l) ++ s2p "]"
  | VDict d =>
      s2p "{" ++
      join (s2p ", ")
        (List.map (fun kv => py_repr (VStr (fst kv)) ++ s2p ": " ++ py_repr (snd kv)) d)
      ++ s2p "}"
  end.

(** ** Variable resolver ([ExecutionContext.resolve_variables]) *)

(** The greedy [[^}]+]: the longest run of characters other than a closing
    brace, and what follows it. *)
Fixpoint span_not_rbrace (s : pystr) : pystr * pystr :=
  match s with
  | [] => ([], [])
  | c :: t =>
      if (c =? RBRACE)%N then ([], s)
      else let (a, b) := span_not_rbrace t in (c :: a, b)
  end.

(** A match of [\{\{([^}]+)\}\}] anchored at the head of [s]: group 1 and
    the text after the match. *)
Definition match_token (s : pystr) : option (pystr * pystr) :=
  match s with
  | c1 :: c2 :: t =>
      if ((c1 =? LBRACE) && (c2 =? LBRACE))%N then
        match span_not_rbrace t with
        | (c :: inner, r1 :: r2 :: rest) =>
            if ((r1 =? RBRACE) && (r2 =? RBRACE))%N
            then Some (c :: inner, rest) else None
        | _ => None
        end
      else None
  | _ => None
  end.

(** [match.group(0)] of a match whose group 1 is [inner] *)
Definition token_text (inner : pystr) : pystr :=
  [LBRACE; LBRACE] ++ inner ++ [RBRACE; RBRACE].

(** [re.sub(pattern, repl, text)]: leftmost matches, left to right, without
    overlap; [repl] receives group 0 and group 1. *)
Fixpoint re_sub_fuel (fuel : nat) (repl : pystr -> pystr -> pystr) (s : pystr) : pystr :=
  match fuel with
  | O => s
  | S fuel' =>
      match match_token s with
      | Some (inner, rest) =>
          repl (token_text inner) inner ++ re_sub_fuel fuel' repl rest
      | None =>
          match s with
          | [] => []
          | c :: t => c :: re_sub_fuel fuel' repl t
          end
      end
  end.

Definition re_sub (repl : pystr -> pystr -> pystr) (s : pystr) : pystr :=
  re_sub_fuel (S (length s)) repl s.

(** The loop of [_get_nested_value] *)
Fixpoint get_nested_loop (cur : value) (parts : list pystr) : value :=
  match parts with
  | [] => cur
  | part :: parts' =>
      match cur with
      | VDict d =>
          match value_get d part with
          | VNone => VNone
          | v => get_nested_loop v parts'
          end
      | _ => VNone
      end
  end.

Definition _get_nested_value (variables : dict value) (path : pystr) : value :=
  get_nested_loop (VDict variables) (split_dot path).

Definition replace_var (variables : dict value) (group0 group1 : pystr) : pystr :=
  let var_path := strip group1 in
  match _get_nested_value variables var_path with
  | VNone => group0
  | v => py_str v
  end.

Definition resolve_variables (variables : dict value) (text : pystr) : pystr :=
  re_sub (replace_var variables) text.

(** The resolver as the specification words it: the text is cut into
    literal characters and [{{...}}] tokens, each token names a dotted path,
    and a path is looked up by descending keyed containers. *)
Inductive segment : Type :=
| Lit (c : N)
| Tok (inner : pystr).

Fixpoint tokens_fuel (fuel : nat) (s : pystr) : list segment :=
  match fuel with
  | O => []
  | S fuel' =>
      match match_token s with
      | Some (inner, rest) => Tok inner :: tokens_fuel fuel' rest
      | None =>
          match s with
          | [] => []
          | c :: t => Lit c :: tokens_fuel fuel' t
          end
      end
  end.

Definition tokens (s : pystr) : list segment := tokens_fuel (S (length s)) s.

Definition segment_text (g : segment) : pystr :=
  match g with
  | Lit c => [c]
  | Tok inner => token_text inner
  end.

Definition token_path (inner : pystr) : list pystr := split_dot (strip inner).

(** "at each step, if the current value is a keyed container and contains
    the next segment, descend; otherwise resolution yields absent" *)
Fixpoint spec_lookup (v : value) (parts : list pystr) : option value :=
  match parts with
  | [] => Some v
  | part :: parts' =>
      match v with
      | VDict d =>
          match dict_get d part with
          | Some v' => spec_lookup v' parts'
          | None => None
          end
      | _ => None
      end
  end.

Definition has_no_token (s : pystr) : Prop :=
  forall inner, ~ In (Tok inner) (tokens s).

Definition render (variables : dict value) (g : segment) : pystr :=
  match g with
  | Lit c => [c]
  | Tok inner =>
      match spec_lookup (VDict variables) (token_path inner) with
      | Some VNone | None => token_text inner
      | Some v => py_str v
      end
  end.

(** ** Exceptions and the execution context ([engine/context.py]) *)

Inductive exn_class : Type :=
| NodeValidationError
| NodeExecutionError
| WorkflowEngineError
| OtherError.   (* every other subclass of Exception *)

(** An exception: its class, and [str(e)]. *)
Record exn : Type := Exn { exn_class_of : exn_class; exn_msg : pystr }.

Record log_entry : Type := LogEntry {
  log_execution_id : pystr;
  log_level : pystr;
  log_message : pystr;
  log_node_id : option pystr;
  log_metadata : dict value
}.

(** What the context hands to the observer callback. *)
Inductive event : Type :=
| EvNodeStatus (execution_id node_id status : pystr)
| EvLog (entry : log_entry)
| EvStatus (execution_id status : pystr) (output : option value) (error : option pystr).

(** The observer: called with the events delivered so far and the new one;
    [Some e] means the call raises [e]. *)
Definition callback_fn := list event -> event -> option exn.

(** Ghost record of what happened to a context, in order. *)
Inductive trace_event : Type :=
| TStatus (node_id status : pystr)            (* set_node_status *)
| TOutput (node_id : pystr) (output : value)  (* set_node_output *)
| TLog (entry : log_entry)                    (* add_log *)
| TDispatch (node_id : pystr)                 (* _execute_node entered *)
| TExecute (node_id : pystr)                  (* an executor's execute entered *)
| TReturn (node_id status : pystr).           (* NodeExecutor.run returns a result *)

Record ExecutionContext : Type := Ctx {
  execution_id : pystr;
  workflow_id : pystr;
  input_data : value;
  callback : option callback_fn;
  status : pystr;
  error : option pystr;
  variables : dict value;
  node_outputs : dict value;
  node_statuses : dict pystr;
  logs : list log_entry;
  delivered : list event;     (* ghost: calls made to the callback *)
  trace : list trace_event    (* ghost *)
}.

Definition set_status (c : ExecutionContext) (x : pystr) : ExecutionContext :=
  Ctx (execution_id c) (workflow_id c) (input_data c) (callback c) x (error c)
      (variables c) (node_outputs c) (node_statuses c) (logs c) (delivered c) (trace c).
Definition set_error (c : ExecutionContext) (x : option pystr) : ExecutionContext :=
  Ctx (execution_id c) (workflow_id c) (input_data c) (callback c) (status c) x
      (variables c) (node_outputs c) (node_statuses c) (logs c) (delivered c) (trace c).
Definition set_variables (c : ExecutionContext) (x : dict value) : ExecutionContext :=
  Ctx (execution_id c) (workflow_id c) (input_data c) (callback c) (status c) (error c)
      x (node_outputs c) (node_statuses c) (logs c) (delivered c) (trace c).
Definition set_node_outputs (c : ExecutionContext) (x : dict value) : ExecutionContext :=
  Ctx (execution_id c) (workflow_id c) (input_data c) (callback c) (status c) (error c)
      (variables c) x (node_statuses c) (logs c) (delivered c) (trace c).
Definition set_node_statuses (c : ExecutionContext) (x : dict pystr) : ExecutionContext :=
  Ctx (execution_id c) (workflow_id c) (input_data c) (callback c) (status c) (error c)
      (variables c) (node_outputs c) x (logs c) (delivered c) (trace c).
Definition set_logs (c : ExecutionContext) (x : list log_entry) : ExecutionContext :=
  Ctx (execution_id c) (workflow_id c) (input_data c) (callback c) (status c) (error c)
      (variables c) (node_outputs c) (node_statuses c) x (delivered c) (trace c).
Definition set_delivered (c : ExecutionContext) (x : list event) : ExecutionContext :=
  Ctx (execution_id c) (workflow_id c) (input_data c) (callback c) (status c) (error c)
      (variables c) (node_outputs c) (node_statuses c) (logs c) x (trace c).
Definition set_trace (c : ExecutionContext) (x : list trace_event) : ExecutionContext :=
  Ctx (execution_id c) (workflow_id c) (input_data c) (callback c) (status c) (error c)
      (variables c) (node_outputs c) (node_statuses c) (logs c) (delivered c) x.

Definition record (t : trace_event) (c : ExecutionContext) : ExecutionContext :=
  set_trace c (trace c ++ [t]).

(** Code that mutates the context and may raise: the mutations made before
    a raise stay.  [OutOfFuel] is the model's own third outcome, for the
    two loops that are written with a step budget; it is shown below never
    to occur. *)
Inductive outcome (A : Type) : Type :=
| Ok (a : A)
| Raised (e : exn)
| OutOfFuel.
#[global] Arguments Ok {A} a.
#[global] Arguments Raised {A} e.
#[global] Arguments OutOfFuel {A}.

Definition M (A : Type) : Type := ExecutionContext -> outcome A * ExecutionContext.

Definition ret {A} (a : A) : M A := fun c => (Ok a, c).
Definition throw {A} (e : exn) : M A := fun c => (Raised e, c).
Definition bind {A B} (m : M A) (f : A -> M B) : M B :=
  fun c => match m c with
           | (Ok a, c') => f a c'
           | (Raised e, c') => (Raised e, c')
           | (OutOfFuel, c') => (OutOfFuel, c')
           end.
Definition try_except {A} (m : M A) (handler : exn -> M A) : M A :=
  fun c => match m c with
           | (Raised e, c') => handler e c'
           | r => r
           end.
Definition modify (f : ExecutionContext -> ExecutionContext) : M unit :=
  fun c => (Ok tt, f c).
Definition lift {A} (r : exn + A) : M A :=
  match r with inl e => throw e | inr a => ret a end.

Notation "'do' x <- m ; k" := (bind m (fun x => k))
  (at level 10, x name, m at level 100, k at level 200).

(** [ExecutionContext.__init__] *)
Definition new_context (execution_id workflow_id : pystr) (input_data : value)
    (callback : option callback_fn) : ExecutionContext :=
  Ctx execution_id workflow_id input_data callback (s2p "pending") None
      [(s2p "input", input_data)] [] [] [] [] [].

(** [if self.callback: self.callback(ev)] *)
Definition call_callback (ev : event) : M unit :=
  fun c =>
    match callback c with
    | None => (Ok tt, c)
    | Some cb =>
        let c' := set_delivered c (delivered c ++ [ev]) in
        match cb (delivered c) ev with
        | None => (Ok tt, c')
        | Some e => (Raised e, c')
        end
    end.

Definition set_node_status (node_id status : pystr) : M unit :=
  do _ <- modify (fun c =>
    record (TStatus node_id status)
      (set_node_statuses c (dict_set (node_statuses c) node_id status)));
  fun c => call_callback (EvNodeStatus (execution_id c) node_id status) c.

Definition set_node_output (node_id : pystr) (output : value) : M unit :=
  modify (fun c =>
    let c1 := set_node_outputs c (dict_set (node_outputs c) node_id output) in
    let c2 := set_variables c1 (dict_set (variables c1) (s2p "nodes." ++ node_id) output) in
    record (TOutput node_id output) c2).

Definition get_node_output (c : ExecutionContext) (node_id : pystr) : value :=
  value_get (node_outputs c) node_id.

Definition add_log (level message : pystr) (node_id : option pystr)
    (metadata : dict value) : M unit :=
  fun c =>
    let log_entry := LogEntry (execution_id c) level message node_id metadata in
    call_callback (EvLog log_entry)
      (record (TLog log_entry) (set_logs c (logs c ++ [log_entry]))).

Definition start : M unit :=
  do _ <- modify (fun c => set_status c (s2p "running"));
  do _ <- add_log (s2p "info") (s2p "Workflow execution started") None [];
  fun c => call_callback (EvStatus (execution_id c) (s2p "running") None None) c.

Definition complete (output_data : value) : M unit :=
  do _ <- modify (fun c =>
    set_variables (set_status c (s2p "completed"))
      (dict_set (variables c) (s2p "output") output_data));
  do _ <- add_log (s2p "info") (s2p "Workflow execution completed") None [];
  fun c => call_callback
    (EvStatus (execution_id c) (s2p "completed") (Some output_data) None) c.

Definition fail (error : pystr) : M unit :=
  do _ <- modify (fun c => set_error (set_status c (s2p "failed")) (Some error));
  do _ <- add_log (s2p "error") (s2p "Workflow execution failed: " ++ error) None [];
  fun c => call_callback
    (EvStatus (execution_id c) (s2p "failed") None (Some error)) c.

Record summary : Type := Summary {
  sum_status : pystr;
  sum_error : option pystr;
  sum_node_count : nat;
  sum_completed_nodes : nat;
  sum_failed_nodes : nat;
  sum_log_count : nat
}.

Definition count_status (st : pystr) (d : dict pystr) : nat :=
  length (List.filter (fun kv => bool_decide (snd kv = st)) d).

Definition get_execution_summary (c : ExecutionContext) : summary :=
  Summary (status c) (error c) (length (node_statuses c))
    (count_status (s2p "success") (node_statuses c))
    (count_status (s2p "failed") (node_statuses c))
    (length (logs c)).

(** ** Node executors ([engine/nodes/base.py]) *)

Record NodeResult : Type := MkNodeResult {
  res_node_id : pystr;
  res_status : pystr;
  res_output : value;
  res_error : option pystr
}.

(** What an executor reads from the context. *)
Record ContextView : Type := View {
  view_execution_id : pystr;
  view_workflow_id : pystr;
  view_input_data : value;
  view_variables : dict value;
  view_node_outputs : dict value;
  view_node_statuses : dict pystr
}.

Definition view (c : ExecutionContext) : ContextView :=
  View (execution_id c) (workflow_id c) (input_data c) (variables c)
       (node_outputs c) (node_statuses c).

(** The body of an [execute] method: it returns, raises, or writes a log
    entry through the context and goes on; [on_raise] is what the body does
    when the logging call itself raises (the observer callback did). *)
Inductive prog (A : Type) : Type :=
| Return (a : A)
| Raise (e : exn)
| Log (level message : pystr) (node_id : option pystr) (metadata : dict value)
      (next : prog A) (on_raise : exn -> prog A).
#[global] Arguments Return {A} a.
#[global] Arguments Raise {A} e.
#[global] Arguments Log {A} level message node_id metadata next on_raise.

Fixpoint prog_bind {A B} (p : prog A) (f : A -> prog B) : prog B :=
  match p with
  | Return a => f a
  | Raise e => Raise e
  | Log l m n md next on_raise =>
      Log l m n md (prog_bind next f) (fun e => prog_bind (on_raise e) f)
  end.

Fixpoint prog_try {A} (p : prog A) (handler : exn -> prog A) : prog A :=
  match p with
  | Return a => Return a
  | Raise e => handler e
  | Log l m n md next on_raise =>
      Log l m n md (prog_try next handler) (fun e => prog_try (on_raise e) handler)
  end.

Definition prog_log (level message : pystr) (node_id : option pystr) : prog unit :=
  Log level message node_id [] (Return tt) (fun e => Raise e).

Fixpoint interp {A} (p : prog A) : M A :=
  match p with
  | Return a => ret a
  | Raise e => throw e
  | Log l m n md next on_raise =>
      fun c => match add_log l m n md c with
               | (Ok _, c') => interp next c'
               | (Raised e, c') => interp (on_raise e) c'
               | (OutOfFuel, c') => (OutOfFuel, c')
               end
  end.

Record NodeExecutor : Type := MkExecutor {
  validate_config : dict value -> exn + bool;
  execute : dict value -> ContextView -> prog NodeResult
}.

(** Errors raised by the interpreter itself; the text of their message
    is the interpreter's. *)
Inductive builtin_error : Type :=
| KeyErr (key : pystr)
| NoAttribute (v : value) (attr : pystr)
| NotSubscriptable (v : value)
| NotComparable (op : pystr) (a b : value)
| NotContainer (a : value)
| BadLeftOperand (a b : value)
| Unhashable (v : value)
| MissingArgument (function parameter : pystr)
| KeyErrValue (key : value)
| BadIndex (v : value) (key : pystr)
| NoLen (v : value)
| NotMapping (v : value).

Variable interpreter_message : builtin_error -> pystr.

Definition builtin (b : builtin_error) : exn := Exn OtherError (interpreter_message b).

Fixpoint resolve_value (variables : dict value) (v : value) {struct v} : value :=
  match v with
  | VStr s => VStr (resolve_variables variables s)
  | VDict d =>
      VDict ((fix items (d : list (pystr * value)) : list (pystr * value) :=
                match d with
                | [] => []
                | (k, x) :: d' => (k, resolve_value variables x) :: items d'
                end) d)
  | VList l =>
      VList (List.map (fun item => match item with
                                   | VStr s => VStr (resolve_variables variables s)
                                   | _ => item
                                   end) l)
  | _ => v
  end.

Definition _resolve_config_variables (variables : dict value) (config : dict value)
    : dict value :=
  List.map (fun kv => (fst kv, resolve_value variables (snd kv))) config.

Definition failed_result (node_id error_msg : pystr) : NodeResult :=
  MkNodeResult node_id (s2p "failed") VNone (Some error_msg).

(** The [try] block of [NodeExecutor.run] *)
Definition run_body (ex : NodeExecutor) (node_id node_type : pystr)
    (node_config : dict value) : M NodeResult :=
  do _ <- set_node_status node_id (s2p "running");
  do _ <- add_log (s2p "info")
            (s2p "Node " ++ node_id ++ s2p " (" ++ node_type ++ s2p ") started")
            (Some node_id) [];
  do valid <- lift (validate_config ex node_config);
  do _ <- (if valid : bool then ret tt
           else throw (Exn NodeValidationError
                         (s2p "Invalid configuration for node " ++ node_id)));
  do resolved_config <-
     (fun c => ret (_resolve_config_variables (variables c) node_config) c);
  do result <-
     (fun c => interp (execute ex resolved_config (view c))
                      (record (TExecute node_id) c));
  do _ <- set_node_status node_id (res_status result);
  do _ <- (if bool_decide (res_status result = s2p "success") then
             do _ <- set_node_output node_id (res_output result);
             add_log (s2p "info")
               (s2p "Node " ++ node_id ++ s2p " completed successfully")
               (Some node_id) []
           else
             add_log (s2p "warning")
               (s2p "Node " ++ node_id ++ s2p " completed with status: "
                  ++ res_status result)
               (Some node_id) []);
  do _ <- modify (record (TReturn node_id (res_status result)));
  ret result.

(** The three [except] clauses of [NodeExecutor.run] *)
Definition run_handler (node_id : pystr) (e : exn) : M NodeResult :=
  let error_msg :=
    match exn_class_of e with
    | NodeValidationError => s2p "Configuration validation failed: " ++ exn_msg e
    | NodeExecutionError => s2p "Execution failed: " ++ exn_msg e
    | _ => s2p "Unexpected error: " ++ exn_msg e
    end in
  do _ <- set_node_status node_id (s2p "failed");
  do _ <- add_log (s2p "error") error_msg (Some node_id) [];
  do _ <- modify (record (TReturn node_id (s2p "failed")));
  ret (failed_result node_id error_msg).

Definition run (ex : NodeExecutor) (node_id node_type : pystr)
    (node_config : dict value) : M NodeResult :=
  try_except (run_body ex node_id node_type node_config) (run_handler node_id).

(** ** Condition node ([engine/nodes/condition_node.py]) *)

(** [bool(v)] *)
Definition py_truthy (v : value) : bool :=
  match v with
  | VNone => false
  | VBool b => b
  | VInt z => negb (z =? 0)%Z
  | VStr s => match s with [] => false | _ => true end
  | VList l => match l with [] => false | _ => true end
  | VDict d => match d with [] => false | _ => true end
  end.

(** A boolean is an integer. *)
Definition as_number (v : value) : option Z :=
  match v with
  | VInt z => Some z
  | VBool b => Some (Z.b2z b)
  | _ => None
  end.

(** [a == b]: numbers by value, strings and lists item by item,
    dictionaries by their items whatever the order; values of different
    kinds are unequal. *)
Fixpoint py_eq (a b : value) {struct a} : bool :=
  match a, b with
  | VNone, VNone => true
  | VStr s, VStr t => bool_decide (s = t)
  | VList l, VList m =>
      (fix items (l m : list value) : bool :=
         match l, m with
         | [], [] => true
         | x :: l', y :: m' => py_eq x y && items l' m'
         | _, _ => false
         end) l m
  | VDict d, VDict e =>
      (length d =? length e)%nat &&
      (fix items (d : list (pystr * value)) : bool :=
         match d with
         | [] => true
         | (k, x) :: d' =>
             match dict_get e k with
             | Some y => py_eq x y
             | None => false
             end && items d'
         end) d
  | VBool x, VBool y => Bool.eqb x y
  | VBool x, VInt y => (Z.b2z x =? y)%Z
  | VInt x, VBool y => (x =? Z.b2z y)%Z
  | VInt x, VInt y => (x =? y)%Z
  | _, _ => false
  end.

Inductive order : Type := GT | GE | LT | LE.

Definition order_symbol (o : order) : pystr :=
  match o with
  | GT => s2p ">"
  | GE => s2p ">="
  | LT => s2p "<"
  | LE => s2p "<="
  end.

Definition order_holds (o : order) (c : comparison) : bool :=
  match o, c with
  | GT, Gt | GE, Gt | GE, Eq | LT, Lt | LE, Lt | LE, Eq => true
  | _, _ => false
  end.

(** Strings are ordered by code point, lexicographically. *)
Fixpoint str_compare (s t : pystr) : comparison :=
  match s, t with
  | [], [] => Eq
  | [], _ :: _ => Lt
  | _ :: _, [] => Gt
  | a :: s', b :: t' =>
      match (a ?= b)%N with
      | Eq => str_compare s' t'
      | c => c
      end
  end.

(** [a > b], [a >= b], [a < b], [a <= b]: numbers with numbers, strings
    with strings, lists with lists (decided by the first pair of unequal
    items, else by the lengths); anything else raises TypeError. *)
Fixpoint py_order (o : order) (a b : value) {struct a} : builtin_error + bool :=
  match a, b with
  | VStr s, VStr t => inr (order_holds o (str_compare s t))
  | VList l, VList m =>
      (fix items (l m : list value) : builtin_error + bool :=
         match l, m with
         | x :: l', y :: m' => if py_eq x y then items l' m' else py_order o x y
         | _, _ => inr (order_holds o (Nat.compare (length l) (length m)))
         end) l m
  | _, _ =>
      match as_number a, as_number b with
      | Some x, Some y => inr (order_holds o (x ?= y)%Z)
      | _, _ => inl (NotComparable (order_symbol o) a b)
      end
  end.

(** [x in container] *)
Definition py_in (x container : value) : builtin_error + bool :=
  match container with
  | VStr s =>
      match x with
      | VStr t => inr (contains t s)
      | _ => inl (BadLeftOperand x container)
      end
  | VList l => inr (existsb (fun y => py_eq y x) l)
  | VDict d =>
      match x with
      | VStr k => inr (dict_mem d k)
      | VList _ | VDict _ => inl (Unhashable x)
      | _ => inr false
      end
  | _ => inl (NotContainer container)
  end.

Definition raised {A} (r : builtin_error + A) : exn + A :=
  match r with
  | inl b => inl (builtin b)
  | inr a => inr a
  end.

Definition OPERATORS : dict (value -> value -> exn + bool) :=
  [ (s2p "eq", fun a b => inr (py_eq a b));
    (s2p "ne", fun a b => inr (negb (py_eq a b)));
    (s2p "gt", fun a b => raised (py_order GT a b));
    (s2p "gte", fun a b => raised (py_order GE a b));
    (s2p "lt", fun a b => raised (py_order LT a b));
    (s2p "lte", fun a b => raised (py_order LE a b));
    (s2p "contains", fun a b => raised (py_in b a));
    (s2p "in", fun a b => raised (py_in a b)) ].

(** The key lookup behind [op in self.OPERATORS] and [self.OPERATORS[op]]:
    a list or a dictionary cannot be hashed. *)
Definition operator_lookup (op : value) : exn + option (value -> value -> exn + bool) :=
  match op with
  | VStr name => inr (dict_get OPERATORS name)
  | VList _ | VDict _ => inl (builtin (Unhashable op))
  | _ => inr None
  end.

Definition nat_str (n : nat) : pystr := Z_to_pystr (Z.of_nat n).

(** The loop over the conditions in [validate_config] *)
Fixpoint validate_conditions (i : nat) (conditions : list value) : exn + unit :=
  match conditions with
  | [] => inr tt
  | condition :: rest =>
      match condition with
      | VDict d =>
          match dict_get d (s2p "field"), dict_get d (s2p "operator"),
                dict_get d (s2p "value"), dict_get d (s2p "branch") with
          | None, _, _, _ =>
              inl (Exn NodeValidationError
                     (s2p "Condition " ++ nat_str i ++ s2p ": missing field 'field'"))
          | _, None, _, _ =>
              inl (Exn NodeValidationError
                     (s2p "Condition " ++ nat_str i ++ s2p ": missing field 'operator'"))
          | _, _, None, _ =>
              inl (Exn NodeValidationError
                     (s2p "Condition " ++ nat_str i ++ s2p ": missing field 'value'"))
          | _, _, _, None =>
              inl (Exn NodeValidationError
                     (s2p "Condition " ++ nat_str i ++ s2p ": missing field 'branch'"))
          | Some _, Some op, Some _, Some branch =>
              match operator_lookup op with
              | inl e => inl e
              | inr None =>
                  inl (Exn NodeValidationError
                         (s2p "Condition " ++ nat_str i ++ s2p ": unsupported operator '"
                            ++ py_str op ++ s2p "'. Supported operators: "
                            ++ join (s2p ", ") (dict_keys OPERATORS)))
              | inr (Some _) =>
                  match branch with
                  | VStr b =>
                      match strip b with
                      | [] =>
                          inl (Exn NodeValidationError
                                 (s2p "Condition " ++ nat_str i
                                    ++ s2p ": branch must be a non-empty string"))
                      | _ => validate_conditions (S i) rest
                      end
                  | _ =>
                      inl (Exn NodeValidationError
                             (s2p "Condition " ++ nat_str i
                                ++ s2p ": branch must be a non-empty string"))
                  end
              end
          end
      | _ =>
          inl (Exn NodeValidationError
                 (s2p "Condition " ++ nat_str i ++ s2p " must be a dictionary"))
      end
  end.

(** [ConditionNodeExecutor.validate_config] *)
Definition condition_validate_config (config : dict value) : exn + bool :=
  match dict_get config (s2p "conditions") with
  | None => inl (Exn NodeValidationError (s2p "Missing required field: conditions"))
  | Some (VList (condition :: rest)) =>
      match validate_conditions 0 (condition :: rest) with
      | inl e => inl e
      | inr _ =>
          match dict_get config (s2p "default_branch") with
          | None => inr true
          | Some (VStr b) =>
              match strip b with
              | [] => inl (Exn NodeValidationError
                             (s2p "default_branch must be a non-empty string"))
              | _ => inr true
              end
          | Some _ => inl (Exn NodeValidationError
                             (s2p "default_branch must be a non-empty string"))
          end
      end
  | Some _ => inl (Exn NodeValidationError (s2p "Conditions must be a non-empty list"))
  end.

Definition prog_lift {A} (r : exn + A) : prog A :=
  match r with
  | inl e => Raise e
  | inr a => Return a
  end.

(** [v[key]] with a string key *)
Definition subscript (v : value) (key : pystr) : exn + value :=
  match v with
  | VDict d =>
      match dict_get d key with
      | Some x => inr x
      | None => inl (builtin (KeyErr key))
      end
  | VStr _ | VList _ => inl (builtin (BadIndex v key))
  | _ => inl (builtin (NotSubscriptable v))
  end.

(** What [len(v)] counts and [enumerate(v)] goes through *)
Definition py_items (v : value) : exn + list value :=
  match v with
  | VList l => inr l
  | VStr s => inr (List.map (fun ch => VStr [ch]) s)
  | VDict d => inr (List.map (fun kv => VStr (fst kv)) d)
  | _ => inl (builtin (NoLen v))
  end.

(** [self.OPERATORS[op_name]] *)
Definition operator_item (op_name : value) : exn + (value -> value -> exn + bool) :=
  match operator_lookup op_name with
  | inl e => inl e
  | inr (Some op_func) => inr op_func
  | inr None =>
      inl (builtin (match op_name with
                    | VStr name => KeyErr name
                    | _ => KeyErrValue op_name
                    end))
  end.

(** [_get_field_value]: [context._get_nested_value(field_path)], which
    begins with [path.split(".")]. *)
Definition _get_field_value (field_path : value) (v : ContextView) : exn + value :=
  match field_path with
  | VStr path => inr (_get_nested_value (view_variables v) path)
  | _ => inl (builtin (NoAttribute field_path (s2p "split")))
  end.

(** The loop [for i, condition in enumerate(conditions)] of [execute];
    [otherwise] is the code after the loop.  [log_debug] writes to the
    process logger only and is left out. *)
Fixpoint evaluate_conditions (node_id : pystr) (v : ContextView) (i : nat)
    (conditions : list value) (otherwise : prog NodeResult) : prog NodeResult :=
  match conditions with
  | [] => otherwise
  | condition :: rest =>
      prog_bind (prog_lift (subscript condition (s2p "field"))) (fun field_path =>
      prog_bind (prog_lift (subscript condition (s2p "operator"))) (fun op_name =>
      prog_bind (prog_lift (subscript condition (s2p "value"))) (fun expected_value =>
      prog_bind (prog_lift (subscript condition (s2p "branch"))) (fun branch =>
      prog_bind (prog_lift (_get_field_value field_path v)) (fun actual_value =>
      prog_bind (prog_lift (operator_item op_name)) (fun op_func =>
      match op_func actual_value expected_value with
      | inl e =>
          prog_bind
            (prog_log (s2p "warning")
               (s2p "Condition " ++ nat_str i ++ s2p " evaluation error: " ++ exn_msg e
                  ++ s2p ". Field: " ++ py_str field_path
                  ++ s2p ", Operator: " ++ py_str op_name
                  ++ s2p ", Actual: " ++ py_str actual_value
                  ++ s2p ", Expected: " ++ py_str expected_value)
               (Some node_id))
            (fun _ => evaluate_conditions node_id v (S i) rest otherwise)
      | inr true =>
          prog_bind
            (prog_log (s2p "info")
               (s2p "Condition " ++ nat_str i ++ s2p " matched, selecting branch: "
                  ++ py_str branch)
               (Some node_id))
            (fun _ =>
               Return (MkNodeResult node_id (s2p "success")
                         (VDict [ (s2p "branch", branch);
                                  (s2p "matched_condition", VInt (Z.of_nat i));
                                  (s2p "field", field_path);
                                  (s2p "actual_value", actual_value);
                                  (s2p "expected_value", expected_value);
                                  (s2p "operator", op_name) ])
                         None))
      | inr false => evaluate_conditions node_id v (S i) rest otherwise
      end))))))
  end.

(** The two [except] clauses of [execute] *)
Definition condition_handler (node_id : pystr) (e : exn) : prog NodeResult :=
  match exn_class_of e with
  | NodeExecutionError => Raise e
  | _ =>
      let error_msg := s2p "Unexpected error in condition node: " ++ exn_msg e in
      prog_bind (prog_log (s2p "error") error_msg (Some node_id))
                (fun _ => Raise (Exn NodeExecutionError error_msg))
  end.

(** [ConditionNodeExecutor.execute] *)
Definition condition_execute (node_id : pystr) (node_config : dict value)
    (v : ContextView) : prog NodeResult :=
  prog_try
    (prog_bind (prog_lift (subscript (VDict node_config) (s2p "conditions")))
       (fun conditions =>
     let default_branch := value_get node_config (s2p "default_branch") in
     prog_bind (prog_lift (py_items conditions)) (fun items =>
     prog_bind (prog_log (s2p "info")
                  (s2p "Evaluating " ++ nat_str (length items) ++ s2p " conditions")
                  (Some node_id)) (fun _ =>
     evaluate_conditions node_id v 0 items
       (if py_truthy default_branch then
          prog_bind
            (prog_log (s2p "info")
               (s2p "No conditions matched, using default branch: "
                  ++ py_str default_branch)
               (Some node_id))
            (fun _ =>
               Return (MkNodeResult node_id (s2p "success")
                         (VDict [ (s2p "branch", default_branch);
                                  (s2p "matched_condition", VNone) ])
                         None))
        else
          let error_msg := s2p "No conditions matched and no default branch specified" in
          prog_bind (prog_log (s2p "error") error_msg (Some node_id))
                    (fun _ => Raise (Exn NodeExecutionError error_msg)))))))
    (condition_handler node_id).

(** [ConditionNodeExecutor(node_id)] *)
Definition ConditionNodeExecutor (node_id : pystr) : NodeExecutor :=
  MkExecutor condition_validate_config (condition_execute node_id).

(** ** Input node ([engine/nodes/input_node.py]) *)

(** [type(v).__name__] *)
Definition type_name (v : value) : pystr :=
  match v with
  | VNone => s2p "NoneType"
  | VBool _ => s2p "bool"
  | VInt _ => s2p "int"
  | VStr _ => s2p "str"
  | VList _ => s2p "list"
  | VDict _ => s2p "dict"
  end.

Definition NEWLINE : pystr := [10%N].

Definition VALID_TYPES : list pystr :=
  [s2p "string"; s2p "number"; s2p "boolean"; s2p "object"; s2p "array"; s2p "null"].

(** [x in names] for a list of strings: one of them equals [x]. *)
Definition in_names (x : value) (names : list pystr) : bool :=
  existsb (fun name => py_eq (VStr name) x) names.

(** The loop over [schema.items()] in [validate_config] *)
Fixpoint validate_schema (schema : list (pystr * value)) : exn + unit :=
  match schema with
  | [] => inr tt
  | (field_name, field_spec) :: rest =>
      match field_spec with
      | VDict spec =>
          match dict_get spec (s2p "type") with
          | Some field_type =>
              if in_names field_type VALID_TYPES then
                match dict_get spec (s2p "required") with
                | Some (VBool _) | None => validate_schema rest
                | Some _ =>
                    inl (Exn NodeValidationError
                           (s2p "'required' for field '" ++ field_name
                              ++ s2p "' must be a boolean"))
                end
              else
                inl (Exn NodeValidationError
                       (s2p "Invalid type '" ++ py_str field_type ++ s2p "' for field '"
                          ++ field_name ++ s2p "'. Valid types: "
                          ++ join (s2p ", ") VALID_TYPES))
          | None =>
              match dict_get spec (s2p "required") with
              | Some (VBool _) | None => validate_schema rest
              | Some _ =>
                  inl (Exn NodeValidationError
                         (s2p "'required' for field '" ++ field_name
                            ++ s2p "' must be a boolean"))
              end
          end
      | _ =>
          inl (Exn NodeValidationError
                 (s2p "Schema for field '" ++ field_name ++ s2p "' must be a dictionary"))
      end
  end.

(** [InputNodeExecutor.validate_config] *)
Definition input_validate_config (config : dict value) : exn + bool :=
  match (match dict_get config (s2p "schema") with
         | Some (VDict schema) => validate_schema schema
         | Some _ => inl (Exn NodeValidationError (s2p "schema must be a dictionary"))
         | None => inr tt
         end) with
  | inl e => inl e
  | inr _ =>
      match dict_get config (s2p "defaults") with
      | Some (VDict _) | None =>
          match (match dict_get config (s2p "extract_field") with
                 | Some (VStr extract_field) =>
                     match strip extract_field with
                     | [] => false
                     | _ => true
                     end
                 | Some _ => false
                 | None => true
                 end) with
          | false =>
              inl (Exn NodeValidationError (s2p "extract_field must be a non-empty string"))
          | true =>
              match dict_get config (s2p "validate") with
              | Some (VBool _) | None => inr true
              | Some _ => inl (Exn NodeValidationError (s2p "validate must be a boolean"))
              end
          end
      | Some _ => inl (Exn NodeValidationError (s2p "defaults must be a dictionary"))
      end
  end.

(** [_get_value_type] *)
Definition _get_value_type (v : value) : pystr :=
  match v with
  | VNone => s2p "null"
  | VBool _ => s2p "boolean"
  | VInt _ => s2p "number"
  | VStr _ => s2p "string"
  | VList _ => s2p "array"
  | VDict _ => s2p "object"
  end.

(** The loop of [_validate_input]: the error texts, in the order of the
    schema; a field specification without [get] raises. *)
Fixpoint input_errors (data : dict value) (schema : list (pystr * value))
    : exn + list pystr :=
  match schema with
  | [] => inr []
  | (field_name, field_spec) :: rest =>
      match field_spec with
      | VDict spec =>
          let required :=
            match dict_get spec (s2p "required") with
            | Some r => py_truthy r
            | None => false
            end in
          let more (errors : list pystr) :=
            match input_errors data rest with
            | inl e => inl e
            | inr later => inr (errors ++ later)
            end in
          match dict_get data field_name with
          | None =>
              if required
              then more [s2p "Required field '" ++ field_name ++ s2p "' is missing"]
              else more []
          | Some field_value =>
              match dict_get spec (s2p "type") with
              | Some expected_type =>
                  let actual_type := _get_value_type field_value in
                  if negb (py_eq (VStr actual_type) expected_type) then
                    more [s2p "Field '" ++ field_name ++ s2p "' has wrong type: expected "
                            ++ py_str expected_type ++ s2p ", got " ++ actual_type]
                  else more []
              | None => more []
              end
          end
      | _ => inl (builtin (NoAttribute field_spec (s2p "get")))
      end
  end.

(** [_validate_input] *)
Definition _validate_input (node_id : pystr) (data : value) (schema : value)
    : prog unit :=
  match data with
  | VDict d =>
      match schema with
      | VDict fields =>
          match input_errors d fields with
          | inl e => Raise e
          | inr [] =>
              prog_log (s2p "info")
                (s2p "Input validation passed for " ++ nat_str (length fields)
                   ++ s2p " fields")
                (Some node_id)
          | inr errors =>
              let error_msg :=
                s2p "Input validation failed:" ++ NEWLINE
                  ++ join NEWLINE (List.map (fun e => s2p "  - " ++ e) errors) in
              prog_bind (prog_log (s2p "error") error_msg (Some node_id))
                        (fun _ => Raise (Exn NodeExecutionError error_msg))
          end
      | _ => Raise (builtin (NoAttribute schema (s2p "items")))
      end
  | _ =>
      Raise (Exn NodeExecutionError
               (s2p "Input validation requires dict data, got " ++ type_name data))
  end.

(** [{**defaults, **input_data}] *)
Definition merge_over (defaults input_data : dict value) : dict value :=
  fold_left (fun acc kv => dict_set acc (fst kv) (snd kv)) input_data defaults.

(** The [extract_field] step of [execute] *)
Definition extract_step (node_id : pystr) (node_config : dict value)
    (input_data : value) : prog value :=
  match dict_get node_config (s2p "extract_field") with
  | None => Return input_data
  | Some extract_field =>
      let not_found :=
        prog_bind
          (prog_log (s2p "warning")
             (s2p "Field '" ++ py_str extract_field ++ s2p "' not found in input data")
             (Some node_id))
          (fun _ => Return input_data) in
      match input_data with
      | VDict d =>
          match extract_field with
          | VStr key =>
              match dict_get d key with
              | Some x =>
                  prog_bind
                    (prog_log (s2p "info")
                       (s2p "Extracted field '" ++ key ++ s2p "' from input")
                       (Some node_id))
                    (fun _ => Return x)
              | None => not_found
              end
          | VList _ | VDict _ => Raise (builtin (Unhashable extract_field))
          | _ => not_found
          end
      | _ => not_found
      end
  end.

(** The [defaults] step of [execute] *)
Definition defaults_step (node_id : pystr) (node_config : dict value)
    (input_data : value) : prog value :=
  match dict_get node_config (s2p "defaults"), input_data with
  | Some defaults, VDict d =>
      match defaults with
      | VDict dflt =>
          let output_data := VDict (merge_over dflt d) in
          match List.filter (fun key => negb (dict_mem d key)) (dict_keys dflt) with
          | [] => Return output_data
          | applied_defaults =>
              prog_bind
                (prog_log (s2p "info")
                   (s2p "Applied default values for fields: "
                      ++ join (s2p ", ") applied_defaults)
                   (Some node_id))
                (fun _ => Return output_data)
          end
      | _ => Raise (builtin (NotMapping defaults))
      end
  | _, _ => Return input_data
  end.

(** [node_config.get("validate", False) and "schema" in node_config] *)
Definition validation_wanted (node_config : dict value) : bool :=
  match dict_get node_config (s2p "validate") with
  | Some flag => py_truthy flag && dict_mem node_config (s2p "schema")
  | None => false
  end.

Definition input_handler (node_id : pystr) (e : exn) : prog NodeResult :=
  match exn_class_of e with
  | NodeExecutionError => Raise e
  | _ =>
      let error_msg := s2p "Unexpected error in input node: " ++ exn_msg e in
      prog_bind (prog_log (s2p "error") error_msg (Some node_id))
                (fun _ => Raise (Exn NodeExecutionError error_msg))
  end.

(** [InputNodeExecutor.execute] *)
Definition input_execute (node_id : pystr) (node_config : dict value)
    (v : ContextView) : prog NodeResult :=
  prog_try
    (prog_bind
       (prog_log (s2p "info")
          (s2p "Processing input data, type: " ++ type_name (view_input_data v))
          (Some node_id)) (fun _ =>
     prog_bind (extract_step node_id node_config (view_input_data v)) (fun input_data =>
     prog_bind (defaults_step node_id node_config input_data) (fun output_data =>
     prog_bind
       (if validation_wanted node_config
        then _validate_input node_id output_data (value_get node_config (s2p "schema"))
        else Return tt) (fun _ =>
     prog_bind (prog_log (s2p "info") (s2p "Input processing completed") (Some node_id))
       (fun _ => Return (MkNodeResult node_id (s2p "success") output_data None)))))))
    (input_handler node_id).

(** [InputNodeExecutor(node_id)] *)
Definition InputNodeExecutor (node_id : pystr) : NodeExecutor :=
  MkExecutor input_validate_config (input_execute node_id).

(** ** Output node ([engine/nodes/output_node.py]) *)

(** [json.dumps(data, indent=2, ensure_ascii=False)] when [pretty],
    [json.dumps(data, ensure_ascii=False)] when not: the interpreter's. *)
Variable json_dumps : bool -> value -> exn + pystr.

Definition VALID_FORMATS : list pystr :=
  [s2p "raw"; s2p "json"; s2p "text"; s2p "custom"].

(** [OutputNodeExecutor.validate_config] *)
Definition output_validate_config (config : dict value) : exn + bool :=
  match (match dict_get config (s2p "format") with
         | Some format_type =>
             if negb (in_names format_type VALID_FORMATS) then
               inl (Exn NodeValidationError
                      (s2p "Invalid format: " ++ py_str format_type
                         ++ s2p ". Valid formats: " ++ join (s2p ", ") VALID_FORMATS))
             else if py_eq format_type (VStr (s2p "custom"))
                     && negb (dict_mem config (s2p "template")) then
               inl (Exn NodeValidationError (s2p "custom format requires 'template' field"))
             else inr tt
         | None => inr tt
         end) with
  | inl e => inl e
  | inr _ =>
      match dict_get config (s2p "fields") with
      | Some (VList _) | None =>
          match dict_get config (s2p "exclude_fields") with
          | Some (VList _) | None =>
              match dict_get config (s2p "template") with
              | Some (VStr _) | None =>
                  match dict_get config (s2p "pretty") with
                  | Some (VBool _) | None => inr true
                  | Some _ => inl (Exn NodeValidationError (s2p "pretty must be a boolean"))
                  end
              | Some _ => inl (Exn NodeValidationError (s2p "template must be a string"))
              end
          | Some _ => inl (Exn NodeValidationError (s2p "exclude_fields must be a list"))
          end
      | Some _ => inl (Exn NodeValidationError (s2p "fields must be a list"))
      end
  end.

(** [_get_last_node_output]: the value under the last key, [None] when
    there is no output. *)
Definition _get_last_node_output (v : ContextView) : value :=
  List.last (List.map snd (view_node_outputs v)) VNone.

(** [{k: v for k, v in data.items() if test(k)}], where the test may raise *)
Fixpoint filter_items (test : pystr -> builtin_error + bool) (items : list (pystr * value))
    : builtin_error + list (pystr * value) :=
  match items with
  | [] => inr []
  | (k, x) :: rest =>
      match test k with
      | inl e => inl e
      | inr keep =>
          match filter_items test rest with
          | inl e => inl e
          | inr kept => inr (if keep then (k, x) :: kept else kept)
          end
      end
  end.

(** [_filter_fields] *)
Definition _filter_fields (node_id : pystr) (data : value) (node_config : dict value)
    : prog value :=
  match data with
  | VDict d =>
      match dict_get node_config (s2p "fields") with
      | Some fields =>
          prog_bind (prog_lift (raised (filter_items (fun k => py_in (VStr k) fields) d)))
            (fun filtered =>
          prog_bind
            (prog_log (s2p "info")
               (s2p "Included " ++ nat_str (length filtered) ++ s2p " fields: "
                  ++ join (s2p ", ") (dict_keys filtered))
               (Some node_id))
            (fun _ => Return (VDict filtered)))
      | None =>
          match dict_get node_config (s2p "exclude_fields") with
          | Some exclude_fields =>
              prog_bind
                (prog_lift (raised (filter_items
                                      (fun k => match py_in (VStr k) exclude_fields with
                                                | inl e => inl e
                                                | inr b => inr (negb b)
                                                end) d)))
                (fun filtered =>
              prog_bind (prog_lift (py_items exclude_fields)) (fun excluded =>
              prog_bind
                (prog_log (s2p "info")
                   (s2p "Excluded " ++ nat_str (length excluded)
                      ++ s2p " fields, remaining: " ++ nat_str (length filtered))
                   (Some node_id))
                (fun _ => Return (VDict filtered))))
          | None => Return data
          end
      end
  | _ => Return data
  end.

(** The variables of the temporary context that the custom format
    resolves its template in. *)
Definition template_variables (v : ContextView) (data : value) : dict value :=
  dict_set [(s2p "input", view_input_data v)] (s2p "output") data.

(** [_format_output] *)
Definition _format_output (node_id : pystr) (data : value) (format_type : value)
    (node_config : dict value) (v : ContextView) : prog value :=
  if py_eq format_type (VStr (s2p "raw")) then Return data
  else if py_eq format_type (VStr (s2p "json")) then
    let pretty :=
      match dict_get node_config (s2p "pretty") with
      | Some flag => py_truthy flag
      | None => false
      end in
    match json_dumps pretty data with
    | inr text => Return (VStr text)
    | inl e =>
        prog_bind
          (prog_log (s2p "warning")
             (s2p "Failed to serialize to JSON: " ++ exn_msg e
                ++ s2p ". Returning raw data.")
             (Some node_id))
          (fun _ => Return data)
    end
  else if py_eq format_type (VStr (s2p "text")) then
    match data with
    | VStr _ => Return data
    | VDict d =>
        Return (VStr (join NEWLINE
                        (List.map (fun kv => fst kv ++ s2p ": " ++ py_str (snd kv)) d)))
    | _ => Return (VStr (py_str data))
    end
  else if py_eq format_type (VStr (s2p "custom")) then
    match dict_get node_config (s2p "template") with
    | Some (VStr template) =>
        Return (VStr (resolve_variables (template_variables v data) template))
    | Some template => Return template     (* resolve_variables returns what is no string *)
    | None => Return (VStr [])
    end
  else
    prog_bind
      (prog_log (s2p "warning")
         (s2p "Unknown format type: " ++ py_str format_type ++ s2p ". Returning raw data.")
         (Some node_id))
      (fun _ => Return data).

(** [context.get_node_output(source_node)]: a list or a dictionary cannot
    be a key. *)
Definition source_output (v : ContextView) (source_node : value) : exn + value :=
  match source_node with
  | VStr node_id => inr (value_get (view_node_outputs v) node_id)
  | VList _ | VDict _ => inl (builtin (Unhashable source_node))
  | _ => inr VNone
  end.

Definition output_handler (node_id : pystr) (e : exn) : prog NodeResult :=
  match exn_class_of e with
  | NodeExecutionError => Raise e
  | _ =>
      let error_msg := s2p "Unexpected error in output node: " ++ exn_msg e in
      prog_bind (prog_log (s2p "error") error_msg (Some node_id))
                (fun _ => Raise (Exn NodeExecutionError error_msg))
  end.

(** [OutputNodeExecutor.execute] *)
Definition output_execute (node_id : pystr) (node_config : dict value)
    (v : ContextView) : prog NodeResult :=
  prog_try
    (let source_node := value_get node_config (s2p "source_node") in
     prog_bind
       (if py_truthy source_node then
          prog_bind (prog_lift (source_output v source_node)) (fun input_data =>
          prog_bind
            (prog_log (s2p "info")
               (s2p "Getting output from source node: " ++ py_str source_node)
               (Some node_id))
            (fun _ => Return input_data))
        else
          prog_bind (prog_log (s2p "info") (s2p "Using last node output") (Some node_id))
            (fun _ => Return (_get_last_node_output v))) (fun input_data =>
     prog_bind
       (match input_data with
        | VNone =>
            prog_bind
              (prog_log (s2p "warning") (s2p "No input data available") (Some node_id))
              (fun _ => Return (VDict []))
        | _ => Return input_data
        end) (fun input_data =>
     prog_bind (_filter_fields node_id input_data node_config) (fun filtered_data =>
     let format_type :=
       match dict_get node_config (s2p "format") with
       | Some f => f
       | None => VStr (s2p "raw")
       end in
     prog_bind (_format_output node_id filtered_data format_type node_config v)
       (fun output =>
     prog_bind
       (prog_log (s2p "info")
          (s2p "Output formatted as " ++ py_str format_type ++ s2p ", type: "
             ++ type_name output)
          (Some node_id))
       (fun _ => Return (MkNodeResult node_id (s2p "success") output None)))))))
    (output_handler node_id).

(** [OutputNodeExecutor(node_id)] *)
Definition OutputNodeExecutor (node_id : pystr) : NodeExecutor :=
  MkExecutor output_validate_config (output_execute node_id).

(** ** What a body does when every log call returns *)

Fixpoint quiet_result {A} (p : prog A) : exn + A :=
  match p with
  | Return a => inr a
  | Raise e => inl e
  | Log _ _ _ _ next _ => quiet_result next
  end.

Fixpoint quiet_logs {A} (p : prog A) : list (pystr * pystr) :=
  match p with
  | Log level message _ _ next _ => (level, message) :: quiet_logs next
  | _ => []
  end.

Definition outcome_of {A} (r : exn + A) : outcome A :=
  match r with
  | inl e => Raised e
  | inr a => Ok a
  end.

(** ** Workflow engine ([engine/workflow_engine.py]) *)

Record FlowNode : Type := MkNode {
  fn_id : pystr;
  fn_type : pystr;
  fn_config : dict value     (* node.data.config *)
}.

Record FlowEdge : Type := MkEdge {
  edge_source : pystr;
  edge_target : pystr
}.

Record WorkflowDefinition : Type := MkDefinition {
  def_nodes : list FlowNode;
  def_edges : list FlowEdge
}.

(** [executor_registry]: a node type gives the executor class, whose
    constructor is called with [node_id] and [node_type] and may raise. *)
Definition executor_registry := pystr -> option (pystr -> pystr -> exn + NodeExecutor).

Definition graph_t := dict (list pystr).

(** [graph.get(node, [])] *)
Definition successors (graph : graph_t) (node : pystr) : list pystr :=
  match dict_get graph node with Some l => l | None => [] end.

(** The body of the loop over [definition.nodes] *)
Definition add_node (g : graph_t) (node : FlowNode) : graph_t :=
  if dict_mem g (fn_id node) then g else dict_set g (fn_id node) [].

(** [graph[edge.source].append(edge.target)] on a [defaultdict(list)] *)
Definition add_edge (g : graph_t) (edge : FlowEdge) : graph_t :=
  dict_set g (edge_source edge) (successors g (edge_source edge) ++ [edge_target edge]).

Definition _build_execution_graph (definition : WorkflowDefinition) : graph_t :=
  fold_left add_edge (def_edges definition)
            (fold_left add_node (def_nodes definition) []).

(** The state of [_has_cycle]: [visited] and [rec_stack]. *)
Definition dfs_state : Type := gset pystr * gset pystr.

(** The loop [for neighbor in graph.get(node, [])] inside [dfs], followed
    by [rec_stack.remove(node)]; [visit] is the recursive call. *)
Fixpoint dfs_each (visit : pystr -> dfs_state -> option (bool * dfs_state))
    (node : pystr) (neighbors : list pystr) (st : dfs_state)
    : option (bool * dfs_state) :=
  match neighbors with
  | [] => Some (false, (fst st, snd st ∖ {[node]}))
  | neighbor :: rest =>
      if decide (neighbor ∉ fst st) then
        match visit neighbor st with
        | Some (true, st') => Some (true, st')
        | Some (false, st') => dfs_each visit node rest st'
        | None => None
        end
      else if decide (neighbor ∈ snd st) then Some (true, st)
      else dfs_each visit node rest st
  end.

(** The inner function [dfs] of [_has_cycle]; [None] is a spent budget. *)
Fixpoint dfs (fuel : nat) (graph : graph_t) (node : pystr) (st : dfs_state)
    : option (bool * dfs_state) :=
  match fuel with
  | O => None
  | S fuel' =>
      dfs_each (dfs fuel' graph) node (successors graph node)
               ({[node]} ∪ fst st, {[node]} ∪ snd st)
  end.

(** The loop [for node in graph] of [_has_cycle] *)
Fixpoint dfs_roots (fuel : nat) (graph : graph_t) (roots : list pystr) (st : dfs_state)
    : option bool :=
  match roots with
  | [] => Some false
  | node :: rest =>
      if decide (node ∉ fst st) then
        match dfs fuel graph node st with
        | Some (true, _) => Some true
        | Some (false, st') => dfs_roots fuel graph rest st'
        | None => None
        end
      else dfs_roots fuel graph rest st
  end.

(** Every node id the graph mentions, keys first. *)
Definition graph_nodes (graph : graph_t) : list pystr :=
  dict_keys graph ++ concat (List.map snd graph).

Definition has_cycle_fuel (graph : graph_t) : nat := S (length (graph_nodes graph)).

Definition has_cycle_run (graph : graph_t) : option bool :=
  dfs_roots (has_cycle_fuel graph) graph (dict_keys graph) (∅, ∅).

Definition _has_cycle (graph : graph_t) : bool :=
  match has_cycle_run graph with Some b => b | None => false end.

Definition _validate_graph (graph : graph_t) : M unit :=
  if _has_cycle graph
  then throw (Exn WorkflowEngineError (s2p "Workflow contains circular dependencies"))
  else ret tt.

Fixpoint _get_node_by_id (node_id : pystr) (nodes : list FlowNode) : option FlowNode :=
  match nodes with
  | [] => None
  | node :: rest =>
      if decide (fn_id node = node_id) then Some node else _get_node_by_id node_id rest
  end.

Definition _execute_node (registry : executor_registry) (node : FlowNode) : M NodeResult :=
  do _ <- modify (record (TDispatch (fn_id node)));
  match registry (fn_type node) with
  | None =>
      throw (Exn WorkflowEngineError
               (s2p "No executor registered for node type: " ++ fn_type node))
  | Some executor_class =>
      do executor <- lift (executor_class (fn_id node) (fn_type node));
      run executor (fn_id node) (fn_type node) (fn_config node)
  end.

(** [d.get(t, 0)] *)
Definition degree_of (d : dict Z) (t : pystr) : Z :=
  match dict_get d t with Some n => n | None => 0%Z end.

(** The keys whose value is zero, in dictionary order *)
Definition zero_keys (d : dict Z) : list pystr :=
  List.map fst (List.filter (fun kv => (snd kv =? 0)%Z) d).

(** [in_degree] as computed at the top of [_execute_graph] *)
Definition initial_in_degree (graph : graph_t) : dict Z :=
  let zero := fold_left (fun d node_id => dict_set d node_id 0%Z) (dict_keys graph) [] in
  fold_left (fun d target =>
               dict_set d target
                 ((match dict_get d target with Some n => n | None => 0 end) + 1)%Z)
            (concat (List.map snd graph)) zero.

Record schedule : Type := MkSchedule {
  in_degree : dict Z;
  ready_nodes : list pystr;
  executed_nodes : list pystr;        (* a set, in insertion order *)
  output_node_id : option pystr
}.

(** Lines 303-314: look every batch member up and note an output node. *)
Fixpoint collect_tasks (nodes : list FlowNode) (current_batch : list pystr)
    (output_node_id : option pystr) : exn + (list FlowNode * option pystr) :=
  match current_batch with
  | [] => inr ([], output_node_id)
  | node_id :: rest =>
      match _get_node_by_id node_id nodes with
      | None => inl (Exn WorkflowEngineError (s2p "Node not found: " ++ node_id))
      | Some node =>
          let output_node_id :=
            if bool_decide (fn_type node = s2p "output") then Some node_id
            else output_node_id in
          match collect_tasks nodes rest output_node_id with
          | inl e => inl e
          | inr (tasks, o) => inr (node :: tasks, o)
          end
      end
  end.

(** [asyncio.gather] with [return_exceptions=True]: every task of the
    wave runs; here one after the other, in list order. *)
Fixpoint gather (registry : executor_registry) (tasks : list FlowNode)
    : M (list (exn + NodeResult)) :=
  match tasks with
  | [] => ret []
  | node :: rest =>
      fun c =>
        match _execute_node registry node c with
        | (OutOfFuel, c') => (OutOfFuel, c')
        | (r, c') =>
            let result := match r with Ok x => inr x | Raised e => inl e
                                     | OutOfFuel => inl (Exn OtherError []) end in
            match gather registry rest c' with
            | (Ok results, c'') => (Ok (result :: results), c'')
            | (r', c'') => (r', c'')
            end
        end
  end.

(** Lines 338-341: lower the in-degree of each successor. *)
Fixpoint release (targets : list pystr) (in_degree : dict Z) (ready_nodes : list pystr)
    : exn + (dict Z * list pystr) :=
  match targets with
  | [] => inr (in_degree, ready_nodes)
  | target_id :: rest =>
      match dict_get in_degree target_id with
      | None => inl (builtin (KeyErr target_id))
      | Some n =>
          let n' := (n - 1)%Z in
          release rest (dict_set in_degree target_id n')
            (if (n' =? 0)%Z then ready_nodes ++ [target_id] else ready_nodes)
      end
  end.

Definition set_add (l : list pystr) (x : pystr) : list pystr :=
  if bool_decide (x ∈ l) then l else l ++ [x].

Definition error_text (e : option pystr) : pystr :=
  match e with Some m => m | None => s2p "None" end.

(** Lines 323-341: go through the results of the wave. *)
Fixpoint process_results (graph : graph_t)
    (results : list (pystr * (exn + NodeResult))) (s : schedule) : exn + schedule :=
  match results with
  | [] => inr s
  | (node_id, inl e) :: _ =>
      inl (Exn WorkflowEngineError
             (s2p "Node " ++ node_id ++ s2p " execution failed: " ++ exn_msg e))
  | (node_id, inr result) :: rest =>
      if bool_decide (res_status result = s2p "failed") then
        inl (Exn WorkflowEngineError
               (s2p "Node " ++ node_id ++ s2p " failed: " ++ error_text (res_error result)))
      else
        match release (successors graph node_id) (in_degree s) (ready_nodes s) with
        | inl e => inl e
        | inr (in_degree', ready') =>
            process_results graph rest
              (MkSchedule in_degree' ready' (set_add (executed_nodes s) node_id)
                          (output_node_id s))
        end
  end.

(** The [while ready_nodes] loop *)
Fixpoint waves (fuel : nat) (registry : executor_registry) (graph : graph_t)
    (nodes : list FlowNode) (s : schedule) : M schedule :=
  match ready_nodes s with
  | [] => ret s
  | _ =>
      match fuel with
      | O => fun c => (OutOfFuel, c)
      | S fuel' =>
          let current_batch := ready_nodes s in
          do collected <- lift (collect_tasks nodes current_batch (output_node_id s));
          let tasks := fst collected in
          do results <- gather registry tasks;
          do s' <- lift (process_results graph
                           (combine (List.map fn_id tasks) results)
                           (MkSchedule (in_degree s) [] (executed_nodes s) (snd collected)));
          waves fuel' registry graph nodes s'
      end
  end.

Definition is_truthy_id (o : option pystr) : option pystr :=
  match o with
  | Some [] | None => None
  | Some node_id => Some node_id
  end.

Definition _execute_graph (registry : executor_registry) (graph : graph_t)
    (nodes : list FlowNode) : M value :=
  let in_degree := initial_in_degree graph in
  let ready_nodes := zero_keys in_degree in
  match ready_nodes with
  | [] => throw (Exn WorkflowEngineError (s2p "No start nodes found in workflow"))
  | _ =>
      do s <- waves (S (length in_degree)) registry graph nodes
                (MkSchedule in_degree ready_nodes [] None);
      if negb (length (executed_nodes s) =? length graph)%nat then
        let unexecuted :=
          List.filter (fun k => negb (bool_decide (k ∈ executed_nodes s)))
                      (dict_keys graph) in
        throw (Exn WorkflowEngineError
                 (s2p "Not all nodes were executed. Unexecuted nodes: {"
                    ++ join (s2p ", ") (List.map (fun k => py_repr (VStr k)) unexecuted)
                    ++ s2p "}"))
      else
        match is_truthy_id (output_node_id s) with
        | Some node_id => fun c => ret (get_node_output c node_id) c
        | None =>
            fun c => ret (VDict (List.map (fun node_id => (node_id, get_node_output c node_id))
                                          (executed_nodes s))) c
        end
  end.

Record workflow_result : Type := MkResult {
  wr_status : pystr;
  wr_output : option value;
  wr_error : option pystr;
  wr_summary : summary
}.

(** The [try] block of [execute_workflow] *)
Definition workflow_body (registry : executor_registry)
    (definition : WorkflowDefinition) : M workflow_result :=
  do _ <- start;
  let execution_graph := _build_execution_graph definition in
  do _ <- _validate_graph execution_graph;
  do output_data <- _execute_graph registry execution_graph (def_nodes definition);
  do _ <- complete output_data;
  fun c => ret (MkResult (s2p "completed") (Some output_data) None
                         (get_execution_summary c)) c.

(** The [except] block of [execute_workflow] *)
Definition workflow_handler (e : exn) : M workflow_result :=
  let error_msg := s2p "Workflow execution failed: " ++ exn_msg e in
  do _ <- fail error_msg;
  fun c => ret (MkResult (s2p "failed") None (Some error_msg)
                         (get_execution_summary c)) c.

Definition execute_workflow (registry : executor_registry)
    (execution_id workflow_id : pystr) (definition : WorkflowDefinition)
    (input_data : value) (callback : option callback_fn)
    : outcome workflow_result * ExecutionContext :=
  let context := new_context execution_id workflow_id input_data callback in
  try_except (workflow_body registry definition) workflow_handler context.

(** ** Execution service ([services/execution_service.py])

    What the service holds for one execution id: its record in
    [executions] (the timestamps, [current_node] and [progress] are left
    out), its flags in [execution_controls], its log in [execution_logs],
    and the state of its task in [execution_tasks].  The service runs on one
    event loop, so the code between two [await]s is one step.  An id is
    taken to be submitted once: a second [execute_workflow] with the same id
    would overwrite the four entries while the first task is still alive. *)

Inductive task_state : Type :=
| NotStarted   (* made by asyncio.create_task, not run yet *)
| Awaiting     (* suspended in [await self.workflow_engine.execute_workflow(...)] *)
| Cancelling   (* [task.cancel()] called, CancelledError not delivered yet *)
| Finished.    (* done, or removed from [execution_tasks] *)

Record Execution : Type := MkExecution {
  rec_execution_id : pystr;
  rec_workflow_id : pystr;
  rec_status : pystr;
  rec_output_data : option value;
  rec_error_message : option pystr;
  ctl_paused : bool;
  ctl_stopped : bool;
  rec_task : task_state;
  rec_waiting_stops : nat;     (* calls of stop_execution suspended in [await task] *)
  rec_logs : list (pystr * pystr)
}.

Definition _update_status (e : Execution) (st : pystr) : Execution :=
  MkExecution (rec_execution_id e) (rec_workflow_id e) st (rec_output_data e)
    (rec_error_message e) (ctl_paused e) (ctl_stopped e) (rec_task e)
    (rec_waiting_stops e) (rec_logs e).

Definition _add_log (e : Execution) (level message : pystr) : Execution :=
  MkExecution (rec_execution_id e) (rec_workflow_id e) (rec_status e) (rec_output_data e)
    (rec_error_message e) (ctl_paused e) (ctl_stopped e) (rec_task e)
    (rec_waiting_stops e) (rec_logs e ++ [(level, message)]).

Definition set_output_data (e : Execution) (x : option value) : Execution :=
  MkExecution (rec_execution_id e) (rec_workflow_id e) (rec_status e) x
    (rec_error_message e) (ctl_paused e) (ctl_stopped e) (rec_task e)
    (rec_waiting_stops e) (rec_logs e).

Definition set_error_message (e : Execution) (x : option pystr) : Execution :=
  MkExecution (rec_execution_id e) (rec_workflow_id e) (rec_status e) (rec_output_data e)
    x (ctl_paused e) (ctl_stopped e) (rec_task e) (rec_waiting_stops e) (rec_logs e).

Definition set_paused (e : Execution) (x : bool) : Execution :=
  MkExecution (rec_execution_id e) (rec_workflow_id e) (rec_status e) (rec_output_data e)
    (rec_error_message e) x (ctl_stopped e) (rec_task e) (rec_waiting_stops e) (rec_logs e).

Definition set_stopped (e : Execution) (x : bool) : Execution :=
  MkExecution (rec_execution_id e) (rec_workflow_id e) (rec_status e) (rec_output_data e)
    (rec_error_message e) (ctl_paused e) x (rec_task e) (rec_waiting_stops e) (rec_logs e).

Definition set_task (e : Execution) (x : task_state) : Execution :=
  MkExecution (rec_execution_id e) (rec_workflow_id e) (rec_status e) (rec_output_data e)
    (rec_error_message e) (ctl_paused e) (ctl_stopped e) x (rec_waiting_stops e)
    (rec_logs e).

Definition set_waiting_stops (e : Execution) (x : nat) : Execution :=
  MkExecution (rec_execution_id e) (rec_workflow_id e) (rec_status e) (rec_output_data e)
    (rec_error_message e) (ctl_paused e) (ctl_stopped e) (rec_task e) x (rec_logs e).

(** [ExecutionService.execute_workflow]: what it stores for a new id. *)
Definition submitted (execution_id workflow_id : pystr) : Execution :=
  MkExecution execution_id workflow_id (s2p "pending") None None false false NotStarted 0
    [(s2p "info",
      s2p "Execution " ++ execution_id ++ s2p " created for workflow " ++ workflow_id)].

(** [_execute_workflow_async] up to its [await]. *)
Definition task_begin (node_count : nat) (e : Execution) : Execution :=
  set_task
    (_add_log (_update_status e (s2p "running")) (s2p "info")
       (s2p "Starting workflow execution with " ++ nat_str node_count ++ s2p " nodes"))
    Awaiting.

(** [_execute_workflow_async] after the engine has returned [result],
    [finally] included. *)
Definition task_return (result : workflow_result) (e : Execution) : Execution :=
  set_task
    (if ctl_stopped e then
       _add_log (_update_status e (s2p "stopped")) (s2p "info")
                (s2p "Execution stopped by user")
     else if bool_decide (wr_status result = s2p "completed") then
       _add_log (set_output_data (_update_status e (s2p "completed")) (wr_output result))
                (s2p "info") (s2p "Workflow execution completed successfully")
     else
       _add_log (set_error_message (_update_status e (s2p "failed")) (wr_error result))
                (s2p "error")
                (s2p "Workflow execution failed: " ++ error_text (wr_error result)))
    Finished.

(** The [except Exception] block of [_execute_workflow_async], [finally]
    included: the engine raised [x]. *)
Definition task_raise (x : exn) (e : Execution) : Execution :=
  let error_msg := s2p "Workflow execution error: " ++ exn_msg x in
  set_task
    (_add_log (set_error_message (_update_status e (s2p "failed")) (Some error_msg))
              (s2p "error") error_msg)
    Finished.

(** CancelledError reaches the task: it is a BaseException (Python 3.8 and
    later) and passes every [except Exception] of the engine and of the
    service, so only the [finally] block runs. *)
Definition task_cancelled (e : Execution) : Execution := set_task e Finished.

(** The last two lines of [stop_execution] *)
Definition stop_finish (e : Execution) : Execution :=
  _add_log (_update_status e (s2p "stopped")) (s2p "info") (s2p "Execution stopped").

(** [stop_execution] for a known id, up to [await task] when the task is
    still alive, to its end when it is not. *)
Definition stop_execution (e : Execution) : Execution :=
  let e := set_stopped e true in
  match rec_task e with
  | Finished => stop_finish e
  | _ => set_waiting_stops (set_task e Cancelling) (S (rec_waiting_stops e))
  end.

(** [stop_execution] after [await task] *)
Definition stop_execution_resumed (e : Execution) : Execution :=
  stop_finish (set_waiting_stops e (pred (rec_waiting_stops e))).

(** [pause_execution] for a known id *)
Definition pause_execution (e : Execution) : bool * Execution :=
  if bool_decide (rec_status e <> s2p "running") then (false, e)
  else (true, _add_log (_update_status (set_paused e true) (s2p "paused"))
                       (s2p "info") (s2p "Execution paused")).

(** [resume_execution] for a known id *)
Definition resume_execution (e : Execution) : bool * Execution :=
  if bool_decide (rec_status e <> s2p "paused") then (false, e)
  else (true, _add_log (_update_status (set_paused e false) (s2p "running"))
                       (s2p "info") (s2p "Execution resumed")).

(** The steps of the service on one execution. *)
Inductive action : Type :=
| TaskBegins (node_count : nat)
| TaskReturns (result : workflow_result)
| TaskRaises (x : exn)
| TaskCancelled
| Stop
| StopResumes
| Pause
| Resume.

(** One step; [None] when the step cannot be taken in this state. *)
Definition act (a : action) (e : Execution) : option Execution :=
  match a, rec_task e with
  | TaskBegins node_count, NotStarted => Some (task_begin node_count e)
  | TaskReturns result, Awaiting => Some (task_return result e)
  | TaskRaises x, Awaiting => Some (task_raise x e)
  | TaskCancelled, Cancelling => Some (task_cancelled e)
  | Stop, _ => Some (stop_execution e)
  | StopResumes, Finished =>
      match rec_waiting_stops e with
      | O => None
      | S _ => Some (stop_execution_resumed e)
      end
  | Pause, _ => Some (snd (pause_execution e))
  | Resume, _ => Some (snd (resume_execution e))
  | _, _ => None
  end.

Fixpoint acts (l : list action) (e : Execution) : option Execution :=
  match l with
  | [] => Some e
  | a :: l' =>
      match act a e with
      | Some e' => acts l' e'
      | None => None
      end
  end.

(** The run states and the changes between them that the service makes:
    pause sets a label and a flag that the engine never reads, so a paused
    run finishes like a running one; stop can come before the task has
    begun. *)
Definition run_state_edges : list (pystr * pystr) :=
  [ (s2p "pending", s2p "running"); (s2p "pending", s2p "stopped");
    (s2p "running", s2p "completed"); (s2p "running", s2p "failed");
    (s2p "running", s2p "stopped"); (s2p "running", s2p "paused");
    (s2p "paused", s2p "running"); (s2p "paused", s2p "stopped");
    (s2p "paused", s2p "completed"); (s2p "paused", s2p "failed") ].

Definition live_statuses : list pystr :=
  [s2p "pending"; s2p "running"; s2p "paused"; s2p "stopped"].

(** What holds of every state the service reaches for an execution. *)
Definition service_inv (e : Execution) : Prop :=
  In (rec_status e) (s2p "completed" :: s2p "failed" :: live_statuses)
  /\ match rec_task e with
     | NotStarted =>
         rec_status e = s2p "pending" /\ rec_waiting_stops e = 0 /\ ctl_stopped e = false
     | Awaiting =>
         (rec_status e = s2p "running" \/ rec_status e = s2p "paused")
         /\ rec_waiting_stops e = 0 /\ ctl_stopped e = false
     | Cancelling => In (rec_status e) live_statuses
     | Finished => rec_waiting_stops e <> 0 -> In (rec_status e) live_statuses
     end.

(** Scenario data: a result of the engine with status "completed". *)
Definition completed_result : workflow_result :=
  MkResult (s2p "completed") (Some VNone) None
           (Summary (s2p "completed") None 0 0 0 0).

(** The edge relation of a definition and of an execution graph. *)
Definition edge_of (definition : WorkflowDefinition) (u v : pystr) : Prop :=
  In (MkEdge u v) (def_edges definition).

Definition graph_edge (graph : graph_t) (u v : pystr) : Prop :=
  In v (successors graph u).

Definition cyclic {A} (R : relation A) : Prop := exists x, tc R x x.

Definition node_ids (definition : WorkflowDefinition) : list pystr :=
  List.map fn_id (def_nodes definition).

(** The nodes a traversal can meet. *)
Definition dfs_universe (graph : graph_t) : gset pystr :=
  list_to_set (graph_nodes graph).

(** Invariant of [_has_cycle]: the recursion stack is visited, and the
    finished nodes (visited, off the stack) are closed under the edges and
    lie on no cycle. *)
Definition dfs_good (graph : graph_t) (st : dfs_state) : Prop :=
  snd st ⊆ fst st
  /\ (forall b s, b ∈ fst st ∖ snd st -> graph_edge graph b s -> s ∈ fst st ∖ snd st)
  /\ (forall b, b ∈ fst st ∖ snd st -> ~ tc (graph_edge graph) b b).

Definition dfs_post (graph : graph_t) (node : pystr) (st : dfs_state)
    (res : option (bool * dfs_state)) : Prop :=
  exists b st', res = Some (b, st') /\
    (b = true -> cyclic (graph_edge graph)) /\
    (b = false ->
       fst st ⊆ fst st' /\ node ∈ fst st' /\ fst st' ⊆ dfs_universe graph
       /\ snd st' = snd st /\ dfs_good graph st').

Definition visit_ok (graph : graph_t) (budget : nat)
    (visit : pystr -> dfs_state -> option (bool * dfs_state)) : Prop :=
  forall node st,
    node ∈ dfs_universe graph -> node ∉ fst st -> fst st ⊆ dfs_universe graph ->
    dfs_good graph st ->
    (forall r, r ∈ snd st -> rtc (graph_edge graph) r node) ->
    size (dfs_universe graph ∖ fst st) < budget ->
    dfs_post graph node st (visit node st).

(** The targets of the edges that leave [u], in the order of the
    definition. *)
Definition targets_from (u : pystr) (edges : list FlowEdge) : list pystr :=
  List.map edge_target (List.filter (fun e => bool_decide (edge_source e = u)) edges).

(** An observer that is absent or never raises. *)
Definition quiet_callback (callback : option callback_fn) : Prop :=
  match callback with
  | Some f => forall history ev, f history ev = None
  | None => True
  end.


Definition self_loop_definition : WorkflowDefinition :=
  MkDefinition [MkNode (s2p "a") (s2p "input") []] [MkEdge (s2p "a") (s2p "a")].

Definition dangling_definition : WorkflowDefinition :=
  MkDefinition [MkNode (s2p "a") (s2p "input") []] [MkEdge (s2p "a") (s2p "x")].

(** What a call to a callback that does not raise leaves behind. *)
Definition deliver (ev : event) (c : ExecutionContext) : ExecutionContext :=
  match callback c with
  | None => c
  | Some _ => set_delivered c (delivered c ++ [ev])
  end.

(** ** Vocabulary for the scheduling proofs *)

(** How many times [x] occurs in [l]. *)
Fixpoint occurrences (x : pystr) (l : list pystr) : Z :=
  match l with
  | [] => 0
  | y :: l' => (if decide (y = x) then 1 else 0) + occurrences x l'
  end.

(** The targets of the edges whose source has not been processed yet. *)
Definition remaining (graph : graph_t) (done : gset pystr) : list pystr :=
  concat (List.map (fun kv => if decide (fst kv ∈ done) then [] else snd kv) graph).

Definition not_dispatch (t : trace_event) : Prop :=
  match t with TDispatch _ => False | _ => True end.

(** [run] has returned for node [u] with a status other than "failed", and
    when that status is "success" the output of [u] has been stored. *)
Definition finished_in (tr : list trace_event) (u : pystr) : Prop :=
  exists status,
    In (TReturn u status) tr /\ status <> s2p "failed"
    /\ (status = s2p "success" -> exists output, In (TOutput u output) tr).

(** Every dispatch in the trace comes after all predecessors finished. *)
Definition dispatch_ordered (R : relation pystr) (tr : list trace_event) : Prop :=
  forall before v after,
    tr = before ++ TDispatch v :: after ->
    forall u, R u v -> finished_in before u.

(** Invariant of the [while ready_nodes] loop: [done] are the nodes whose
    result has been processed, [pending] the rest of the current wave. *)
Record sched_inv (graph : graph_t) (nodes : list FlowNode) (done : gset pystr)
    (pending : list pystr) (s : schedule) : Prop := MkSchedInv {
  inv_degree : forall t, In t (graph_nodes graph) ->
      dict_get (in_degree s) t = Some (occurrences t (remaining graph done));
  inv_nodup : List.NoDup (pending ++ ready_nodes s);
  inv_ready : forall x, In x (pending ++ ready_nodes s) ->
      (x ∉ done) /\ In x (graph_nodes graph)
      /\ occurrences x (remaining graph done) = 0%Z;
  inv_done : forall x, x ∈ done ->
      occurrences x (remaining graph done) = 0%Z /\ In x (List.map fn_id nodes);
  inv_complete : forall x, In x (graph_nodes graph) ->
      occurrences x (remaining graph done) = 0%Z ->
      (x ∈ done) \/ In x (pending ++ ready_nodes s);
  inv_executed : forall x, In x (executed_nodes s) <-> x ∈ done;
  inv_executed_nodup : List.NoDup (executed_nodes s)
}.

(** The trace only grows, and the observer stays the same: [c'] adds to
    the trace of [c] events that all satisfy [P]. *)
Definition extends_with (P : trace_event -> Prop) (c c' : ExecutionContext) : Prop :=
  callback c' = callback c
  /\ exists ext, trace c' = trace c ++ ext /\ Forall P ext.

(** Code that keeps every dispatch after the predecessors of its node. *)
Definition keeps_order {A} (R : relation pystr) (m : M A) : Prop :=
  forall c r c', m c = (r, c') -> dispatch_ordered R (trace c) ->
    r <> OutOfFuel /\ callback c' = callback c /\ dispatch_ordered R (trace c').

(** Code that stays within its budget and dispatches no node. *)
Definition steady {A} (m : M A) : Prop :=
  forall c r c', m c = (r, c') -> r <> OutOfFuel /\ extends_with not_dispatch c c'.

(** What [run] leaves in the trace when it returns [res] for [node_id]. *)
Definition returned (tr : list trace_event) (node_id : pystr) (res : NodeResult) : Prop :=
  In (TReturn node_id (res_status res)) tr
  /\ (res_status res = s2p "success" -> exists output, In (TOutput node_id output) tr).

(** Scenario executors: one that returns the workflow input with status
    "success" (the mock input executor of the tests), one that returns the
    status "skipped"; and the registries that know only them. *)
Definition echo_executor (node_id : pystr) : NodeExecutor :=
  MkExecutor (fun _ => inr true)
             (fun _ v => Return (MkNodeResult node_id (s2p "success") (view_input_data v) None)).

Definition skipping_executor (node_id : pystr) : NodeExecutor :=
  MkExecutor (fun _ => inr true)
             (fun _ _ => Return (MkNodeResult node_id (s2p "skipped") VNone None)).

Definition echo_registry : executor_registry :=
  fun _ => Some (fun node_id _ => inr (echo_executor node_id)).

Definition skipping_registry : executor_registry :=
  fun _ => Some (fun node_id _ => inr (skipping_executor node_id)).

(** Scenario data: the chain a -> b. *)
Definition chain_definition : WorkflowDefinition :=
  MkDefinition [MkNode (s2p "a") (s2p "input") []; MkNode (s2p "b") (s2p "output") []]
               [MkEdge (s2p "a") (s2p "b")].

(** Some edge names a source or a target that is the id of no node. *)
Definition unknown_endpoint (definition : WorkflowDefinition) : Prop :=
  exists e, In e (def_edges definition)
            /\ (~ In (edge_source e) (node_ids definition)
                \/ ~ In (edge_target e) (node_ids definition)).

(** ** More of the context ([engine/context.py]) *)

(** [set_variable] *)
Definition set_variable (key : pystr) (v : value) : M unit :=
  modify (fun c => set_variables c (dict_set (variables c) key v)).

(** [get_variable(key, default)] *)
Definition get_variable (c : ExecutionContext) (key : pystr) (default : value) : value :=
  match dict_get (variables c) key with
  | Some v => v
  | None => default
  end.

(** [get_node_status] *)
Definition get_node_status (c : ExecutionContext) (node_id : pystr) : option pystr :=
  dict_get (node_statuses c) node_id.

(** ** More of the engine and of the service *)

(** [_get_start_nodes] ([engine/workflow_engine.py]); nothing calls it.
    The result is [list] of a set, whose order is not fixed: a set here. *)
Definition _get_start_nodes (graph : graph_t) : gset pystr :=
  let all_nodes : gset pystr := list_to_set (dict_keys graph) in
  let nodes_with_incoming : gset pystr := list_to_set (concat (List.map snd graph)) in
  let start_nodes := all_nodes ∖ nodes_with_incoming in
  if decide (start_nodes = ∅) then
    match dict_keys graph with
    | first :: _ => {[first]}
    | [] => ∅
    end
  else start_nodes.

(** [logs[-limit:]] *)
Definition slice_last {A} (l : list A) (limit : Z) : list A :=
  if (0 <? limit)%Z then skipn (length l - Z.to_nat limit) l
  else skipn (Z.to_nat (- limit)) l.

(** What the service holds, by execution id. *)
Definition service := dict Execution.

(** [ExecutionService.get_execution_logs]; an entry is (level, message). *)
Definition get_execution_logs (sv : service) (execution_id : pystr)
    (level : option pystr) (limit : option Z) : list (pystr * pystr) :=
  let logs := match dict_get sv execution_id with
              | Some e => rec_logs e
              | None => []
              end in
  let logs := match level with
              | Some [] | None => logs       (* [if level:] *)
              | Some lv => List.filter (fun log => bool_decide (fst log = lv)) logs
              end in
  match limit with
  | Some n => if (n =? 0)%Z then logs else slice_last logs n
  | None => logs
  end.

(** The eight operator names. *)
Definition operator_names : list pystr :=
  [s2p "eq"; s2p "ne"; s2p "gt"; s2p "gte"; s2p "lt"; s2p "lte"; s2p "contains"; s2p "in"].

(** A condition as [validate_config] wants it. *)
Definition well_formed_condition (condition : value) : Prop :=
  exists d field op expected branch,
    condition = VDict d
    /\ dict_get d (s2p "field") = Some field
    /\ dict_get d (s2p "operator") = Some (VStr op) /\ In op operator_names
    /\ dict_get d (s2p "value") = Some expected
    /\ dict_get d (s2p "branch") = Some (VStr branch) /\ strip branch <> [].

(** ** Vocabulary for the condition node *)







(** Scenario data: the two conditions on [input.age] of the specification's
    example, and a context whose input is [{"age": age}]. *)
Definition age_conditions : list value :=
  [ VDict [ (s2p "field", VStr (s2p "input.age")); (s2p "operator", VStr (s2p "gte"));
            (s2p "value", VInt 18); (s2p "branch", VStr (s2p "adult")) ];
    VDict [ (s2p "field", VStr (s2p "input.age")); (s2p "operator", VStr (s2p "lt"));
            (s2p "value", VInt 18); (s2p "branch", VStr (s2p "minor")) ] ].

Definition age_config : dict value :=
  [ (s2p "conditions", VList age_conditions);
    (s2p "default_branch", VStr (s2p "unknown")) ].

Definition age_context (age : value) : ExecutionContext :=
  new_context (s2p "e1") (s2p "w1") (VDict [(s2p "age", age)]) None.


(** A condition that compares the number under [input.age] with a string,
    followed by one that holds. *)
Definition mismatch_config : dict value :=
  [ (s2p "conditions",
     VList [ VDict [ (s2p "field", VStr (s2p "input.age"));
                     (s2p "operator", VStr (s2p "gt"));
                     (s2p "value", VStr (s2p "x")); (s2p "branch", VStr (s2p "a")) ];
             VDict [ (s2p "field", VStr (s2p "input.age"));
                     (s2p "operator", VStr (s2p "eq"));
                     (s2p "value", VInt 20); (s2p "branch", VStr (s2p "b")) ] ]) ].

(** ** Vocabulary for the observer proofs *)

(** The context without its observer: no callback, nothing delivered. *)
Definition strip_observer (c : ExecutionContext) : ExecutionContext :=
  Ctx (execution_id c) (workflow_id c) (input_data c) None (status c) (error c)
      (variables c) (node_outputs c) (node_statuses c) (logs c) [] (trace c).

(** Code that, under an observer that does not raise, does to the stripped
    context what it does to the context. *)
Definition transparent {A} (m : M A) : Prop :=
  forall c, quiet_callback (callback c) ->
    m (strip_observer c) = (fst (m c), strip_observer (snd (m c)))
    /\ callback (snd (m c)) = callback c.

(** The event that a status change or a log entry sends to the observer. *)
Definition event_of (execution_id : pystr) (t : trace_event) : list event :=
  match t with
  | TStatus node_id status => [EvNodeStatus execution_id node_id status]
  | TLog entry => [EvLog entry]
  | _ => []
  end.

Definition is_node_or_log (ev : event) : bool :=
  match ev with
  | EvStatus _ _ _ _ => false
  | _ => true
  end.

Definition is_log_event (ev : event) : bool :=
  match ev with
  | EvLog _ => true
  | _ => false
  end.

(** What each run with the observer [f] installed keeps true: the status
    changes and log entries of the trace are, in order, the node-status and
    log events delivered to [f]; the stored log is the delivered log events;
    every stored node status was delivered. *)
Definition all_emitted (f : callback_fn) (eid : pystr) (c : ExecutionContext) : Prop :=
  callback c = Some f /\ execution_id c = eid
  /\ flat_map (event_of eid) (trace c) = List.filter is_node_or_log (delivered c)
  /\ List.map EvLog (logs c) = List.filter is_log_event (delivered c)
  /\ (forall node_id st, dict_get (node_statuses c) node_id = Some st ->
        In (EvNodeStatus eid node_id st) (delivered c)).

Definition preserves {A} (I : ExecutionContext -> Prop) (m : M A) : Prop :=
  forall c r c', m c = (r, c') -> I c -> I c'.

(** [status_callback] of [ExecutionService._execute_workflow_async]: it is
    declared with the parameters (node_id, status, data=None) and the
    context calls it with one dictionary, so every call raises TypeError
    before its body runs. *)
Definition status_callback : callback_fn :=
  fun _ _ => Some (builtin (MissingArgument (s2p "status_callback") (s2p "status"))).

(** A token that the lookup cannot turn into text: its path is absent, or
    the value stored there is null. *)
Definition path_unresolved (variables : dict value) (inner : pystr) : Prop :=
  match spec_lookup (VDict variables) (token_path inner) with
  | Some VNone | None => True
  | Some _ => False
  end.

(** Scenario data: a = "{{b}}", b = "x" *)
Definition chained_variables : dict value :=
  [(s2p "a", VStr (s2p "{{b}}")); (s2p "b", VStr (s2p "x"))].

(** Scenario data: input = {"user": {"name": "Alice"}} *)
Definition alice_variables : dict value :=
  [(s2p "input", VDict [(s2p "user", VDict [(s2p "name", VStr (s2p "Alice"))])])].

(** ** Vocabulary for the properties of the context, the template and a whole run *)

(** The context's data: everything but the log, the observer's history
    and the trace. *)
Definition same_data (c c' : ExecutionContext) : Prop :=
  callback c' = callback c /\ execution_id c' = execution_id c
  /\ workflow_id c' = workflow_id c /\ input_data c' = input_data c
  /\ status c' = status c /\ error c' = error c
  /\ variables c' = variables c /\ node_outputs c' = node_outputs c
  /\ node_statuses c' = node_statuses c.

Definition error_message_of (e : exn) : pystr :=
  match exn_class_of e with
  | NodeValidationError => s2p "Configuration validation failed: " ++ exn_msg e
  | NodeExecutionError => s2p "Execution failed: " ++ exn_msg e
  | _ => s2p "Unexpected error: " ++ exn_msg e
  end.

(** The engine's keys never collide with [input] or [nodes]. *)
Definition input_kept (input : value) (c : ExecutionContext) : Prop :=
  input_data c = input
  /\ dict_get (variables c) (s2p "input") = Some input
  /\ dict_get (variables c) (s2p "nodes") = None.

(** The node ids dispatched, in order. *)
Definition dispatched (tr : list trace_event) : list pystr :=
  flat_map (fun t => match t with TDispatch u => [u] | _ => [] end) tr.

(** The dispatches of a trace are distinct ids of nodes. *)
Definition dispatched_once (nodes : list FlowNode) (tr : list trace_event) : Prop :=
  List.NoDup (dispatched tr)
  /\ forall u, In u (dispatched tr) -> In u (List.map fn_id nodes).

(** No node has the status "failed". *)
Definition no_failed (d : dict pystr) : Prop :=
  forall k v, In (k, v) d -> v <> s2p "failed".

(** ** Vocabulary for the input and output nodes *)

(** The level and the text of a log entry. *)
Definition level_message (e : log_entry) : pystr * pystr := (log_level e, log_message e).


(** * Properties *)

(** ** Variable resolver *)

Lemma span_not_rbrace_app s :
  fst (span_not_rbrace s) ++ snd (span_not_rbrace s) = s.
Proof.
  induction s as [|c t IH]; simpl; [reflexivity|].
  destruct (c =? RBRACE)%N; [reflexivity|].
  destruct (span_not_rbrace t) as [a b]; simpl in *. now rewrite IH.
Qed.

Lemma match_token_shape s inner rest :
  match_token s = Some (inner, rest) -> s = token_text inner ++ rest.
Proof.
  unfold match_token, token_text.
  destruct s as [|c1 [|c2 t]]; try discriminate.
  destruct (c1 =? LBRACE)%N eqn:E1; [|discriminate].
  destruct (c2 =? LBRACE)%N eqn:E2; [|discriminate]. simpl.
  pose proof (span_not_rbrace_app t) as Happ.
  destruct (span_not_rbrace t) as [[|c a] [|r1 [|r2 b]]]; try discriminate.
  destruct (r1 =? RBRACE)%N eqn:E3; [|discriminate].
  destruct (r2 =? RBRACE)%N eqn:E4; [|discriminate]. simpl.
  intros [= <- <-].
  apply N.eqb_eq in E1, E2, E3, E4. subst c1 c2 r1 r2. simpl in Happ.
  rewrite <- Happ. simpl. rewrite <- app_assoc. reflexivity.
Qed.

Lemma match_token_shorter s inner rest :
  match_token s = Some (inner, rest) -> length rest < length s.
Proof.
  intros H. apply match_token_shape in H. subst s.
  unfold token_text. rewrite !length_app. simpl. lia.
Qed.

Lemma re_sub_fuel_irrel repl n m s :
  length s < n -> length s < m -> re_sub_fuel n repl s = re_sub_fuel m repl s.
Proof.
  revert m s. induction n as [|n IH]; intros m s Hn Hm; [lia|].
  destruct m as [|m]; [lia|]. simpl.
  destruct (match_token s) as [[inner rest]|] eqn:Hmt.
  - apply match_token_shorter in Hmt. f_equal. apply IH; lia.
  - destruct s as [|c t]; [reflexivity|]. simpl in Hn, Hm. f_equal. apply IH; lia.
Qed.

Lemma re_sub_fuel_enough repl n s :
  length s < n -> re_sub_fuel n repl s = re_sub repl s.
Proof. intros Hn. unfold re_sub. apply re_sub_fuel_irrel; lia. Qed.

Lemma re_sub_eq repl s :
  re_sub repl s =
  match match_token s with
  | Some (inner, rest) => repl (token_text inner) inner ++ re_sub repl rest
  | None => match s with [] => [] | c :: t => c :: re_sub repl t end
  end.
Proof.
  unfold re_sub at 1. simpl.
  destruct (match_token s) as [[inner rest]|] eqn:Hm.
  - f_equal. apply re_sub_fuel_enough. now apply match_token_shorter in Hm.
  - destruct s as [|c t]; [reflexivity|]. f_equal.
Qed.

Lemma tokens_fuel_irrel n m s :
  length s < n -> length s < m -> tokens_fuel n s = tokens_fuel m s.
Proof.
  revert m s. induction n as [|n IH]; intros m s Hn Hm; [lia|].
  destruct m as [|m]; [lia|]. simpl.
  destruct (match_token s) as [[inner rest]|] eqn:Hmt.
  - apply match_token_shorter in Hmt. f_equal. apply IH; lia.
  - destruct s as [|c t]; [reflexivity|]. simpl in Hn, Hm. f_equal. apply IH; lia.
Qed.

Lemma tokens_fuel_enough n s :
  length s < n -> tokens_fuel n s = tokens s.
Proof. intros Hn. unfold tokens. apply tokens_fuel_irrel; lia. Qed.

Lemma tokens_eq s :
  tokens s =
  match match_token s with
  | Some (inner, rest) => Tok inner :: tokens rest
  | None => match s with [] => [] | c :: t => Lit c :: tokens t end
  end.
Proof.
  unfold tokens at 1. simpl.
  destruct (match_token s) as [[inner rest]|] eqn:Hm.
  - f_equal. apply tokens_fuel_enough. now apply match_token_shorter in Hm.
  - destruct s as [|c t]; [reflexivity|]. f_equal.
Qed.

(** Induction along the scan of [re.sub]. *)
Lemma scan_ind (P : pystr -> Prop) :
  P [] ->
  (forall s inner rest, match_token s = Some (inner, rest) -> P rest -> P s) ->
  (forall c t, match_token (c :: t) = None -> P t -> P (c :: t)) ->
  forall s, P s.
Proof.
  intros Hnil Htok Hlit s.
  remember (length s) as n eqn:Hn. revert s Hn.
  induction n as [n IH] using lt_wf_ind. intros s Hn.
  destruct (match_token s) as [[inner rest]|] eqn:Hm.
  - apply (Htok _ _ _ Hm). apply (IH (length rest)); [|reflexivity].
    subst n. now apply match_token_shorter in Hm.
  - destruct s as [|c t]; [exact Hnil|].
    apply (Hlit _ _ Hm). apply (IH (length t)); [|reflexivity].
    subst n. simpl. lia.
Qed.

Lemma get_nested_loop_spec v parts :
  get_nested_loop v parts =
  match spec_lookup v parts with Some x => x | None => VNone end.
Proof.
  revert v. induction parts as [|part parts IH]; intros v; [reflexivity|].
  simpl. destruct v; try reflexivity.
  unfold value_get. destruct (dict_get d part) as [v'|]; [|reflexivity].
  rewrite <- IH. destruct v'; try reflexivity.
  destruct parts; reflexivity.
Qed.

Lemma replace_var_render variables inner :
  replace_var variables (token_text inner) inner = render variables (Tok inner).
Proof.
  unfold replace_var, render, _get_nested_value, token_path.
  rewrite get_nested_loop_spec.
  destruct (spec_lookup _ _) as [[]|]; reflexivity.
Qed.

Lemma replace_var_none variables inner :
  _get_nested_value variables (strip inner) = VNone ->
  render variables (Tok inner) = token_text inner.
Proof.
  intros H. rewrite <- replace_var_render. unfold replace_var. now rewrite H.
Qed.

Lemma resolve_render variables text :
  resolve_variables variables text = flat_map (render variables) (tokens text).
Proof.
  unfold resolve_variables.
  induction text as [|s inner rest Hm IH|c t Hm IH] using scan_ind.
  - reflexivity.
  - rewrite re_sub_eq, tokens_eq, Hm. simpl.
    now rewrite IH, replace_var_render.
  - rewrite re_sub_eq, tokens_eq, Hm. simpl. now rewrite IH.
Qed.

Lemma tokens_text text : flat_map segment_text (tokens text) = text.
Proof.
  induction text as [|s inner rest Hm IH|c t Hm IH] using scan_ind.
  - reflexivity.
  - rewrite tokens_eq, Hm. simpl flat_map. rewrite IH.
    symmetry. now apply match_token_shape.
  - rewrite tokens_eq, Hm. simpl. now rewrite IH.
Qed.

(** A token at which the lookup comes back empty is copied to the output at
    the place where it stands. *)
Lemma resolve_token_verbatim variables text before inner after :
  tokens text = before ++ Tok inner :: after ->
  _get_nested_value variables (strip inner) = VNone ->
  resolve_variables variables text =
    flat_map (render variables) before ++ token_text inner
      ++ flat_map (render variables) after
  /\ text =
    flat_map segment_text before ++ token_text inner
      ++ flat_map segment_text after.
Proof.
  intros Ht Hn. split.
  - rewrite resolve_render, Ht, flat_map_app. cbn [flat_map].
    now rewrite (replace_var_none _ _ Hn).
  - rewrite <- (tokens_text text) at 1. rewrite Ht, flat_map_app. reflexivity.
Qed.

Lemma absent_get_nested variables inner :
  spec_lookup (VDict variables) (token_path inner) = None ->
  _get_nested_value variables (strip inner) = VNone.
Proof.
  intros H. unfold _get_nested_value. rewrite get_nested_loop_spec.
  unfold token_path in H. now rewrite H.
Qed.

(** C4.  A [{{...}}] token whose dotted path is absent from the variables
    stands in the output exactly as it stands in the input, at the same
    place between the renderings of what precedes and follows it; and under
    input = {"user": {"name": "Alice"}} the template
    "Hello {{input.user.name}} — {{missing}}" resolves to
    "Hello Alice — {{missing}}". *)
Theorem resolve_absent_token_unchanged :
  (forall variables text before inner after,
      tokens text = before ++ Tok inner :: after ->
      spec_lookup (VDict variables) (token_path inner) = None ->
      resolve_variables variables text =
        flat_map (render variables) before ++ token_text inner
          ++ flat_map (render variables) after
      /\ text =
        flat_map segment_text before ++ token_text inner
          ++ flat_map segment_text after)
  /\ resolve_variables alice_variables
       (s2p "Hello {{input.user.name}} " ++ [8212%N] ++ s2p " {{missing}}")
     = s2p "Hello Alice " ++ [8212%N] ++ s2p " {{missing}}".
Proof.
  split.
  - intros variables text before inner after Ht Habs.
    apply resolve_token_verbatim; [exact Ht|]. now apply absent_get_nested.
  - vm_compute. reflexivity.
Qed.

Lemma flat_map_ext_in {A B} (f g : A -> list B) l :
  (forall x, In x l -> f x = g x) -> flat_map f l = flat_map g l.
Proof.
  induction l as [|x l IH]; intros H; [reflexivity|].
  simpl. rewrite (H x) by now left.
  rewrite IH; [reflexivity|]. intros y Hy. apply H. now right.
Qed.

Lemma path_unresolved_render variables inner :
  path_unresolved variables inner ->
  render variables (Tok inner) = token_text inner.
Proof.
  unfold path_unresolved, render.
  destruct (spec_lookup _ _) as [[]|]; easy.
Qed.

(** A text all of whose tokens are unresolved is a fixed point. *)
Lemma resolve_fixed_point variables text :
  (forall inner, In (Tok inner) (tokens text) -> path_unresolved variables inner) ->
  resolve_variables variables text = text.
Proof.
  intros H. rewrite resolve_render. rewrite <- (tokens_text text) at 2.
  apply flat_map_ext_in. intros [c|inner] Hin; [reflexivity|].
  simpl segment_text. apply path_unresolved_render. now apply H.
Qed.

(** C5 (amended).  A string without [{{...}}] tokens resolves to itself;
    resolving twice equals resolving once whenever every token still
    standing in the once-resolved text is unresolved (its path is absent or
    holds null), in particular when that text holds no token at all. *)
Theorem resolve_idempotent_when_settled :
  (forall variables text,
      has_no_token text -> resolve_variables variables text = text)
  /\ (forall variables text,
        (forall inner,
            In (Tok inner) (tokens (resolve_variables variables text)) ->
            path_unresolved variables inner) ->
        resolve_variables variables (resolve_variables variables text)
        = resolve_variables variables text).
Proof.
  split.
  - intros variables text Hno. apply resolve_fixed_point.
    intros inner Hin. now apply Hno in Hin.
  - intros variables text H. now apply resolve_fixed_point.
Qed.

Lemma dict_get_set {V} (d : dict V) k v k' :
  dict_get (dict_set d k v) k' =
  if decide (k = k') then Some v else dict_get d k'.
Proof.
  induction d as [|[k0 v0] d IH]; simpl.
  - destruct (decide (k = k')); reflexivity.
  - destruct (decide (k0 = k)) as [->|Hne]; simpl.
    + destruct (decide (k = k')); reflexivity.
    + destruct (decide (k0 = k')) as [->|Hne'].
      * destruct (decide (k = k')); [congruence|reflexivity].
      * exact IH.
Qed.

Lemma split_dot_nonempty s : split_dot s <> [].
Proof.
  destruct s as [|c t]; simpl; [discriminate|].
  destruct (c =? DOT)%N; [discriminate|].
  destruct (split_dot t); discriminate.
Qed.

Lemma spec_lookup_null_prefix v before after :
  spec_lookup v before = Some VNone ->
  get_nested_loop v (before ++ after) = VNone.
Proof.
  revert v. induction before as [|part before IH]; intros v H.
  - simpl in H. injection H as ->. destruct after; reflexivity.
  - simpl in *. destruct v; try discriminate.
    unfold value_get. destruct (dict_get d part) as [v'|]; [|discriminate].
    specialize (IH _ H). destruct v'; try exact IH. reflexivity.
Qed.

(** C10.  A token stays verbatim also when the value stored at its full
    path is null, or when a value met on the way down is null: the lookup
    answers [None] and the token text is returned, never the text "None".
    Storing null under a fresh key therefore changes no output: a verbatim
    token does not tell a missing key from a null one. *)
Theorem null_token_left_verbatim :
  (forall variables inner before after,
      token_path inner = before ++ after ->
      spec_lookup (VDict variables) before = Some VNone ->
      _get_nested_value variables (strip inner) = VNone
      /\ replace_var variables (token_text inner) inner = token_text inner)
  /\ (forall variables text before inner after,
        tokens text = before ++ Tok inner :: after ->
        _get_nested_value variables (strip inner) = VNone ->
        resolve_variables variables text =
          flat_map (render variables) before ++ token_text inner
            ++ flat_map (render variables) after)
  /\ (forall variables k text,
        dict_get variables k = None ->
        resolve_variables (dict_set variables k VNone) text
        = resolve_variables variables text).
Proof.
  split; [|split].
  - intros variables inner before after Hp Hnull.
    assert (Hn : _get_nested_value variables (strip inner) = VNone).
    { unfold _get_nested_value. unfold token_path in Hp. rewrite Hp.
      now apply spec_lookup_null_prefix. }
    split; [exact Hn|]. unfold replace_var. now rewrite Hn.
  - intros variables text before inner after Ht Hn.
    now apply resolve_token_verbatim.
  - intros variables k text Hk.
    rewrite !resolve_render. apply flat_map_ext_in.
    intros [c|inner] _; [reflexivity|].
    rewrite <- !replace_var_render. unfold replace_var, _get_nested_value.
    pose proof (split_dot_nonempty (strip inner)) as Hne0.
    destruct (split_dot (strip inner)) as [|part parts]; [congruence|].
    simpl. unfold value_get. rewrite dict_get_set.
    destruct (decide (k = part)) as [->|Hne]; [|reflexivity].
    now rewrite Hk.
Qed.

(** ** Cycle detection *)

Lemma dict_get_In {V} (d : dict V) k v : dict_get d k = Some v -> In (k, v) d.
Proof.
  induction d as [|[k' v'] d IH]; simpl; [discriminate|].
  destruct (decide (k' = k)) as [->|Hne].
  - intros [= ->]. now left.
  - intros H. right. now apply IH.
Qed.

Lemma dict_get_key {V} (d : dict V) k v : dict_get d k = Some v -> In k (dict_keys d).
Proof.
  intros H. apply dict_get_In in H. unfold dict_keys.
  change k with (fst (k, v)). now apply in_map.
Qed.

Lemma size_difference_insert_lt (U V : gset pystr) x :
  x ∈ U -> x ∉ V -> size (U ∖ ({[x]} ∪ V)) < size (U ∖ V).
Proof. intros HU HV. apply subset_size. set_solver. Qed.

Lemma size_list_to_set_le (l : list pystr) :
  size (list_to_set (C:=gset pystr) l) <= length l.
Proof.
  unfold size, set_size. simpl.
  apply submseteq_length, NoDup_submseteq; [apply NoDup_elements|].
  intros x Hx. apply elem_of_elements in Hx. set_solver.
Qed.

Section DfsCorrect.
Variable graph : graph_t.

Local Abbreviation U := (dfs_universe graph).
Local Abbreviation E := (graph_edge graph).

Lemma successor_in_nodes u v : E u v -> v ∈ U /\ u ∈ U.
Proof.
  unfold graph_edge, successors, dfs_universe, graph_nodes. intros H.
  destruct (dict_get graph u) as [l|] eqn:Hg; [|destruct H].
  split; apply elem_of_list_to_set, list_elem_of_In, in_or_app.
  - right. apply in_concat. exists l. split; [|exact H].
    apply dict_get_In in Hg. change l with (snd (u, l)). now apply in_map.
  - left. eapply dict_get_key; eauto.
Qed.

Lemma closed_reach (st : dfs_state) x y :
  (forall b s, b ∈ fst st ∖ snd st -> E b s -> s ∈ fst st ∖ snd st) ->
  rtc E x y -> x ∈ fst st ∖ snd st -> y ∈ fst st ∖ snd st.
Proof. intros Hc Hr. induction Hr; eauto. Qed.

Lemma dfs_each_ok budget visit node V R neighbors st :
  visit_ok graph budget visit ->
  node ∉ V -> R ⊆ V -> node ∈ U ->
  (forall r, r ∈ R -> rtc E r node) ->
  size (U ∖ ({[node]} ∪ V)) < budget ->
  (forall n, In n neighbors -> E node n) ->
  (forall n, E node n -> In n neighbors \/ n ∈ fst st ∖ snd st) ->
  {[node]} ∪ V ⊆ fst st -> fst st ⊆ U -> snd st = {[node]} ∪ R -> dfs_good graph st ->
  exists b st', dfs_each visit node neighbors st = Some (b, st') /\
    (b = true -> cyclic E) /\
    (b = false ->
       V ⊆ fst st' /\ node ∈ fst st' /\ fst st' ⊆ U /\ snd st' = R /\ dfs_good graph st').
Proof.
  intros Hvisit HnV HRV HnU Hstack Hsize.
  revert st. induction neighbors as [|n rest IH];
    intros st Hedge Hdone HV0 HVU HR Hgood.
  - simpl. exists false, (fst st, snd st ∖ {[node]}).
    split; [reflexivity|]. split; [discriminate|]. intros _.
    destruct Hgood as (Hsub & Hclosed & Hacyc).
    assert (Hblack : forall n, E node n -> n ∈ fst st ∖ snd st).
    { intros n Hn. destruct (Hdone n Hn) as [[]|H]; exact H. }
    assert (HnR : node ∉ R) by set_solver.
    simpl. repeat split.
    + set_solver.
    + set_solver.
    + exact HVU.
    + rewrite HR. set_solver.
    + simpl. set_solver.
    + simpl. intros b s Hb Hbs.
      destruct (decide (b = node)) as [->|Hne].
      * specialize (Hblack _ Hbs). set_solver.
      * assert (b ∈ fst st ∖ snd st) by set_solver.
        specialize (Hclosed _ _ H Hbs). set_solver.
    + simpl. intros b Hb Hcyc.
      destruct (decide (b = node)) as [->|Hne].
      * assert (Hin : node ∈ fst st ∖ snd st).
        { inversion Hcyc as [x y Hxy|x y z Hxy Hyz]; subst.
          - apply Hblack. exact Hxy.
          - apply (closed_reach st y node Hclosed); [now apply tc_rtc|].
            now apply Hblack. }
        set_solver.
      * apply (Hacyc b); [set_solver|exact Hcyc].
  - simpl. destruct (decide (n ∉ fst st)) as [Hnew|Hseen].
    + assert (HEn : E node n) by (apply Hedge; now left).
      destruct (Hvisit n st) as (b & st' & Hres & Htrue & Hfalse).
      * now apply successor_in_nodes in HEn.
      * exact Hnew.
      * exact HVU.
      * exact Hgood.
      * intros r Hr. rewrite HR in Hr.
        apply elem_of_union in Hr as [Hr|Hr].
        -- apply elem_of_singleton in Hr as ->. now apply rtc_once.
        -- eapply rtc_r; [now apply Hstack|exact HEn].
      * eapply Nat.le_lt_trans; [|exact Hsize].
        apply subseteq_size. set_solver.
      * rewrite Hres. destruct b.
        -- exists true, st'. split; [reflexivity|]. split; [exact Htrue|discriminate].
        -- destruct (Hfalse eq_refl) as (Hmono & Hn' & HU' & HR' & Hgood').
           apply IH.
           ++ intros m Hm. apply Hedge. now right.
           ++ intros m Hm. destruct (Hdone m Hm) as [[->|Hin]|Hin].
              ** right. destruct Hgood as (Hsub & _). rewrite HR'. set_solver.
              ** now left.
              ** right. rewrite HR'. set_solver.
           ++ set_solver.
           ++ exact HU'.
           ++ now rewrite HR'.
           ++ exact Hgood'.
    + assert (HEn : E node n) by (apply Hedge; now left).
      destruct (decide (n ∈ snd st)) as [Hstk|Hnstk].
      * exists true, st. split; [reflexivity|]. split; [|discriminate].
        intros _. exists n. rewrite HR in Hstk.
        apply elem_of_union in Hstk as [Hr|Hr].
        -- apply elem_of_singleton in Hr as ->. now apply tc_once.
        -- eapply tc_rtc_l; [now apply Hstack|now apply tc_once].
      * apply IH.
        -- intros m Hm. apply Hedge. now right.
        -- intros m Hm. destruct (Hdone m Hm) as [[->|Hin]|Hin].
           ++ right. apply dec_stable in Hseen. set_solver.
           ++ now left.
           ++ now right.
        -- exact HV0.
        -- exact HVU.
        -- exact HR.
        -- exact Hgood.
Qed.

Lemma dfs_ok budget : visit_ok graph budget (dfs budget graph).
Proof.
  induction budget as [|budget IH]; intros node st HnU HnV HVU Hgood Hstack Hsize.
  - lia.
  - destruct st as [V R]. simpl in *.
    destruct Hgood as (Hsub & Hclosed & Hacyc). simpl in *.
    assert (HnR : node ∉ R) by set_solver.
    assert (Hlt : size (U ∖ ({[node]} ∪ V)) < size (U ∖ V)).
    { now apply size_difference_insert_lt. }
    assert (Hgood0 : dfs_good graph ({[node]} ∪ V, {[node]} ∪ R)).
    { repeat split; simpl.
      - set_solver.
      - intros b s Hb Hbs.
        assert (Hb' : b ∈ V ∖ R) by set_solver.
        specialize (Hclosed _ _ Hb' Hbs). set_solver.
      - intros b Hb. apply Hacyc. set_solver. }
    assert (Hsz : size (U ∖ ({[node]} ∪ V)) < budget) by lia.
    pose proof (dfs_each_ok budget (dfs budget graph) node V R
                  (successors graph node) ({[node]} ∪ V, {[node]} ∪ R)
                  IH HnV Hsub HnU Hstack Hsz
                  (fun n H => H) (fun n H => or_introl H)
                  (reflexivity _) ltac:(simpl; set_solver) eq_refl Hgood0)
      as (b & st' & Hres & Htrue & Hfalse).
    exists b, st'. split; [exact Hres|]. split; [exact Htrue|].
    intros Hb. destruct (Hfalse Hb) as (H1 & H2 & H3 & H4 & H5).
    repeat split; auto; apply H5.
Qed.

Lemma dfs_roots_ok roots st :
  (forall k, In k roots -> k ∈ U) ->
  fst st ⊆ U -> snd st = ∅ -> dfs_good graph st ->
  exists b, dfs_roots (has_cycle_fuel graph) graph roots st = Some b /\
    (b = true -> cyclic E) /\
    (b = false -> forall k, In k roots \/ k ∈ fst st -> ~ tc E k k).
Proof.
  revert st. induction roots as [|k roots IH]; intros st Hroots HVU HR Hgood.
  - cbn [dfs_roots]. exists false. split; [reflexivity|]. split; [discriminate|].
    intros _ k [[]|Hk]. destruct Hgood as (_ & _ & Hacyc).
    apply Hacyc. rewrite HR. set_solver.
  - cbn [dfs_roots]. destruct (decide (k ∉ fst st)) as [Hnew|Hseen].
    + destruct (dfs_ok (has_cycle_fuel graph) k st) as (b & st' & Hres & Htrue & Hfalse).
      * apply Hroots. now left.
      * exact Hnew.
      * exact HVU.
      * exact Hgood.
      * intros r Hr. rewrite HR in Hr. set_solver.
      * unfold has_cycle_fuel.
        eapply Nat.le_lt_trans; [apply subseteq_size with (Y := U); set_solver|].
        unfold dfs_universe. pose proof (size_list_to_set_le (graph_nodes graph)). lia.
      * rewrite Hres. destruct b.
        -- exists true. split; [reflexivity|]. split; [exact Htrue|discriminate].
        -- destruct (Hfalse eq_refl) as (Hmono & Hk & HU' & HR' & Hgood').
           destruct (IH st') as (b & Hb & Hbt & Hbf).
           ++ intros m Hm. apply Hroots. now right.
           ++ exact HU'.
           ++ now rewrite HR'.
           ++ exact Hgood'.
           ++ exists b. split; [exact Hb|]. split; [exact Hbt|].
              intros Hbfalse m [[->|Hm]|Hm]; apply (Hbf Hbfalse); auto.
    + destruct (IH st) as (b & Hb & Hbt & Hbf); auto.
      * intros m Hm. apply Hroots. now right.
      * exists b. split; [exact Hb|]. split; [exact Hbt|].
        intros Hbfalse m [[->|Hm]|Hm]; apply (Hbf Hbfalse); auto.
        right. now apply dec_stable in Hseen.
Qed.

Lemma has_cycle_run_total : exists b, has_cycle_run graph = Some b.
Proof.
  destruct (dfs_roots_ok (dict_keys graph) (∅, ∅)) as (b & Hb & _).
  - intros k Hk. unfold dfs_universe, graph_nodes.
    apply elem_of_list_to_set, list_elem_of_In, in_or_app. now left.
  - simpl. set_solver.
  - reflexivity.
  - repeat split; simpl; set_solver.
  - exists b. exact Hb.
Qed.

Lemma has_cycle_correct : _has_cycle graph = true <-> cyclic E.
Proof.
  destruct (dfs_roots_ok (dict_keys graph) (∅, ∅)) as (b & Hb & Htrue & Hfalse).
  - intros k Hk. unfold dfs_universe, graph_nodes.
    apply elem_of_list_to_set, list_elem_of_In, in_or_app. now left.
  - simpl. set_solver.
  - reflexivity.
  - repeat split; simpl; set_solver.
  - unfold _has_cycle, has_cycle_run. rewrite Hb. destruct b.
    + split; auto.
    + split; [discriminate|]. intros [x Hx]. exfalso.
      apply (Hfalse eq_refl x); [|exact Hx]. left.
      assert (exists y, E x y) as [y Hy].
      { inversion Hx; subst; eauto. }
      unfold graph_edge, successors in Hy.
      destruct (dict_get graph x) eqn:Hg; [|destruct Hy].
      eapply dict_get_key; eauto.
Qed.

End DfsCorrect.

(** ** Building the execution graph *)

Lemma dict_get_None_keys {V} (d : dict V) k :
  dict_get d k = None <-> ~ In k (dict_keys d).
Proof.
  induction d as [|[k' v'] d IH]; simpl; [tauto|].
  destruct (decide (k' = k)) as [->|Hne].
  - split; [discriminate|]. intros H. exfalso. apply H. now left.
  - rewrite IH. tauto.
Qed.

Lemma dict_get_Some_keys {V} (d : dict V) k :
  In k (dict_keys d) -> exists v, dict_get d k = Some v.
Proof.
  intros H. destruct (dict_get d k) as [v|] eqn:E; [eauto|].
  now apply dict_get_None_keys in E.
Qed.

Lemma dict_keys_set {V} (d : dict V) k v :
  dict_keys (dict_set d k v) =
  if dict_mem d k then dict_keys d else dict_keys d ++ [k].
Proof.
  unfold dict_mem. induction d as [|[k' v'] d IH]; simpl; [reflexivity|].
  destruct (decide (k' = k)) as [->|Hne]; simpl; [reflexivity|].
  rewrite IH. destruct (dict_get d k); reflexivity.
Qed.

Lemma dict_keys_set_in {V} (d : dict V) k v x :
  In x (dict_keys (dict_set d k v)) <-> In x (dict_keys d) \/ x = k.
Proof.
  rewrite dict_keys_set. unfold dict_mem.
  destruct (dict_get d k) as [w|] eqn:E.
  - split; [tauto|]. intros [H| ->]; [exact H|].
    eapply dict_get_key; eauto.
  - rewrite in_app_iff. simpl. intuition.
Qed.

Lemma dict_keys_set_nodup {V} (d : dict V) k v :
  List.NoDup (dict_keys d) -> List.NoDup (dict_keys (dict_set d k v)).
Proof.
  intros H. rewrite dict_keys_set. unfold dict_mem.
  destruct (dict_get d k) eqn:E; [exact H|].
  apply dict_get_None_keys in E.
  apply List.NoDup_app; [exact H| |].
  - constructor; [intros []|constructor].
  - intros x Hx [<-|[]]. now apply E.
Qed.

Lemma successors_set (g : graph_t) k l u :
  successors (dict_set g k l) u = if decide (k = u) then l else successors g u.
Proof. unfold successors. rewrite dict_get_set. now destruct (decide (k = u)). Qed.

Lemma add_nodes_spec nodes (g : graph_t) :
  List.NoDup (dict_keys g) -> (forall u, successors g u = []) ->
  let g' := fold_left add_node nodes g in
  List.NoDup (dict_keys g') /\ (forall u, successors g' u = [])
  /\ (forall k, In k (dict_keys g') <-> In k (dict_keys g) \/ In k (List.map fn_id nodes)).
Proof.
  revert g. induction nodes as [|n nodes IH]; intros g Hnd Hemp; simpl.
  - repeat split; auto. intros [H|[]]; exact H.
  - assert (Hnd' : List.NoDup (dict_keys (add_node g n))).
    { unfold add_node. destruct (dict_mem g (fn_id n)); [exact Hnd|].
      now apply dict_keys_set_nodup. }
    assert (Hemp' : forall u, successors (add_node g n) u = []).
    { intros u. unfold add_node. destruct (dict_mem g (fn_id n)); [apply Hemp|].
      rewrite successors_set. destruct (decide (fn_id n = u)); [reflexivity|apply Hemp]. }
    destruct (IH _ Hnd' Hemp') as (H1 & H2 & H3).
    split; [exact H1|]. split; [exact H2|].
    intros k. rewrite H3. unfold add_node, dict_mem.
    destruct (dict_get g (fn_id n)) eqn:E.
    + apply dict_get_key in E. intuition. subst. now left.
    + rewrite dict_keys_set_in. intuition.
Qed.

Lemma add_edges_spec edges (g : graph_t) :
  List.NoDup (dict_keys g) ->
  let g' := fold_left add_edge edges g in
  List.NoDup (dict_keys g')
  /\ (forall u, successors g' u = successors g u ++ targets_from u edges)
  /\ (forall k, In k (dict_keys g') <-> In k (dict_keys g) \/ In k (List.map edge_source edges)).
Proof.
  revert g. induction edges as [|e edges IH]; intros g Hnd; simpl.
  - repeat split; auto.
    + intros u. unfold targets_from. simpl. now rewrite app_nil_r.
    + intros [H|[]]; exact H.
  - assert (Hnd' : List.NoDup (dict_keys (add_edge g e))) by now apply dict_keys_set_nodup.
    destruct (IH _ Hnd') as (H1 & H2 & H3).
    split; [exact H1|]. split.
    + intros u. rewrite H2. unfold add_edge. rewrite successors_set.
      unfold targets_from. simpl.
      destruct (decide (edge_source e = u)) as [->|Hne].
      * rewrite bool_decide_eq_true_2 by reflexivity. simpl.
        now rewrite <- app_assoc.
      * rewrite bool_decide_eq_false_2 by exact Hne. reflexivity.
    + intros k. rewrite H3. unfold add_edge. rewrite dict_keys_set_in. intuition.
Qed.

Lemma build_spec definition :
  let g := _build_execution_graph definition in
  List.NoDup (dict_keys g)
  /\ (forall u, successors g u = targets_from u (def_edges definition))
  /\ (forall k, In k (dict_keys g) <->
        In k (node_ids definition) \/ In k (List.map edge_source (def_edges definition))).
Proof.
  unfold _build_execution_graph.
  destruct (add_nodes_spec (def_nodes definition) []) as (N1 & N2 & N3).
  { constructor. } { reflexivity. }
  destruct (add_edges_spec (def_edges definition) _ N1) as (E1 & E2 & E3).
  split; [exact E1|]. split.
  - intros u. rewrite E2, N2. reflexivity.
  - intros k. rewrite E3, N3. simpl. unfold node_ids. tauto.
Qed.

Lemma build_edge definition u v :
  graph_edge (_build_execution_graph definition) u v <-> edge_of definition u v.
Proof.
  unfold graph_edge, edge_of.
  destruct (build_spec definition) as (_ & Hs & _). rewrite Hs.
  unfold targets_from. rewrite in_map_iff. split.
  - intros ([s t] & <- & Hin). apply filter_In in Hin as [Hin Hs'].
    apply bool_decide_eq_true in Hs'. simpl in *. now subst.
  - intros Hin. exists (MkEdge u v). split; [reflexivity|].
    apply filter_In. split; [exact Hin|]. now apply bool_decide_eq_true.
Qed.

Lemma tc_iff {A} (R S : relation A) :
  (forall x y, R x y <-> S x y) -> forall x y, tc R x y <-> tc S x y.
Proof.
  intros H x y. split; induction 1.
  - apply tc_once. now apply H.
  - eapply tc_l; [apply H|]; eauto.
  - apply tc_once. now apply H.
  - eapply tc_l; [apply H|]; eauto.
Qed.

Lemma has_cycle_definition definition :
  _has_cycle (_build_execution_graph definition) = true <-> cyclic (edge_of definition).
Proof.
  rewrite has_cycle_correct. unfold cyclic.
  split; intros [x Hx]; exists x;
    eapply (tc_iff _ _ (build_edge definition)); exact Hx.
Qed.

(** ** The monad *)

Lemma bind_ok {A B} (m : M A) (f : A -> M B) c a c' :
  m c = (Ok a, c') -> bind m f c = f a c'.
Proof. intros H. unfold bind. now rewrite H. Qed.

Lemma bind_raised {A B} (m : M A) (f : A -> M B) c e c' :
  m c = (Raised e, c') -> bind m f c = (Raised e, c').
Proof. intros H. unfold bind. now rewrite H. Qed.


Lemma try_except_ok {A} (m : M A) h c a c' :
  m c = (Ok a, c') -> try_except m h c = (Ok a, c').
Proof. intros H. unfold try_except. now rewrite H. Qed.

(** ** The context under an observer that does not raise *)

Lemma deliver_fields ev c :
  callback (deliver ev c) = callback c /\ status (deliver ev c) = status c
  /\ error (deliver ev c) = error c /\ trace (deliver ev c) = trace c
  /\ logs (deliver ev c) = logs c /\ node_statuses (deliver ev c) = node_statuses c
  /\ node_outputs (deliver ev c) = node_outputs c
  /\ variables (deliver ev c) = variables c
  /\ execution_id (deliver ev c) = execution_id c.
Proof.
  unfold deliver. destruct (callback c) eqn:E; simpl; rewrite ?E; repeat split.
Qed.

Lemma call_callback_quiet ev c :
  quiet_callback (callback c) -> call_callback ev c = (Ok tt, deliver ev c).
Proof.
  unfold call_callback, deliver, quiet_callback.
  destruct (callback c) as [f|]; [|reflexivity]. intros H. now rewrite H.
Qed.

Lemma add_log_quiet level message node_id metadata c :
  quiet_callback (callback c) ->
  exists c', add_log level message node_id metadata c = (Ok tt, c')
    /\ callback c' = callback c /\ status c' = status c /\ error c' = error c
    /\ trace c' = trace c ++ [TLog (LogEntry (execution_id c) level message node_id metadata)].
Proof.
  intros H. unfold add_log. rewrite call_callback_quiet by exact H.
  eexists. split; [reflexivity|].
  match goal with |- context [deliver ?e ?x] =>
    destruct (deliver_fields e x) as (-> & -> & -> & -> & _) end.
  repeat split.
Qed.


Lemma fail_quiet message c :
  quiet_callback (callback c) ->
  exists c', fail message c = (Ok tt, c')
    /\ callback c' = callback c
    /\ status c' = s2p "failed" /\ error c' = Some message
    /\ trace c' = trace c ++ [TLog (LogEntry (execution_id c) (s2p "error")
                                      (s2p "Workflow execution failed: " ++ message) None [])].
Proof.
  intros H. unfold fail.
  erewrite bind_ok by reflexivity.
  destruct (add_log_quiet (s2p "error") (s2p "Workflow execution failed: " ++ message)
              None [] (set_error (set_status c (s2p "failed")) (Some message)) H)
    as (c1 & E1 & Hcb & Hst & Her & Htr).
  erewrite bind_ok by exact E1.
  rewrite call_callback_quiet by (rewrite Hcb; exact H).
  eexists. split; [reflexivity|].
  match goal with |- context [deliver ?e ?x] =>
    destruct (deliver_fields e x) as (-> & -> & -> & -> & _) end.
  repeat split; assumption.
Qed.

(** ** Rejection of cycles *)


(** ** Duplicate edges and self-loops *)

Lemma bool_eq_iff (a b : bool) : (a = true <-> b = true) -> a = b.
Proof. destruct a, b; intuition congruence. Qed.

(** C8 (amended).  Graph validation rejects exactly the definitions whose
    edges contain a cycle.  Listing an edge more than once changes nothing:
    the verdict is that of the definition without the repetitions, so an
    acyclic definition with duplicate edges is accepted.  A self-loop is a
    cycle of length one and is rejected like every other cycle. *)
Theorem duplicate_edges_tolerated_cycles_rejected :
  (forall definition,
      _has_cycle (_build_execution_graph definition) = true
      <-> cyclic (edge_of definition))
  /\ (forall definition extra,
        (forall e, In e extra -> In e (def_edges definition)) ->
        _has_cycle (_build_execution_graph
                      (MkDefinition (def_nodes definition) (def_edges definition ++ extra)))
        = _has_cycle (_build_execution_graph definition))
  /\ (forall definition c,
        ~ cyclic (edge_of definition) ->
        _validate_graph (_build_execution_graph definition) c = (Ok tt, c))
  /\ (forall definition u c,
        edge_of definition u u ->
        _validate_graph (_build_execution_graph definition) c
        = (Raised (Exn WorkflowEngineError (s2p "Workflow contains circular dependencies")), c)).
Proof.
  split; [exact has_cycle_definition|]. split; [|split].
  - intros definition extra Hextra. apply bool_eq_iff.
    rewrite !has_cycle_definition. unfold cyclic.
    assert (Hsame : forall x y,
               edge_of (MkDefinition (def_nodes definition) (def_edges definition ++ extra)) x y
               <-> edge_of definition x y).
    { intros x y. unfold edge_of. simpl. rewrite in_app_iff.
      split; [intros [H|H]; auto|auto]. }
    split; intros [x Hx]; exists x; eapply (tc_iff _ _ Hsame); exact Hx.
  - intros definition c Hacyclic. unfold _validate_graph.
    destruct (_has_cycle (_build_execution_graph definition)) eqn:E; [|reflexivity].
    apply has_cycle_definition in E. contradiction.
  - intros definition u c Hloop. unfold _validate_graph.
    assert (E : _has_cycle (_build_execution_graph definition) = true).
    { apply has_cycle_definition. exists u. now apply tc_once. }
    rewrite E. reflexivity.
Qed.

(** * Scheduling *)

(** ** Counting edges *)

Lemma occurrences_nonneg x l : (0 <= occurrences x l)%Z.
Proof. induction l as [|y l IH]; simpl; [lia|]. destruct (decide (y = x)); lia. Qed.

Lemma occurrences_app x l1 l2 :
  occurrences x (l1 ++ l2) = (occurrences x l1 + occurrences x l2)%Z.
Proof. induction l1 as [|y l1 IH]; simpl; [reflexivity|]. rewrite IH. lia. Qed.

Lemma occurrences_pos x l : In x l <-> (0 < occurrences x l)%Z.
Proof.
  induction l as [|y l IH]; simpl; [split; [intros []|lia]|].
  pose proof (occurrences_nonneg x l).
  destruct (decide (y = x)) as [->|Hne].
  - split; [lia|auto].
  - rewrite <- IH. split; [intros [H'|H']; [congruence|exact H']|auto].
Qed.

Lemma occurrences_zero x l : ~ In x l <-> occurrences x l = 0%Z.
Proof. rewrite occurrences_pos. pose proof (occurrences_nonneg x l). lia. Qed.

Lemma successors_in_graph graph u v :
  In v (successors graph u) -> In v (graph_nodes graph) /\ In u (dict_keys graph).
Proof.
  unfold successors, graph_nodes. intros H.
  destruct (dict_get graph u) as [l|] eqn:Hg; [|destruct H].
  split.
  - apply in_or_app. right. apply in_concat. exists l. split; [|exact H].
    apply dict_get_In in Hg. change l with (snd (u, l)). now apply in_map.
  - eapply dict_get_key; eauto.
Qed.

Lemma remaining_cons k adj (graph : graph_t) done :
  remaining ((k, adj) :: graph) done =
  (if decide (k ∈ done) then [] else adj) ++ remaining graph done.
Proof. reflexivity. Qed.

Lemma remaining_fresh_key (graph : graph_t) done u :
  ~ In u (dict_keys graph) ->
  remaining graph ({[u]} ∪ done) = remaining graph done.
Proof.
  induction graph as [|[k adj] g IH]; intros Hu; [reflexivity|].
  rewrite !remaining_cons. simpl in Hu.
  rewrite IH by tauto.
  destruct (decide (k ∈ done)) as [Hk|Hk].
  - rewrite decide_True by set_solver. reflexivity.
  - rewrite decide_False; [reflexivity|].
    intros [Hin|Hin]%elem_of_union; [|contradiction].
    apply elem_of_singleton in Hin. subst. tauto.
Qed.

Lemma remaining_split (graph : graph_t) done u t :
  List.NoDup (dict_keys graph) -> u ∉ done ->
  occurrences t (remaining graph done) =
  (occurrences t (successors graph u)
   + occurrences t (remaining graph ({[u]} ∪ done)))%Z.
Proof.
  intros Hnd Hu. induction graph as [|[k adj] g IH]; [reflexivity|].
  simpl in Hnd. apply NoDup_cons_iff in Hnd as [Hk Hnd].
  rewrite !remaining_cons, !occurrences_app.
  unfold successors. simpl.
  destruct (decide (k = u)) as [->|Hne].
  - rewrite (remaining_fresh_key g done u Hk).
    rewrite decide_False by exact Hu.
    rewrite decide_True by set_solver. simpl. lia.
  - change (match dict_get g u with Some l => l | None => [] end)
      with (successors g u).
    rewrite (IH Hnd).
    destruct (decide (k ∈ done)) as [Hkd|Hkd].
    + rewrite decide_True by set_solver. lia.
    + rewrite decide_False; [lia|].
      intros [Hin|Hin]%elem_of_union; [|contradiction].
      apply elem_of_singleton in Hin. congruence.
Qed.

Lemma remaining_shrinks (graph : graph_t) done u t :
  List.NoDup (dict_keys graph) -> u ∉ done ->
  (occurrences t (remaining graph ({[u]} ∪ done))
   <= occurrences t (remaining graph done))%Z.
Proof.
  intros Hnd Hu. rewrite (remaining_split graph done u t Hnd Hu).
  pose proof (occurrences_nonneg t (successors graph u)). lia.
Qed.

Lemma remaining_empty (graph : graph_t) :
  remaining graph ∅ = concat (List.map snd graph).
Proof.
  induction graph as [|[k adj] g IH]; [reflexivity|].
  rewrite remaining_cons, IH. rewrite decide_False by set_solver. reflexivity.
Qed.

Lemma remaining_all_done (graph : graph_t) done t :
  (forall k, In k (dict_keys graph) -> k ∈ done) ->
  occurrences t (remaining graph done) = 0%Z.
Proof.
  induction graph as [|[k adj] g IH]; intros H; [reflexivity|].
  rewrite remaining_cons, occurrences_app.
  rewrite decide_True by (apply H; now left). simpl.
  apply IH. intros k' Hk'. apply H. now right.
Qed.

(** ** Lowering in-degrees *)

Lemma release_spec targets : forall in_deg ready,
  (forall t, In t targets ->
     exists n, dict_get in_deg t = Some n /\ (occurrences t targets <= n)%Z) ->
  exists in_deg' fresh,
    release targets in_deg ready = inr (in_deg', ready ++ fresh)
    /\ (forall t, dict_get in_deg' t =
                  option_map (fun n => (n - occurrences t targets)%Z) (dict_get in_deg t))
    /\ List.NoDup fresh
    /\ (forall x, In x fresh <-> In x targets /\ dict_get in_deg' x = Some 0%Z).
Proof.
  induction targets as [|t rest IH]; intros in_deg ready Hpre.
  - exists in_deg, []. simpl. rewrite app_nil_r. split; [reflexivity|].
    split; [|split; [constructor|intros x; tauto]].
    intros t. destruct (dict_get in_deg t); simpl; [f_equal; lia|reflexivity].
  - destruct (Hpre t (or_introl eq_refl)) as (n & Hn & Hle).
    simpl in Hle. rewrite decide_True in Hle by reflexivity.
    simpl. rewrite Hn.
    set (in_deg1 := dict_set in_deg t (n - 1)%Z).
    set (ready1 := if (n - 1 =? 0)%Z then ready ++ [t] else ready).
    destruct (IH in_deg1 ready1) as (in_deg' & fresh & Hrel & Hget & Hnd & Hfresh).
    { intros x Hx. unfold in_deg1. rewrite dict_get_set.
      destruct (decide (t = x)) as [->|Hne].
      - exists (n - 1)%Z. split; [reflexivity|lia].
      - destruct (Hpre x (or_intror Hx)) as (m & Hm & Hmle).
        exists m. split; [exact Hm|]. simpl in Hmle.
        rewrite decide_False in Hmle by exact Hne. lia. }
    assert (Hget' : forall x, dict_get in_deg' x =
               option_map (fun m => (m - occurrences x (t :: rest))%Z) (dict_get in_deg x)).
    { intros x. rewrite Hget. unfold in_deg1. rewrite dict_get_set. simpl.
      destruct (decide (t = x)) as [->|Hne].
      - rewrite Hn. simpl. f_equal. lia.
      - destruct (dict_get in_deg x); simpl; [f_equal; lia|reflexivity]. }
    exists in_deg'. unfold ready1 in *. clear ready1.
    destruct (Z.eqb_spec (n - 1) 0) as [Hz|Hz].
    + exists (t :: fresh).
      rewrite Hrel, <- app_assoc. split; [reflexivity|]. split; [exact Hget'|].
      assert (Hnot : ~ In t rest).
      { apply occurrences_zero. pose proof (occurrences_nonneg t rest). lia. }
      split.
      * constructor; [|exact Hnd]. intros Hin. apply Hfresh in Hin. tauto.
      * intros x. simpl. rewrite Hfresh. split.
        -- intros [<-|[Hx Hx0]]; [|tauto]. split; [now left|].
           rewrite Hget', Hn. simpl. rewrite decide_True by reflexivity.
           f_equal. apply occurrences_zero in Hnot. lia.
        -- intros [[<-|Hx] Hx0]; [now left|]. right. tauto.
    + exists fresh. rewrite Hrel.
      split; [reflexivity|]. split; [exact Hget'|]. split; [exact Hnd|].
      intros x. rewrite Hfresh. split; [intros [Hx Hx0]; split; [now right|exact Hx0]|].
      intros [[<-|Hx] Hx0]; [|tauto]. split; [|exact Hx0].
      rewrite Hget', Hn in Hx0. simpl in Hx0. rewrite decide_True in Hx0 by reflexivity.
      apply occurrences_pos. injection Hx0 as Hx0.
      pose proof (occurrences_nonneg t rest). lia.
Qed.

Lemma set_add_in l x y : In y (set_add l x) <-> In y l \/ y = x.
Proof.
  unfold set_add. destruct (bool_decide (x ∈ l)) eqn:E.
  - apply bool_decide_eq_true in E. apply list_elem_of_In in E.
    split; [auto|]. intros [H| ->]; assumption.
  - rewrite in_app_iff. simpl. intuition.
Qed.

Lemma set_add_nodup l x : List.NoDup l -> List.NoDup (set_add l x).
Proof.
  intros H. unfold set_add. destruct (bool_decide (x ∈ l)) eqn:E; [exact H|].
  apply bool_decide_eq_false in E.
  apply List.NoDup_app; [exact H|constructor; [intros []|constructor]|].
  intros a Ha [<-|[]]. apply E. now apply list_elem_of_In.
Qed.

(** ** One processed result keeps the invariant *)

Lemma sched_inv_step graph nodes done u pending s :
  List.NoDup (dict_keys graph) ->
  In u (List.map fn_id nodes) ->
  sched_inv graph nodes done (u :: pending) s ->
  exists in_deg' ready',
    release (successors graph u) (in_degree s) (ready_nodes s) = inr (in_deg', ready')
    /\ sched_inv graph nodes ({[u]} ∪ done) pending
         (MkSchedule in_deg' ready' (set_add (executed_nodes s) u) (output_node_id s)).
Proof.
  intros Hkeys Hknown [Hdeg Hnd Hready Hdone Hcomplete Hexec Hexecnd].
  destruct (Hready u (or_introl eq_refl)) as (Hu & HuG & Hu0).
  assert (Hsucc : forall t, In t (successors graph u) ->
            (1 <= occurrences t (successors graph u)
             <= occurrences t (remaining graph done))%Z).
  { intros t Ht. apply occurrences_pos in Ht.
    rewrite (remaining_split graph done u t Hkeys Hu).
    pose proof (occurrences_nonneg t (remaining graph ({[u]} ∪ done))). lia. }
  destruct (release_spec (successors graph u) (in_degree s) (ready_nodes s))
    as (in_deg' & fresh & Hrel & Hget & Hfnd & Hfresh).
  { intros t Ht. exists (occurrences t (remaining graph done)).
    split; [apply Hdeg; now apply successors_in_graph in Ht|].
    apply Hsucc in Ht. lia. }
  exists in_deg', (ready_nodes s ++ fresh). split; [exact Hrel|].
  assert (Hdeg' : forall t, In t (graph_nodes graph) ->
            dict_get in_deg' t = Some (occurrences t (remaining graph ({[u]} ∪ done)))).
  { intros t Ht. rewrite Hget, (Hdeg t Ht). simpl. f_equal.
    rewrite (remaining_split graph done u t Hkeys Hu). lia. }
  assert (Hfresh' : forall x, In x fresh ->
            In x (graph_nodes graph) /\ (1 <= occurrences x (remaining graph done))%Z
            /\ occurrences x (remaining graph ({[u]} ∪ done)) = 0%Z).
  { intros x Hx. apply Hfresh in Hx as [Hx Hx0].
    assert (HxG : In x (graph_nodes graph)) by now apply successors_in_graph in Hx.
    split; [exact HxG|]. split; [apply Hsucc in Hx; lia|].
    rewrite (Hdeg' x HxG) in Hx0. congruence. }
  simpl in Hnd. apply NoDup_cons_iff in Hnd as [Hu_notin Hnd].
  constructor; simpl.
  - exact Hdeg'.
  - rewrite app_assoc. apply List.NoDup_app; [exact Hnd|exact Hfnd|].
    intros x Hx Hxf. apply Hfresh' in Hxf as (_ & Hpos & _).
    destruct (Hready x (or_intror Hx)) as (_ & _ & Hx0). lia.
  - intros x Hx. rewrite app_assoc in Hx. apply in_app_or in Hx as [Hx|Hx].
    + destruct (Hready x (or_intror Hx)) as (Hxd & HxG & Hx0).
      split; [|split; [exact HxG|]].
      * intros [Hin|Hin]%elem_of_union; [|contradiction].
        apply elem_of_singleton in Hin. subst. contradiction.
      * pose proof (remaining_shrinks graph done u x Hkeys Hu).
        pose proof (occurrences_nonneg x (remaining graph ({[u]} ∪ done))). lia.
    + destruct (Hfresh' x Hx) as (HxG & Hpos & Hx0).
      split; [|split; assumption].
      intros [Hin|Hin]%elem_of_union.
      * apply elem_of_singleton in Hin. subst. lia.
      * apply Hdone in Hin as [Hin _]. lia.
  - intros x [Hin|Hin]%elem_of_union.
    + apply elem_of_singleton in Hin. subst. split; [|exact Hknown].
      pose proof (remaining_shrinks graph done u u Hkeys Hu).
      pose proof (occurrences_nonneg u (remaining graph ({[u]} ∪ done))). lia.
    + destruct (Hdone x Hin) as [Hx0 Hxk]. split; [|exact Hxk].
      pose proof (remaining_shrinks graph done u x Hkeys Hu).
      pose proof (occurrences_nonneg x (remaining graph ({[u]} ∪ done))). lia.
  - intros x HxG Hx0.
    destruct (Z.eq_dec (occurrences x (remaining graph done)) 0%Z) as [Hold|Hold].
    + destruct (Hcomplete x HxG Hold) as [Hin|[<-|Hin]].
      * left. set_solver.
      * left. set_solver.
      * right. rewrite app_assoc. apply in_or_app. now left.
    + right. apply in_or_app. right. apply in_or_app. right.
      apply Hfresh. rewrite (Hdeg' x HxG), Hx0. split; [|reflexivity].
      apply occurrences_pos.
      rewrite (remaining_split graph done u x Hkeys Hu) in Hold.
      pose proof (occurrences_nonneg x (successors graph u)). lia.
  - intros x. rewrite set_add_in, Hexec. set_solver.
  - now apply set_add_nodup.
Qed.

Lemma process_results_inv graph nodes :
  List.NoDup (dict_keys graph) ->
  forall results done s,
    sched_inv graph nodes done (List.map fst results) s ->
    (forall x, In x (List.map fst results) -> In x (List.map fn_id nodes)) ->
    forall s', process_results graph results s = inr s' ->
      exists done',
        sched_inv graph nodes done' [] s'
        /\ (forall x, x ∈ done' <-> In x (List.map fst results) \/ x ∈ done)
        /\ output_node_id s' = output_node_id s
        /\ Forall (fun r => exists res, snd r = inr res
                                        /\ res_status res <> s2p "failed") results.
Proof.
  intros Hkeys. induction results as [|[u r] results IH]; intros done s Hinv Hknown s' Hrun.
  - simpl in Hrun. injection Hrun as <-. exists done.
    split; [exact Hinv|]. split; [intros x; simpl; tauto|]. split; [reflexivity|constructor].
  - simpl in Hrun. destruct r as [e|res]; [discriminate|].
    destruct (bool_decide (res_status res = s2p "failed")) eqn:Hfailed; [discriminate|].
    apply bool_decide_eq_false in Hfailed.
    destruct (sched_inv_step graph nodes done u (List.map fst results) s Hkeys)
      as (in_deg' & ready' & Hrel & Hinv').
    { apply Hknown. now left. }
    { exact Hinv. }
    rewrite Hrel in Hrun.
    destruct (IH _ _ Hinv' (fun x Hx => Hknown x (or_intror Hx)) s' Hrun)
      as (done' & Hfinal & Hdone' & Hout & Hall).
    exists done'. split; [exact Hfinal|]. split; [|split].
    + intros x. rewrite Hdone'. simpl. set_solver.
    + exact Hout.
    + constructor; [|exact Hall]. exists res. split; [reflexivity|exact Hfailed].
Qed.

(** ** The initial in-degrees *)

Lemma zero_degrees_spec keys : forall d t,
  dict_get (fold_left (fun d node_id => dict_set d node_id 0%Z) keys d) t =
  if bool_decide (t ∈ keys) then Some 0%Z else dict_get d t.
Proof.
  induction keys as [|k keys IH]; intros d t; cbn [fold_left occurrences].
  - rewrite bool_decide_eq_false_2 by set_solver. reflexivity.
  - rewrite IH, dict_get_set.
    destruct (bool_decide (t ∈ keys)) eqn:E.
    + apply bool_decide_eq_true in E.
      rewrite bool_decide_eq_true_2 by set_solver. reflexivity.
    + apply bool_decide_eq_false in E. destruct (decide (k = t)) as [->|Hne].
      * rewrite bool_decide_eq_true_2 by set_solver. reflexivity.
      * rewrite bool_decide_eq_false_2 by set_solver. reflexivity.
Qed.

Lemma count_degrees_spec targets : forall d t,
  dict_get (fold_left (fun d target =>
              dict_set d target
                ((match dict_get d target with Some n => n | None => 0 end) + 1)%Z)
              targets d) t =
  if bool_decide (t ∈ targets \/ dict_get d t <> None)
  then Some (degree_of d t + occurrences t targets)%Z else None.
Proof.
  induction targets as [|k targets IH]; intros d t; cbn [fold_left occurrences].
  - unfold degree_of. destruct (dict_get d t) eqn:E.
    + rewrite bool_decide_eq_true_2 by (right; congruence). f_equal; lia.
    + rewrite bool_decide_eq_false_2; [reflexivity|].
      intros [H|H]; [set_solver|congruence].
  - rewrite IH. unfold degree_of. rewrite !dict_get_set.
    destruct (decide (k = t)) as [->|Hne].
    + rewrite (bool_decide_eq_true_2 (t ∈ targets \/ Some _ <> None))
        by (right; congruence).
      rewrite (bool_decide_eq_true_2 (t ∈ t :: targets \/ _)) by (left; set_solver).
      f_equal; lia.
    + destruct (bool_decide (t ∈ targets \/ dict_get d t <> None)) eqn:E.
      * apply bool_decide_eq_true in E.
        rewrite bool_decide_eq_true_2 by set_solver. f_equal; lia.
      * apply bool_decide_eq_false in E.
        rewrite bool_decide_eq_false_2; [reflexivity|]. set_solver.
Qed.

Lemma fold_dict_set_nodup {A V} (f : dict V -> A -> V) (key : A -> pystr) l : forall d,
  List.NoDup (dict_keys d) ->
  List.NoDup (dict_keys (fold_left (fun d a => dict_set d (key a) (f d a)) l d)).
Proof.
  induction l as [|a l IH]; intros d H; simpl; [exact H|].
  apply IH. now apply dict_keys_set_nodup.
Qed.

Lemma initial_in_degree_spec graph t :
  dict_get (initial_in_degree graph) t =
  if bool_decide (t ∈ graph_nodes graph)
  then Some (occurrences t (remaining graph ∅)) else None.
Proof.
  unfold initial_in_degree. rewrite count_degrees_spec.
  unfold degree_of. rewrite !zero_degrees_spec. simpl.
  rewrite remaining_empty. unfold graph_nodes.
  destruct (bool_decide (t ∈ dict_keys graph)) eqn:E.
  - apply bool_decide_eq_true in E.
    rewrite !bool_decide_eq_true_2; [reflexivity| |].
    + set_solver.
    + right. discriminate.
  - apply bool_decide_eq_false in E.
    destruct (bool_decide (t ∈ concat (List.map snd graph))) eqn:E2.
    + apply bool_decide_eq_true in E2.
      rewrite !bool_decide_eq_true_2; [reflexivity| |].
      * apply elem_of_app. now right.
      * now left.
    + apply bool_decide_eq_false in E2.
      rewrite !bool_decide_eq_false_2; [reflexivity| |].
      * intros H. apply elem_of_app in H. tauto.
      * intros [H|H]; [tauto|congruence].
Qed.

Lemma initial_in_degree_nodup graph : List.NoDup (dict_keys (initial_in_degree graph)).
Proof.
  unfold initial_in_degree.
  apply (fold_dict_set_nodup
           (fun d target => ((match dict_get d target with Some n => n | None => 0 end) + 1)%Z)
           (fun x => x)).
  apply (fold_dict_set_nodup (fun _ _ => 0%Z) (fun x => x)). constructor.
Qed.

Lemma dict_In_get {V} (d : dict V) k v :
  List.NoDup (dict_keys d) -> In (k, v) d -> dict_get d k = Some v.
Proof.
  induction d as [|[k' v'] d IH]; simpl; intros Hnd Hin; [destruct Hin|].
  apply NoDup_cons_iff in Hnd as [Hk Hnd].
  destruct Hin as [[= -> ->]|Hin].
  - rewrite decide_True by reflexivity. reflexivity.
  - destruct (decide (k' = k)) as [->|Hne]; [|now apply IH].
    exfalso. apply Hk. change k with (fst (k, v)). now apply in_map.
Qed.

Lemma zero_keys_in d x :
  List.NoDup (dict_keys d) -> In x (zero_keys d) <-> dict_get d x = Some 0%Z.
Proof.
  intros Hnd. unfold zero_keys. rewrite in_map_iff. split.
  - intros ([k v] & <- & Hin). apply filter_In in Hin as [Hin Hz].
    simpl in *. apply Z.eqb_eq in Hz. subst. now apply dict_In_get.
  - intros H. exists (x, 0%Z). split; [reflexivity|].
    apply filter_In. split; [now apply dict_get_In|reflexivity].
Qed.

Lemma zero_keys_nodup d : List.NoDup (dict_keys d) -> List.NoDup (zero_keys d).
Proof.
  unfold zero_keys, dict_keys. induction d as [|[k v] d IH]; simpl; intros H; [constructor|].
  apply NoDup_cons_iff in H as [Hk H].
  destruct (v =? 0)%Z; simpl; [|now apply IH].
  constructor; [|now apply IH].
  intros Hin. apply Hk. apply in_map_iff in Hin as (kv & <- & Hin).
  apply filter_In in Hin as [Hin _]. now apply in_map.
Qed.

Lemma initial_sched_inv graph nodes :
  sched_inv graph nodes ∅ []
    (MkSchedule (initial_in_degree graph) (zero_keys (initial_in_degree graph)) [] None).
Proof.
  pose proof (initial_in_degree_nodup graph) as Hnd.
  assert (Hget : forall t, In t (graph_nodes graph) ->
            dict_get (initial_in_degree graph) t = Some (occurrences t (remaining graph ∅))).
  { intros t Ht. rewrite initial_in_degree_spec.
    rewrite bool_decide_eq_true_2 by (now apply list_elem_of_In). reflexivity. }
  constructor; simpl.
  - exact Hget.
  - now apply zero_keys_nodup.
  - intros x Hx. apply (zero_keys_in _ _ Hnd) in Hx.
    rewrite initial_in_degree_spec in Hx.
    destruct (bool_decide (x ∈ graph_nodes graph)) eqn:E; [|discriminate].
    apply bool_decide_eq_true in E. apply list_elem_of_In in E.
    split; [set_solver|]. split; [exact E|congruence].
  - intros x Hx. set_solver.
  - intros x HxG Hx0. right. apply (zero_keys_in _ _ Hnd).
    rewrite (Hget x HxG), Hx0. reflexivity.
  - intros x. split; [intros []|set_solver].
  - constructor.
Qed.


(** ** Traces *)

Lemma extends_refl P c : extends_with P c c.
Proof.
  split; [reflexivity|]. exists []. split; [now rewrite app_nil_r|constructor].
Qed.

Lemma extends_trans P c1 c2 c3 :
  extends_with P c1 c2 -> extends_with P c2 c3 -> extends_with P c1 c3.
Proof.
  intros (C1 & e1 & H1 & F1) (C2 & e2 & H2 & F2).
  split; [congruence|]. exists (e1 ++ e2).
  split; [now rewrite H2, H1, app_assoc|]. apply Forall_app. now split.
Qed.

Lemma extends_in P c c' t : extends_with P c c' -> In t (trace c) -> In t (trace c').
Proof. intros (_ & e & -> & _) H. apply in_or_app. now left. Qed.

Lemma steady_ret {A} (a : A) : steady (ret a).
Proof. intros c r c' [= <- <-]. split; [discriminate|apply extends_refl]. Qed.

Lemma steady_throw {A} e : steady (@throw A e).
Proof. intros c r c' [= <- <-]. split; [discriminate|apply extends_refl]. Qed.

Lemma steady_lift {A} (x : exn + A) : steady (lift x).
Proof. destruct x; [apply steady_throw|apply steady_ret]. Qed.

Lemma steady_bind {A B} (m : M A) (f : A -> M B) :
  steady m -> (forall a, steady (f a)) -> steady (bind m f).
Proof.
  intros Hm Hf c r c' H. unfold bind in H.
  destruct (m c) as [[a|e|] c1] eqn:E; destruct (Hm _ _ _ E) as [Hne Hext].
  - destruct (Hf a _ _ _ H) as [Hne' Hext']. split; [exact Hne'|].
    eapply extends_trans; eauto.
  - injection H as <- <-. split; [discriminate|exact Hext].
  - congruence.
Qed.

Lemma steady_try {A} (m : M A) (h : exn -> M A) :
  steady m -> (forall e, steady (h e)) -> steady (try_except m h).
Proof.
  intros Hm Hh c r c' H. unfold try_except in H.
  destruct (m c) as [[a|e|] c1] eqn:E; destruct (Hm _ _ _ E) as [Hne Hext].
  - injection H as <- <-. split; [discriminate|exact Hext].
  - destruct (Hh e _ _ _ H) as [Hne' Hext']. split; [exact Hne'|].
    eapply extends_trans; eauto.
  - congruence.
Qed.

Lemma steady_modify f :
  (forall c, extends_with not_dispatch c (f c)) -> steady (modify f).
Proof. intros H c r c' [= <- <-]. split; [discriminate|apply H]. Qed.

Lemma extends_record t c : not_dispatch t -> extends_with not_dispatch c (record t c).
Proof.
  intros H. split; [reflexivity|].
  exists [t]. split; [reflexivity|]. constructor; [exact H|constructor].
Qed.

Lemma steady_call_callback ev : steady (call_callback ev).
Proof.
  intros c r c' H. unfold call_callback in H.
  destruct (callback c) as [cb|].
  - destruct (cb (delivered c) ev); injection H as <- <-;
      (split; [discriminate|split; [reflexivity|];
               exists []; split; [simpl; now rewrite app_nil_r|constructor]]).
  - injection H as <- <-. split; [discriminate|apply extends_refl].
Qed.

Lemma steady_add_log level message node_id metadata :
  steady (add_log level message node_id metadata).
Proof.
  intros c r c' H. unfold add_log in H.
  destruct (steady_call_callback _ _ _ _ H) as [Hne Hext]. split; [exact Hne|].
  eapply extends_trans; [|exact Hext].
  split; [reflexivity|].
  exists [TLog (LogEntry (execution_id c) level message node_id metadata)].
  split; [reflexivity|]. constructor; [exact I|constructor].
Qed.

Lemma steady_set_node_status node_id st : steady (set_node_status node_id st).
Proof.
  unfold set_node_status. apply steady_bind.
  - apply steady_modify. intros c. split; [reflexivity|].
    exists [TStatus node_id st]. split; [reflexivity|]. constructor; [exact I|constructor].
  - intros _ c r c' H. cbv beta in H. eapply steady_call_callback; exact H.
Qed.

Lemma steady_set_node_output node_id output : steady (set_node_output node_id output).
Proof.
  unfold set_node_output. apply steady_modify. intros c. split; [reflexivity|].
  exists [TOutput node_id output]. split; [reflexivity|]. constructor; [exact I|constructor].
Qed.

Lemma steady_interp {A} (p : prog A) : steady (interp p).
Proof.
  induction p as [a|e|l m n md next IHnext on_raise IHraise]; simpl.
  - apply steady_ret.
  - apply steady_throw.
  - intros c r c' H.
    destruct (add_log l m n md c) as [[[]|e|] c1] eqn:E;
      destruct (steady_add_log _ _ _ _ _ _ _ E) as [Hne Hext].
    + destruct (IHnext _ _ _ H) as [Hne' Hext']. split; [exact Hne'|].
      eapply extends_trans; eauto.
    + destruct (IHraise e _ _ _ H) as [Hne' Hext']. split; [exact Hne'|].
      eapply extends_trans; eauto.
    + congruence.
Qed.

Lemma steady_run_body ex node_id node_type node_config :
  steady (run_body ex node_id node_type node_config).
Proof.
  unfold run_body.
  apply steady_bind; [apply steady_set_node_status|intros _].
  apply steady_bind; [apply steady_add_log|intros _].
  apply steady_bind; [apply steady_lift|intros valid].
  apply steady_bind; [destruct valid; [apply steady_ret|apply steady_throw]|intros _].
  apply steady_bind;
    [intros c r c' H; cbv beta in H; eapply steady_ret; exact H|intros resolved].
  apply steady_bind.
  { intros c r c' H.
    destruct (steady_interp _ _ _ _ H) as [Hne Hext]. split; [exact Hne|].
    eapply extends_trans; [|exact Hext]. now apply extends_record. }
  intros result.
  apply steady_bind; [apply steady_set_node_status|intros _].
  apply steady_bind.
  { destruct (bool_decide (res_status result = s2p "success")).
    - apply steady_bind; [apply steady_set_node_output|intros _; apply steady_add_log].
    - apply steady_add_log. }
  intros _.
  apply steady_bind; [|intros _; apply steady_ret].
  apply steady_modify. intros c. now apply extends_record.
Qed.

Lemma steady_run_handler node_id e : steady (run_handler node_id e).
Proof.
  unfold run_handler.
  apply steady_bind; [apply steady_set_node_status|intros _].
  apply steady_bind; [apply steady_add_log|intros _].
  apply steady_bind; [|intros _; apply steady_ret].
  apply steady_modify. intros c. now apply extends_record.
Qed.

Lemma steady_run ex node_id node_type node_config :
  steady (run ex node_id node_type node_config).
Proof.
  unfold run. apply steady_try;
    [apply steady_run_body|intros e; apply steady_run_handler].
Qed.

Lemma bind_ok_inv {A B} (m : M A) (f : A -> M B) c b c' :
  bind m f c = (Ok b, c') ->
  exists a c1, m c = (Ok a, c1) /\ f a c1 = (Ok b, c').
Proof.
  unfold bind. destruct (m c) as [[a|e|] c1]; try discriminate. eauto.
Qed.

Lemma failed_is_not_success : s2p "failed" <> s2p "success".
Proof. vm_compute. discriminate. Qed.

Lemma run_body_returned ex node_id node_type node_config c res c' :
  run_body ex node_id node_type node_config c = (Ok res, c') ->
  returned (trace c') node_id res.
Proof.
  unfold run_body. intros H.
  apply bind_ok_inv in H as (? & c1 & _ & H).
  apply bind_ok_inv in H as (? & c2 & _ & H).
  apply bind_ok_inv in H as (valid & c3 & _ & H).
  apply bind_ok_inv in H as (? & c4 & _ & H).
  apply bind_ok_inv in H as (resolved & c5 & _ & H).
  apply bind_ok_inv in H as (result & c6 & _ & H).
  apply bind_ok_inv in H as (? & c7 & _ & H).
  apply bind_ok_inv in H as (? & c8 & Hstore & H).
  apply bind_ok_inv in H as (? & c9 & Hrec & H).
  unfold ret in H. unfold modify in Hrec.
  inversion H; subst; clear H. inversion Hrec; subst; clear Hrec.
  split.
  - simpl. apply in_or_app. right. now left.
  - intros Hs. rewrite bool_decide_eq_true_2 in Hstore by exact Hs.
    apply bind_ok_inv in Hstore as (? & c7' & Hout & Hlog).
    unfold set_node_output, modify in Hout. inversion Hout; subst; clear Hout.
    exists (res_output res).
    simpl. apply in_or_app. left.
    destruct (steady_add_log _ _ _ _ _ _ _ Hlog) as [_ Hext].
    eapply extends_in; [exact Hext|].
    simpl. apply in_or_app. right. now left.
Qed.

Lemma run_returned ex node_id node_type node_config c res c' :
  run ex node_id node_type node_config c = (Ok res, c') ->
  returned (trace c') node_id res.
Proof.
  unfold run, try_except. intros H.
  destruct (run_body ex node_id node_type node_config c)
    as [[a|e|] c1] eqn:E.
  - injection H as <- <-. eapply run_body_returned; eauto.
  - unfold run_handler in H.
    apply bind_ok_inv in H as (? & c2 & _ & H).
    apply bind_ok_inv in H as (? & c3 & _ & H).
    apply bind_ok_inv in H as (? & c4 & Hrec & H).
    unfold ret in H. unfold modify in Hrec.
    inversion H; subst; clear H. inversion Hrec; subst; clear Hrec. split.
    + simpl. apply in_or_app. right. now left.
    + simpl. intros Hs. now apply failed_is_not_success in Hs.
  - discriminate.
Qed.

(** [_execute_node]: one dispatch, then a run that dispatches nothing. *)
Lemma execute_node_spec registry node c r c' :
  _execute_node registry node c = (r, c') ->
  r <> OutOfFuel /\ callback c' = callback c
  /\ (exists ext, trace c' = trace c ++ TDispatch (fn_id node) :: ext
                  /\ Forall not_dispatch ext)
  /\ (forall res, r = Ok res -> returned (trace c') (fn_id node) res).
Proof.
  unfold _execute_node, bind, modify. intros H.
  set (c1 := record (TDispatch (fn_id node)) c) in *.
  assert (Htr : trace c1 = trace c ++ [TDispatch (fn_id node)]) by reflexivity.
  destruct (registry (fn_type node)) as [executor_class|].
  - destruct (executor_class (fn_id node) (fn_type node)) as [e|executor]; simpl in H.
    + injection H as <- <-. split; [discriminate|]. split; [reflexivity|].
      split; [|discriminate].
      exists []. split; [exact Htr|constructor].
    + destruct (steady_run _ _ _ _ _ _ _ H) as [Hne (Hcb & ext & Hext & Hall)].
      split; [exact Hne|]. split; [exact Hcb|]. split.
      * exists ext. split; [|exact Hall]. rewrite Hext, Htr, <- app_assoc. reflexivity.
      * intros res ->. eapply run_returned; eauto.
  - injection H as <- <-. split; [discriminate|]. split; [reflexivity|].
    split; [|discriminate].
    exists []. split; [exact Htr|constructor].
Qed.

Lemma finished_in_mono tr ext u : finished_in tr u -> finished_in (tr ++ ext) u.
Proof.
  intros (st & H1 & H2 & H3). exists st. split; [apply in_or_app; now left|].
  split; [exact H2|]. intros Hs. destruct (H3 Hs) as [o Ho]. exists o.
  apply in_or_app. now left.
Qed.

Lemma dispatch_ordered_quiet R tr ext :
  dispatch_ordered R tr -> Forall not_dispatch ext -> dispatch_ordered R (tr ++ ext).
Proof.
  intros Hord Hq before v after Heq u Huv.
  apply app_eq_app in Heq as [l [[Htr Hl]|[Hb Hl]]].
  - destruct l as [|x l]; simpl in Hl.
    + subst ext. apply Forall_inv in Hq. destruct Hq.
    + injection Hl as <- Hl. eapply Hord; eauto.
  - exfalso. subst ext. apply Forall_app in Hq as [_ Hq].
    apply Forall_inv in Hq. destruct Hq.
Qed.

Lemma dispatch_ordered_step R tr v ext :
  dispatch_ordered R tr -> (forall u, R u v -> finished_in tr u) ->
  Forall not_dispatch ext ->
  dispatch_ordered R (tr ++ TDispatch v :: ext).
Proof.
  intros Hord Hv Hq before w after Heq u Huw.
  apply app_eq_app in Heq as [l [[Htr Hl]|[Hb Hl]]].
  - destruct l as [|x l]; simpl in Hl.
    + injection Hl as <- _. rewrite app_nil_r in Htr. subst before. now apply Hv.
    + injection Hl as <- Hl. eapply Hord; eauto.
  - destruct l as [|x l]; simpl in Hl.
    + injection Hl as <- _. rewrite app_nil_r in Hb. subst before. now apply Hv.
    + injection Hl as _ Hl. exfalso. subst ext.
      apply Forall_app in Hq as [_ Hq]. apply Forall_inv in Hq. destruct Hq.
Qed.

Lemma gather_spec registry R tasks : forall c r c',
  gather registry tasks c = (r, c') ->
  dispatch_ordered R (trace c) ->
  (forall node u, In node tasks -> R u (fn_id node) -> finished_in (trace c) u) ->
  dispatch_ordered R (trace c') /\ callback c' = callback c
  /\ (exists ext, trace c' = trace c ++ ext)
  /\ exists results, r = Ok results
       /\ Forall2 (fun node result =>
                     forall res, result = inr res -> returned (trace c') (fn_id node) res)
                  tasks results.
Proof.
  induction tasks as [|node rest IH]; intros c r c' H Hord Hpre.
  - injection H as <- <-. split; [exact Hord|]. split; [reflexivity|].
    split; [exists []; now rewrite app_nil_r|].
    exists []. split; [reflexivity|constructor].
  - simpl in H.
    destruct (_execute_node registry node c) as [r1 c1] eqn:E1.
    destruct (execute_node_spec _ _ _ _ _ E1) as (Hne & Hcb1 & (ext & Hext & Hall) & Hret).
    assert (Hord1 : dispatch_ordered R (trace c1)).
    { rewrite Hext. apply dispatch_ordered_step; [exact Hord| |exact Hall].
      intros u Hu. apply (Hpre node u); [now left|exact Hu]. }
    assert (Hpre1 : forall n u, In n rest -> R u (fn_id n) -> finished_in (trace c1) u).
    { intros n u Hn Hu. rewrite Hext. apply finished_in_mono.
      apply (Hpre n u); [now right|exact Hu]. }
    destruct r1 as [res|e|]; [| |congruence].
    + destruct (gather registry rest c1) as [r2 c2] eqn:E2.
      destruct (IH _ _ _ E2 Hord1 Hpre1)
        as (Hord2 & Hcb2 & (ext2 & Hext2) & results & -> & Hall2).
      injection H as <- <-. split; [exact Hord2|]. split; [congruence|]. split.
      * exists ((TDispatch (fn_id node) :: ext) ++ ext2).
        rewrite Hext2, Hext, <- app_assoc. reflexivity.
      * exists (inr res :: results). split; [reflexivity|]. constructor; [|exact Hall2].
        intros res' [= <-]. destruct (Hret res eq_refl) as [H1 H2].
        split.
        -- rewrite Hext2. apply in_or_app. now left.
        -- intros Hs. destruct (H2 Hs) as [o Ho]. exists o.
           rewrite Hext2. apply in_or_app. now left.
    + destruct (gather registry rest c1) as [r2 c2] eqn:E2.
      destruct (IH _ _ _ E2 Hord1 Hpre1)
        as (Hord2 & Hcb2 & (ext2 & Hext2) & results & -> & Hall2).
      injection H as <- <-. split; [exact Hord2|]. split; [congruence|]. split.
      * exists ((TDispatch (fn_id node) :: ext) ++ ext2).
        rewrite Hext2, Hext, <- app_assoc. reflexivity.
      * exists (inl e :: results). split; [reflexivity|]. constructor; [|exact Hall2].
        intros res' [=].
Qed.


(** ** The wave loop *)

Lemma get_node_by_id_spec node_id nodes node :
  _get_node_by_id node_id nodes = Some node -> fn_id node = node_id /\ In node nodes.
Proof.
  induction nodes as [|n nodes IH]; simpl; [discriminate|].
  destruct (decide (fn_id n = node_id)) as [Heq|Hne].
  - intros [= <-]. split; [exact Heq|now left].
  - intros H. destruct (IH H). split; [assumption|now right].
Qed.

Lemma collect_tasks_spec nodes batch : forall o tasks o',
  collect_tasks nodes batch o = inr (tasks, o') ->
  List.map fn_id tasks = batch
  /\ (forall x, In x batch -> In x (List.map fn_id nodes)).
Proof.
  induction batch as [|node_id rest IH]; intros o tasks o' H; simpl in H.
  - injection H as <- <-. split; [reflexivity|intros x []].
  - destruct (_get_node_by_id node_id nodes) as [node|] eqn:E; [|discriminate].
    apply get_node_by_id_spec in E as [Hid Hin].
    destruct (collect_tasks nodes rest _) as [e|[tasks' o'']] eqn:E2; [discriminate|].
    injection H as <- <-. destruct (IH _ _ _ E2) as [Hmap Hknown].
    split; [simpl; now rewrite Hid, Hmap|].
    intros x [<-|Hx]; [|now apply Hknown].
    rewrite <- Hid. now apply in_map.
Qed.

Lemma ready_predecessors_done graph nodes done pending s u v :
  List.NoDup (dict_keys graph) ->
  sched_inv graph nodes done pending s ->
  In v (pending ++ ready_nodes s) -> graph_edge graph u v -> u ∈ done.
Proof.
  intros Hkeys Hinv Hv Huv.
  destruct (inv_ready _ _ _ _ _ Hinv v Hv) as (_ & _ & Hv0).
  destruct (decide (u ∈ done)) as [Hu|Hu]; [exact Hu|exfalso].
  rewrite (remaining_split graph done u v Hkeys Hu) in Hv0.
  unfold graph_edge in Huv. apply occurrences_pos in Huv.
  pose proof (occurrences_nonneg v (remaining graph ({[u]} ∪ done))). lia.
Qed.

Lemma sched_inv_begin_wave graph nodes done s o :
  sched_inv graph nodes done [] s ->
  sched_inv graph nodes done (ready_nodes s)
    (MkSchedule (in_degree s) [] (executed_nodes s) o).
Proof.
  intros [H1 H2 H3 H4 H5 H6 H7]. constructor; simpl in *;
    rewrite ?app_nil_r; assumption.
Qed.

Lemma map_fst_combine {A B} (l1 : list A) (l2 : list B) :
  length l1 = length l2 -> List.map fst (combine l1 l2) = l1.
Proof.
  revert l2. induction l1 as [|a l1 IH]; intros [|b l2] H; simpl in *;
    try discriminate; [reflexivity|]. f_equal. apply IH. lia.
Qed.

Lemma waves_spec registry graph nodes :
  List.NoDup (dict_keys graph) ->
  forall fuel s done c r c',
    sched_inv graph nodes done [] s ->
    dispatch_ordered (graph_edge graph) (trace c) ->
    (forall u, u ∈ done -> finished_in (trace c) u) ->
    size (dfs_universe graph ∖ done) < fuel ->
    waves fuel registry graph nodes s c = (r, c') ->
    r <> OutOfFuel /\ callback c' = callback c
    /\ dispatch_ordered (graph_edge graph) (trace c')
    /\ (forall s', r = Ok s' ->
          exists done', sched_inv graph nodes done' [] s' /\ ready_nodes s' = []).
Proof.
  intros Hkeys. induction fuel as [|fuel IH]; intros s done c r c' Hinv Hord Hfin Hsize H.
  - lia.
  - cbn [waves] in H.
    destruct (ready_nodes s) as [|b batch'] eqn:Hready.
    { injection H as <- <-. split; [discriminate|]. split; [reflexivity|].
      split; [exact Hord|]. intros s' [= <-]. exists done. split; assumption. }
    rewrite <- Hready in *.
    unfold bind at 1 in H.
    destruct (collect_tasks nodes (ready_nodes s) (output_node_id s))
      as [e|[tasks o']] eqn:Ecollect; simpl in H.
    { injection H as <- <-. split; [discriminate|]. split; [reflexivity|].
      split; [exact Hord|]. intros s' [=]. }
    destruct (collect_tasks_spec _ _ _ _ _ Ecollect) as [Hids Hknown].
    unfold bind at 1 in H.
    destruct (gather registry tasks c) as [rg c1] eqn:Egather.
    destruct (gather_spec registry (graph_edge graph) tasks _ _ _ Egather Hord)
      as (Hord1 & Hcb1 & (ext & Hext) & results & -> & Hall).
    { intros node u Hnode Hu. apply Hfin.
      eapply (ready_predecessors_done graph nodes done [] s u (fn_id node)); eauto.
      simpl. rewrite <- Hids. now apply in_map. }
    unfold bind at 1 in H.
    assert (Hlen : length tasks = length results)
      by (eapply Forall2_length; exact Hall).
    assert (Hfst : List.map fst (combine (List.map fn_id tasks) results) = ready_nodes s).
    { rewrite map_fst_combine; [exact Hids|]. now rewrite length_map. }
    destruct (process_results graph
                (combine (List.map fn_id tasks) results)
                (MkSchedule (in_degree s) [] (executed_nodes s) o'))
      as [e|s1] eqn:Eproc; simpl in H.
    { injection H as <- <-. split; [discriminate|]. split; [exact Hcb1|].
      split; [exact Hord1|]. intros s' [=]. }
    destruct (process_results_inv graph nodes Hkeys
                (combine (List.map fn_id tasks) results) done
                (MkSchedule (in_degree s) [] (executed_nodes s) o'))
      with (s' := s1) as (done' & Hinv' & Hdone' & _ & Hok).
    { rewrite Hfst. now apply sched_inv_begin_wave. }
    { rewrite Hfst. exact Hknown. }
    { exact Eproc. }
    assert (Hfin' : forall u, u ∈ done' -> finished_in (trace c1) u).
    { intros u Hu. apply Hdone' in Hu as [Hu|Hu].
      - rewrite Hfst, <- Hids in Hu.
        clear - Hu Hall Hok. revert results Hall Hok.
        induction tasks as [|node tasks IHt]; intros results Hall Hok; [destruct Hu|].
        inversion Hall as [|? result ? results' Hhead Htail]; subst.
        simpl in Hok. inversion Hok as [|? ? (res & Hres & Hnf) Hok']; subst.
        destruct Hu as [<-|Hu]; [|eapply IHt; eauto].
        simpl in Hres. destruct (Hhead res Hres) as [Hret Hout].
        exists (res_status res). split; [exact Hret|]. split; [exact Hnf|exact Hout].
      - rewrite Hext. apply finished_in_mono. now apply Hfin. }
    assert (Hsize' : size (dfs_universe graph ∖ done') < fuel).
    { assert (Hb : In b (ready_nodes s)) by (rewrite Hready; now left).
      destruct (inv_ready _ _ _ _ _ Hinv b Hb) as (Hbd & HbG & _).
      assert (Hlt : size (dfs_universe graph ∖ done') < size (dfs_universe graph ∖ done)).
      { apply subset_size. split.
        - intros x Hx. apply elem_of_difference in Hx as [Hx1 Hx2].
          apply elem_of_difference. split; [exact Hx1|].
          intros Hxd. apply Hx2. apply Hdone'. now right.
        - intros Hsub. assert (Hin : b ∈ dfs_universe graph ∖ done).
          { apply elem_of_difference. split; [|exact Hbd].
            unfold dfs_universe. apply elem_of_list_to_set. now apply list_elem_of_In. }
          apply Hsub in Hin. apply elem_of_difference in Hin as [_ Hin].
          apply Hin. apply Hdone'. left. now rewrite Hfst. }
      lia. }
    destruct (IH s1 done' c1 r c' Hinv' Hord1 Hfin' Hsize' H)
      as (Hne & Hcb & Hord' & Hfinal).
    split; [exact Hne|]. split; [congruence|]. split; [exact Hord'|exact Hfinal].
Qed.

Lemma length_dict_keys {V} (d : dict V) : length (dict_keys d) = length d.
Proof. apply length_map. Qed.

(** [_execute_graph] keeps the order, and when it returns a value every id
    the graph mentions names a node of the definition. *)
Lemma execute_graph_spec registry graph nodes c r c' :
  List.NoDup (dict_keys graph) ->
  (forall k, In k (List.map fn_id nodes) -> In k (dict_keys graph)) ->
  dispatch_ordered (graph_edge graph) (trace c) ->
  _execute_graph registry graph nodes c = (r, c') ->
  r <> OutOfFuel /\ callback c' = callback c
  /\ dispatch_ordered (graph_edge graph) (trace c')
  /\ (forall v, r = Ok v ->
        forall k, In k (graph_nodes graph) -> In k (List.map fn_id nodes)).
Proof.
  intros Hkeys Hids Hord H. unfold _execute_graph in H.
  destruct (zero_keys (initial_in_degree graph)) as [|b ready'] eqn:Hready.
  { injection H as <- <-. split; [discriminate|]. split; [reflexivity|].
    split; [exact Hord|]. intros v [=]. }
  rewrite <- Hready in H. unfold bind at 1 in H.
  destruct (waves (S (length (initial_in_degree graph))) registry graph nodes
              (MkSchedule (initial_in_degree graph) (zero_keys (initial_in_degree graph))
                          [] None) c) as [rw c1] eqn:Ew.
  assert (Hfin0 : forall u, u ∈ (∅ : gset pystr) -> finished_in (trace c) u)
    by (intros u Hu; set_solver).
  assert (Hsize0 : size (dfs_universe graph ∖ ∅) < S (length (initial_in_degree graph))).
  { apply Nat.lt_succ_r.
    transitivity (size (dfs_universe graph)); [apply subseteq_size; set_solver|].
    unfold dfs_universe.
    transitivity (size (list_to_set (C:=gset pystr) (dict_keys (initial_in_degree graph)))).
    - apply subseteq_size. intros x Hx. apply elem_of_list_to_set in Hx.
      apply elem_of_list_to_set. apply list_elem_of_In.
      pose proof (initial_in_degree_spec graph x) as Hspec.
      rewrite bool_decide_eq_true_2 in Hspec by exact Hx.
      eapply dict_get_key; eauto.
    - rewrite <- (length_dict_keys (initial_in_degree graph)).
      apply size_list_to_set_le. }
  destruct (waves_spec registry graph nodes Hkeys _ _ _ _ _ _
              (initial_sched_inv graph nodes) Hord Hfin0 Hsize0 Ew)
    as (Hne & Hcb & Hord1 & Hfinal).
  destruct rw as [s'|e|]; [| |congruence].
  2:{ injection H as <- <-. split; [discriminate|]. split; [exact Hcb|].
      split; [exact Hord1|]. intros v [=]. }
  destruct (Hfinal s' eq_refl) as (done' & Hinv & Hempty).
  destruct (negb (length (executed_nodes s') =? length graph)) eqn:Hcheck.
  { injection H as <- <-. split; [discriminate|]. split; [exact Hcb|].
    split; [exact Hord1|]. intros v [=]. }
  assert (Hr : exists v, r = Ok v /\ c' = c1).
  { destruct (is_truthy_id (output_node_id s')); injection H as <- <-; eauto. }
  destruct Hr as (v & -> & ->).
  split; [discriminate|]. split; [exact Hcb|]. split; [exact Hord1|].
  intros _ _ k Hk.
  apply negb_false_iff, Nat.eqb_eq in Hcheck.
  assert (Hexec_keys : incl (executed_nodes s') (dict_keys graph)).
  { intros x Hx. apply Hids. apply (inv_executed _ _ _ _ _ Hinv) in Hx.
    now apply (inv_done _ _ _ _ _ Hinv). }
  assert (Hall : forall x, In x (dict_keys graph) -> x ∈ done').
  { intros x Hx. apply (inv_executed _ _ _ _ _ Hinv).
    assert (Hle : length (dict_keys graph) <= length (executed_nodes s'))
      by (rewrite length_dict_keys; lia).
    exact (@NoDup_length_incl _ (executed_nodes s') (dict_keys graph)
             (inv_executed_nodup _ _ _ _ _ Hinv) Hle Hexec_keys x Hx). }
  pose proof (remaining_all_done graph done' k Hall) as Hzero.
  destruct (inv_complete _ _ _ _ _ Hinv k Hk Hzero) as [Hd|Hr].
  - now apply (inv_done _ _ _ _ _ Hinv).
  - rewrite Hempty in Hr. destruct Hr.
Qed.


(** ** The whole run *)

Lemma extends_same P c c' :
  callback c' = callback c -> trace c' = trace c -> extends_with P c c'.
Proof.
  intros H1 H2. split; [exact H1|]. exists [].
  split; [now rewrite app_nil_r|constructor].
Qed.

Lemma steady_start : steady start.
Proof.
  unfold start.
  apply steady_bind; [apply steady_modify; intros c; now apply extends_same|intros _].
  apply steady_bind; [apply steady_add_log|intros _].
  intros c r c' H. cbv beta in H. eapply steady_call_callback; exact H.
Qed.

Lemma steady_complete output_data : steady (complete output_data).
Proof.
  unfold complete.
  apply steady_bind; [apply steady_modify; intros c; now apply extends_same|intros _].
  apply steady_bind; [apply steady_add_log|intros _].
  intros c r c' H. cbv beta in H. eapply steady_call_callback; exact H.
Qed.

Lemma steady_fail message : steady (fail message).
Proof.
  unfold fail.
  apply steady_bind; [apply steady_modify; intros c; now apply extends_same|intros _].
  apply steady_bind; [apply steady_add_log|intros _].
  intros c r c' H. cbv beta in H. eapply steady_call_callback; exact H.
Qed.

Lemma steady_keeps_order {A} R (m : M A) : steady m -> keeps_order R m.
Proof.
  intros Hm c r c' H Hord. destruct (Hm _ _ _ H) as (Hne & Hcb & ext & Hext & Hall).
  split; [exact Hne|]. split; [exact Hcb|]. rewrite Hext.
  now apply dispatch_ordered_quiet.
Qed.

Lemma keeps_order_bind {A B} R (m : M A) (f : A -> M B) :
  keeps_order R m -> (forall a, keeps_order R (f a)) -> keeps_order R (bind m f).
Proof.
  intros Hm Hf c r c' H Hord. unfold bind in H.
  destruct (m c) as [[a|e|] c1] eqn:E; destruct (Hm _ _ _ E Hord) as (Hne & Hcb & Hord1).
  - destruct (Hf a _ _ _ H Hord1) as (Hne' & Hcb' & Hord').
    split; [exact Hne'|]. split; [congruence|exact Hord'].
  - injection H as <- <-. split; [discriminate|]. split; assumption.
  - congruence.
Qed.

Lemma keeps_order_try {A} R (m : M A) (h : exn -> M A) :
  keeps_order R m -> (forall e, keeps_order R (h e)) -> keeps_order R (try_except m h).
Proof.
  intros Hm Hh c r c' H Hord. unfold try_except in H.
  destruct (m c) as [[a|e|] c1] eqn:E; destruct (Hm _ _ _ E Hord) as (Hne & Hcb & Hord1).
  - injection H as <- <-. split; [discriminate|]. split; assumption.
  - destruct (Hh e _ _ _ H Hord1) as (Hne' & Hcb' & Hord').
    split; [exact Hne'|]. split; [congruence|exact Hord'].
  - congruence.
Qed.

Lemma build_node_ids_are_keys definition k :
  In k (List.map fn_id (def_nodes definition)) ->
  In k (dict_keys (_build_execution_graph definition)).
Proof.
  intros H. destruct (build_spec definition) as (_ & _ & Hk).
  apply Hk. left. exact H.
Qed.

Lemma keeps_order_execute_graph registry definition :
  keeps_order (graph_edge (_build_execution_graph definition))
    (_execute_graph registry (_build_execution_graph definition) (def_nodes definition)).
Proof.
  intros c r c' H Hord.
  destruct (build_spec definition) as (Hkeys & _ & _).
  destruct (execute_graph_spec registry _ _ _ _ _ Hkeys
              (build_node_ids_are_keys definition) Hord H) as (H1 & H2 & H3 & _).
  repeat split; assumption.
Qed.

Lemma keeps_order_body registry definition :
  keeps_order (graph_edge (_build_execution_graph definition))
              (workflow_body registry definition).
Proof.
  unfold workflow_body.
  apply keeps_order_bind; [apply steady_keeps_order, steady_start|intros _].
  apply keeps_order_bind.
  { apply steady_keeps_order. unfold _validate_graph.
    destruct (_has_cycle _); [apply steady_throw|apply steady_ret]. }
  intros _.
  apply keeps_order_bind; [apply keeps_order_execute_graph|intros output_data].
  apply keeps_order_bind; [apply steady_keeps_order, steady_complete|intros _].
  apply steady_keeps_order. intros c r c' H. cbv beta in H. eapply steady_ret; exact H.
Qed.

Lemma keeps_order_handler R e : keeps_order R (workflow_handler e).
Proof.
  unfold workflow_handler. apply steady_keeps_order.
  apply steady_bind; [apply steady_fail|intros _].
  intros c r c' H. cbv beta in H. eapply steady_ret; exact H.
Qed.

Lemma dispatch_ordered_nil R : dispatch_ordered R [].
Proof. intros before v after H. destruct before; discriminate. Qed.

(** C1 (amended).  In every run, for every edge u -> v of the definition,
    each dispatch of v comes after [run] has returned for u with a status
    other than "failed"; and when that status is "success" the output of u
    has been stored under node_outputs[u] and variables["nodes." + u]
    (the one write of [set_node_output]) before v is dispatched.  The run
    itself always ends within the step budget of the model. *)
Theorem dispatch_follows_predecessors :
  forall registry eid wid definition input_data cb r c,
    execute_workflow registry eid wid definition input_data cb = (r, c) ->
    r <> OutOfFuel
    /\ forall before v after,
         trace c = before ++ TDispatch v :: after ->
         forall u, edge_of definition u v ->
           exists status,
             In (TReturn u status) before /\ status <> s2p "failed"
             /\ (status = s2p "success" -> exists output, In (TOutput u output) before).
Proof.
  intros registry eid wid definition input_data cb r c H.
  unfold execute_workflow in H.
  destruct (keeps_order_try (graph_edge (_build_execution_graph definition)) _ _
              (keeps_order_body registry definition)
              (keeps_order_handler _) _ _ _ H (dispatch_ordered_nil _))
    as (Hne & _ & Hord).
  split; [exact Hne|].
  intros before v after Htr u Huv.
  apply (Hord before v after Htr u). now apply build_edge.
Qed.

Lemma unknown_endpoint_in_graph definition :
  unknown_endpoint definition ->
  exists k, In k (graph_nodes (_build_execution_graph definition))
            /\ ~ In k (node_ids definition).
Proof.
  intros ([s t] & Hin & Hunk). simpl in Hunk.
  assert (Hedge : graph_edge (_build_execution_graph definition) s t)
    by now apply build_edge.
  apply successors_in_graph in Hedge as [Ht Hs].
  destruct Hunk as [Hunk|Hunk].
  - exists s. split; [|exact Hunk]. unfold graph_nodes. apply in_or_app. now left.
  - exists t. split; assumption.
Qed.

Lemma body_never_completes registry definition c w c' :
  unknown_endpoint definition ->
  dispatch_ordered (graph_edge (_build_execution_graph definition)) (trace c) ->
  workflow_body registry definition c <> (Ok w, c').
Proof.
  intros Hunk Hord H. unfold workflow_body in H.
  apply bind_ok_inv in H as (? & c1 & Hstart & H).
  apply bind_ok_inv in H as (? & c2 & Hval & H).
  apply bind_ok_inv in H as (output_data & c3 & Hexec & _).
  destruct (steady_keeps_order _ _ steady_start _ _ _ Hstart Hord) as (_ & _ & Hord1).
  assert (Hord2 : dispatch_ordered (graph_edge (_build_execution_graph definition)) (trace c2)).
  { unfold _validate_graph in Hval.
    destruct (_has_cycle _); [discriminate|].
    unfold ret in Hval. inversion Hval; subst. exact Hord1. }
  destruct (build_spec definition) as (Hkeys & _ & _).
  destruct (execute_graph_spec registry _ _ _ _ _ Hkeys
              (build_node_ids_are_keys definition) Hord2 Hexec) as (_ & _ & _ & Hknown).
  destruct (unknown_endpoint_in_graph definition Hunk) as (k & Hk & Hnot).
  apply Hnot. exact (Hknown output_data eq_refl k Hk).
Qed.

(** C7 (amended).  When an edge names a source or a target that is the id
    of no node, the run never completes: its result, if the observer lets
    it return one, has status failed and no output; with an observer that
    is absent or does not raise the result is returned and the context
    ends in status failed.  (Graph validation does not reject such a
    definition - it looks for cycles only, see
    [duplicate_edges_tolerated_cycles_rejected] - the unknown id is caught
    when it is dispatched or by the final count of executed nodes.) *)
Theorem unknown_endpoint_fails_the_run :
  forall registry eid wid definition input_data cb r c,
    unknown_endpoint definition ->
    execute_workflow registry eid wid definition input_data cb = (r, c) ->
    r <> OutOfFuel
    /\ (forall w, r = Ok w -> wr_status w = s2p "failed" /\ wr_output w = None)
    /\ (quiet_callback cb ->
        exists w, r = Ok w /\ wr_status w = s2p "failed" /\ status c = s2p "failed").
Proof.
  intros registry eid wid definition input_data cb r c Hunk H.
  unfold execute_workflow in H.
  set (c0 := new_context eid wid input_data cb) in *.
  assert (Hord0 : dispatch_ordered (graph_edge (_build_execution_graph definition)) (trace c0))
    by apply dispatch_ordered_nil.
  destruct (keeps_order_try _ _ _ (keeps_order_body registry definition)
              (keeps_order_handler _) _ _ _ H Hord0) as (Hne & _ & _).
  split; [exact Hne|].
  unfold try_except in H.
  destruct (workflow_body registry definition c0) as [[w|e|] c1] eqn:Ebody.
  - exfalso. eapply body_never_completes; eauto.
  - destruct (keeps_order_body registry definition _ _ _ Ebody Hord0) as (_ & Hcb1 & _).
    split.
    + intros w ->. unfold workflow_handler in H.
      apply bind_ok_inv in H as (? & c2 & _ & H).
      unfold ret in H. injection H as <- _. split; reflexivity.
    + intros Hq. unfold workflow_handler in H.
      assert (Hq1 : quiet_callback (callback c1)) by (rewrite Hcb1; exact Hq).
      destruct (fail_quiet (s2p "Workflow execution failed: " ++ exn_msg e) c1 Hq1)
        as (c2 & Efail & _ & Hst & _).
      erewrite bind_ok in H by exact Efail.
      unfold ret in H. injection H as <- <-.
      eexists. split; [reflexivity|]. split; [reflexivity|exact Hst].
  - destruct (keeps_order_body registry definition _ _ _ Ebody Hord0) as (Hne' & _).
    congruence.
Qed.

(** ** An observer that does not raise is transparent *)

Lemma transparent_ret {A} (a : A) : transparent (ret a).
Proof. intros c _. split; reflexivity. Qed.

Lemma transparent_throw {A} e : transparent (@throw A e).
Proof. intros c _. split; reflexivity. Qed.

Lemma transparent_lift {A} (r : exn + A) : transparent (lift r).
Proof. destruct r; [apply transparent_throw|apply transparent_ret]. Qed.

Lemma transparent_bind {A B} (m : M A) (f : A -> M B) :
  transparent m -> (forall a, transparent (f a)) -> transparent (bind m f).
Proof.
  intros Hm Hf c Hq. destruct (Hm c Hq) as [E1 E2].
  unfold bind. rewrite E1. destruct (m c) as [[a|e|] c1]; simpl in *.
  - assert (Hq1 : quiet_callback (callback c1)) by now rewrite E2.
    destruct (Hf a c1 Hq1) as [E3 E4]. split; [exact E3|now rewrite E4].
  - now split.
  - now split.
Qed.

Lemma transparent_try {A} (m : M A) h :
  transparent m -> (forall e, transparent (h e)) -> transparent (try_except m h).
Proof.
  intros Hm Hh c Hq. destruct (Hm c Hq) as [E1 E2].
  unfold try_except. rewrite E1. destruct (m c) as [[a|e|] c1]; simpl in *.
  - now split.
  - assert (Hq1 : quiet_callback (callback c1)) by now rewrite E2.
    destruct (Hh e c1 Hq1) as [E3 E4]. split; [exact E3|now rewrite E4].
  - now split.
Qed.

Lemma transparent_modify f :
  (forall c, f (strip_observer c) = strip_observer (f c) /\ callback (f c) = callback c) ->
  transparent (modify f).
Proof. intros H c _. unfold modify. simpl. destruct (H c) as [E1 E2]. now rewrite E1. Qed.

Lemma strip_deliver ev c : strip_observer (deliver ev c) = strip_observer c.
Proof. unfold deliver. now destruct (callback c). Qed.

Lemma transparent_call_callback (ev : ExecutionContext -> event) :
  (forall c, ev (strip_observer c) = ev c) ->
  transparent (fun c => call_callback (ev c) c).
Proof.
  intros Hev c Hq. cbv beta. rewrite (call_callback_quiet _ c Hq). simpl.
  rewrite strip_deliver, Hev. split; [reflexivity|].
  apply deliver_fields.
Qed.

Lemma transparent_add_log level message node_id metadata :
  transparent (add_log level message node_id metadata).
Proof.
  intros c Hq. unfold add_log.
  rewrite !call_callback_quiet by first [exact Hq | exact I]. simpl.
  rewrite strip_deliver. split; [reflexivity|].
  now rewrite (proj1 (deliver_fields _ _)).
Qed.

Lemma transparent_set_node_status node_id st : transparent (set_node_status node_id st).
Proof.
  unfold set_node_status. apply transparent_bind.
  - apply transparent_modify. intros c. now split.
  - intros _. apply (transparent_call_callback
      (fun c => EvNodeStatus (execution_id c) node_id st)). reflexivity.
Qed.

Lemma transparent_set_node_output node_id output :
  transparent (set_node_output node_id output).
Proof. apply transparent_modify. intros c. now split. Qed.

Lemma transparent_interp {A} (p : prog A) : transparent (interp p).
Proof.
  induction p as [a|e|l m n md next IH on_raise _]; simpl.
  - apply transparent_ret.
  - apply transparent_throw.
  - intros c Hq. destruct (transparent_add_log l m n md c Hq) as [E1 E2].
    rewrite E1.
    destruct (add_log_quiet l m n md c Hq) as (c1 & E & _).
    rewrite E in *. simpl in *.
    rewrite <- E2. apply IH. now rewrite E2.
Qed.

Lemma transparent_run_body ex node_id node_type node_config :
  transparent (run_body ex node_id node_type node_config).
Proof.
  unfold run_body.
  apply transparent_bind; [apply transparent_set_node_status|intros _].
  apply transparent_bind; [apply transparent_add_log|intros _].
  apply transparent_bind; [apply transparent_lift|intros valid].
  apply transparent_bind;
    [destruct valid; [apply transparent_ret|apply transparent_throw]|intros _].
  apply transparent_bind; [intros c _; now split|intros resolved].
  apply transparent_bind.
  { intros c Hq.
    apply (transparent_interp (execute ex resolved (view c)) (record (TExecute node_id) c)).
    exact Hq. }
  intros result.
  apply transparent_bind; [apply transparent_set_node_status|intros _].
  apply transparent_bind.
  { destruct (bool_decide _).
    - apply transparent_bind; [apply transparent_set_node_output|intros _].
      apply transparent_add_log.
    - apply transparent_add_log. }
  intros _.
  apply transparent_bind; [apply transparent_modify; intros c; now split|intros _].
  apply transparent_ret.
Qed.

Lemma transparent_run_handler node_id e : transparent (run_handler node_id e).
Proof.
  unfold run_handler.
  apply transparent_bind; [apply transparent_set_node_status|intros _].
  apply transparent_bind; [apply transparent_add_log|intros _].
  apply transparent_bind; [apply transparent_modify; intros c; now split|intros _].
  apply transparent_ret.
Qed.

Lemma transparent_run ex node_id node_type node_config :
  transparent (run ex node_id node_type node_config).
Proof.
  apply transparent_try; [apply transparent_run_body|apply transparent_run_handler].
Qed.

Lemma transparent_execute_node registry node : transparent (_execute_node registry node).
Proof.
  unfold _execute_node.
  apply transparent_bind; [apply transparent_modify; intros c; now split|intros _].
  destruct (registry (fn_type node)) as [cls|]; [|apply transparent_throw].
  apply transparent_bind; [apply transparent_lift|intros ex].
  apply transparent_run.
Qed.

Lemma transparent_gather registry tasks : transparent (gather registry tasks).
Proof.
  induction tasks as [|node rest IH]; [apply transparent_ret|].
  intros c Hq. cbn [gather].
  destruct (transparent_execute_node registry node c Hq) as [E1 E2].
  rewrite E1. destruct (_execute_node registry node c) as [r c1]. simpl in E2 |- *.
  assert (Hq1 : quiet_callback (callback c1)) by now rewrite E2.
  destruct (IH c1 Hq1) as [E3 E4].
  destruct r as [x|e|]; simpl; [| |now split].
  - rewrite E3. destruct (gather registry rest c1) as [[results|e|] c2];
      simpl in *; split; congruence.
  - rewrite E3. destruct (gather registry rest c1) as [[results|e'|] c2];
      simpl in *; split; congruence.
Qed.

Lemma transparent_waves fuel registry graph nodes s :
  transparent (waves fuel registry graph nodes s).
Proof.
  revert s. induction fuel as [|fuel IH]; intros s.
  - cbn [waves]. destruct (ready_nodes s); [apply transparent_ret|].
    intros c _. now split.
  - cbn [waves]. destruct (ready_nodes s) eqn:E; [apply transparent_ret|].
    apply transparent_bind; [apply transparent_lift|intros collected].
    apply transparent_bind; [apply transparent_gather|intros results].
    apply transparent_bind; [apply transparent_lift|intros s'].
    apply IH.
Qed.

Lemma transparent_execute_graph registry graph nodes :
  transparent (_execute_graph registry graph nodes).
Proof.
  unfold _execute_graph.
  destruct (zero_keys (initial_in_degree graph)); [apply transparent_throw|].
  apply transparent_bind; [apply transparent_waves|intros s].
  destruct (negb _); [apply transparent_throw|].
  destruct (is_truthy_id _); intros c _; now split.
Qed.

Lemma transparent_start : transparent start.
Proof.
  unfold start.
  apply transparent_bind; [apply transparent_modify; intros c; now split|intros _].
  apply transparent_bind; [apply transparent_add_log|intros _].
  apply (transparent_call_callback
           (fun c => EvStatus (execution_id c) (s2p "running") None None)). reflexivity.
Qed.

Lemma transparent_complete output_data : transparent (complete output_data).
Proof.
  unfold complete.
  apply transparent_bind; [apply transparent_modify; intros c; now split|intros _].
  apply transparent_bind; [apply transparent_add_log|intros _].
  apply (transparent_call_callback
           (fun c => EvStatus (execution_id c) (s2p "completed") (Some output_data) None)).
  reflexivity.
Qed.

Lemma transparent_fail error_msg : transparent (fail error_msg).
Proof.
  unfold fail.
  apply transparent_bind; [apply transparent_modify; intros c; now split|intros _].
  apply transparent_bind; [apply transparent_add_log|intros _].
  apply (transparent_call_callback
           (fun c => EvStatus (execution_id c) (s2p "failed") None (Some error_msg))).
  reflexivity.
Qed.

Lemma transparent_workflow_body registry definition :
  transparent (workflow_body registry definition).
Proof.
  unfold workflow_body.
  apply transparent_bind; [apply transparent_start|intros _].
  apply transparent_bind.
  { unfold _validate_graph. destruct (_has_cycle _);
      [apply transparent_throw|apply transparent_ret]. }
  intros _.
  apply transparent_bind; [apply transparent_execute_graph|intros output_data].
  apply transparent_bind; [apply transparent_complete|intros _].
  intros c _. now split.
Qed.

Lemma transparent_workflow_handler e : transparent (workflow_handler e).
Proof.
  unfold workflow_handler.
  apply transparent_bind; [apply transparent_fail|intros _].
  intros c _. now split.
Qed.

(** ** What an installed observer is told *)

Lemma preserves_ret {A} I (a : A) : preserves I (ret a).
Proof. intros c r c' H. unfold ret in H. now inversion H. Qed.

Lemma preserves_throw {A} I e : preserves I (@throw A e).
Proof. intros c r c' H. unfold throw in H. now inversion H. Qed.

Lemma preserves_lift {A} I (r : exn + A) : preserves I (lift r).
Proof. destruct r; [apply preserves_throw|apply preserves_ret]. Qed.

Lemma preserves_reader {A} I (g : ExecutionContext -> A) :
  preserves I (fun c => ret (g c) c).
Proof. intros c r c' H. unfold ret in H. now inversion H. Qed.

Lemma preserves_bind {A B} I (m : M A) (f : A -> M B) :
  preserves I m -> (forall a, preserves I (f a)) -> preserves I (bind m f).
Proof.
  intros Hm Hf c r c' H Hc. unfold bind in H.
  destruct (m c) as [[a|e|] c1] eqn:E.
  - eapply Hf; [exact H|]. eapply Hm; eauto.
  - inversion H; subst. eapply Hm; eauto.
  - inversion H; subst. eapply Hm; eauto.
Qed.

Lemma preserves_try {A} I (m : M A) h :
  preserves I m -> (forall e, preserves I (h e)) -> preserves I (try_except m h).
Proof.
  intros Hm Hh c r c' H Hc. unfold try_except in H.
  destruct (m c) as [[a|e|] c1] eqn:E.
  - inversion H; subst. eapply Hm; eauto.
  - eapply Hh; [exact H|]. eapply Hm; eauto.
  - inversion H; subst. eapply Hm; eauto.
Qed.

Lemma all_emitted_silent f eid g :
  (forall c, callback (g c) = callback c /\ execution_id (g c) = execution_id c
             /\ flat_map (event_of eid) (trace (g c)) = flat_map (event_of eid) (trace c)
             /\ delivered (g c) = delivered c /\ logs (g c) = logs c
             /\ node_statuses (g c) = node_statuses c) ->
  preserves (all_emitted f eid) (modify g).
Proof.
  intros Hg c r c' H (H1 & H2 & H3 & H4 & H5). unfold modify in H. inversion H; subst.
  destruct (Hg c) as (G1 & G2 & G3 & G4 & G5 & G6).
  unfold all_emitted. rewrite G1, G2, G3, G4, G5, G6. auto.
Qed.

Ltac silent :=
  apply all_emitted_silent; intros ?; repeat split; simpl;
  rewrite ?flat_map_app; simpl; rewrite ?app_nil_r; reflexivity.

Lemma all_emitted_status_event f eid (ev : ExecutionContext -> event) :
  (forall c, is_node_or_log (ev c) = false) ->
  preserves (all_emitted f eid) (fun c => call_callback (ev c) c).
Proof.
  intros Hev c r c' H (H1 & H2 & H3 & H4 & H5).
  assert (Hlog : is_log_event (ev c) = false)
    by (specialize (Hev c); destruct (ev c); simpl in *; congruence).
  unfold call_callback in H. rewrite H1 in H.
  assert (c' = set_delivered c (delivered c ++ [ev c]))
    by (destruct (f (delivered c) (ev c)); now inversion H).
  subst c'. unfold all_emitted; simpl.
  rewrite !List.filter_app; simpl. rewrite Hev, Hlog, !app_nil_r.
  repeat split; auto. intros n s Hn. apply in_or_app. left. now apply H5.
Qed.

Lemma all_emitted_add_log f eid level message node_id metadata :
  preserves (all_emitted f eid) (add_log level message node_id metadata).
Proof.
  intros c r c' H (H1 & H2 & H3 & H4 & H5).
  unfold add_log, call_callback in H. simpl in H. rewrite H1 in H.
  match type of H with
  | match ?x with _ => _ end = _ => destruct x
  end; inversion H; subst; clear H;
  unfold all_emitted; simpl;
  rewrite !List.filter_app, flat_map_app, List.map_app; simpl;
  rewrite H3, H4; (repeat split; auto);
  intros n s Hn; apply in_or_app; left; now apply H5.
Qed.

Lemma all_emitted_set_node_status f eid node_id st :
  preserves (all_emitted f eid) (set_node_status node_id st).
Proof.
  intros c r c' H (H1 & H2 & H3 & H4 & H5).
  unfold set_node_status, bind, modify, call_callback in H. simpl in H. rewrite H1 in H.
  match type of H with
  | match ?x with _ => _ end = _ => destruct x
  end; inversion H; subst; clear H;
  unfold all_emitted; simpl;
  rewrite !List.filter_app, flat_map_app; simpl;
  rewrite H3, H4, app_nil_r; (repeat split; auto);
  intros n s Hn; rewrite dict_get_set in Hn; apply in_or_app;
  (destruct (decide (node_id = n)) as [->|];
   [inversion Hn; subst; right; now left|left; now apply H5]).
Qed.

Lemma all_emitted_set_node_output f eid node_id output :
  preserves (all_emitted f eid) (set_node_output node_id output).
Proof. unfold set_node_output. silent. Qed.

Lemma all_emitted_interp {A} f eid (p : prog A) :
  preserves (all_emitted f eid) (interp p).
Proof.
  induction p as [a|e|l m n md next IH on_raise IHr]; simpl.
  - apply preserves_ret.
  - apply preserves_throw.
  - intros c r c' H Hc.
    destruct (add_log l m n md c) as [[[]|e|] c1] eqn:E.
    + eapply IH; [exact H|]. eapply all_emitted_add_log; eauto.
    + eapply IHr; [exact H|]. eapply all_emitted_add_log; eauto.
    + inversion H; subst. eapply all_emitted_add_log; eauto.
Qed.

Lemma all_emitted_run f eid ex node_id node_type node_config :
  preserves (all_emitted f eid) (run ex node_id node_type node_config).
Proof.
  apply preserves_try.
  - unfold run_body.
    apply preserves_bind; [apply all_emitted_set_node_status|intros _].
    apply preserves_bind; [apply all_emitted_add_log|intros _].
    apply preserves_bind; [apply preserves_lift|intros valid].
    apply preserves_bind;
      [destruct valid; [apply preserves_ret|apply preserves_throw]|intros _].
    apply preserves_bind; [apply preserves_reader|intros resolved].
    apply preserves_bind.
    { intros c r c' H Hc. cbv beta in H.
      eapply all_emitted_interp; [exact H|].
      eapply (all_emitted_silent f eid (record (TExecute node_id)));
        [|reflexivity|exact Hc].
      intros ?; repeat split; simpl; rewrite ?flat_map_app; simpl;
        rewrite ?app_nil_r; reflexivity. }
    intros result.
    apply preserves_bind; [apply all_emitted_set_node_status|intros _].
    apply preserves_bind.
    { destruct (bool_decide _).
      - apply preserves_bind; [apply all_emitted_set_node_output|intros _].
        apply all_emitted_add_log.
      - apply all_emitted_add_log. }
    intros _.
    apply preserves_bind; [silent|intros _]. apply preserves_ret.
  - intros e. unfold run_handler.
    apply preserves_bind; [apply all_emitted_set_node_status|intros _].
    apply preserves_bind; [apply all_emitted_add_log|intros _].
    apply preserves_bind; [silent|intros _]. apply preserves_ret.
Qed.

Lemma all_emitted_execute_node f eid registry node :
  preserves (all_emitted f eid) (_execute_node registry node).
Proof.
  unfold _execute_node.
  apply preserves_bind; [silent|intros _].
  destruct (registry (fn_type node)) as [cls|]; [|apply preserves_throw].
  apply preserves_bind; [apply preserves_lift|intros ex].
  apply all_emitted_run.
Qed.

Lemma all_emitted_gather f eid registry tasks :
  preserves (all_emitted f eid) (gather registry tasks).
Proof.
  induction tasks as [|node rest IH]; [apply preserves_ret|].
  intros c r c' H Hc. cbn [gather] in H.
  destruct (_execute_node registry node c) as [r1 c1] eqn:E1.
  assert (Hc1 : all_emitted f eid c1) by (eapply all_emitted_execute_node; eauto).
  destruct (gather registry rest c1) as [r2 c2] eqn:E2.
  assert (Hc2 : all_emitted f eid c2) by (eapply IH; eauto).
  destruct r1 as [x|e|]; [| |now inversion H; subst];
    destruct r2 as [results|e'|]; now inversion H; subst.
Qed.

Lemma all_emitted_waves f eid fuel registry graph nodes s :
  preserves (all_emitted f eid) (waves fuel registry graph nodes s).
Proof.
  revert s. induction fuel as [|fuel IH]; intros s; cbn [waves];
    (destruct (ready_nodes s); [apply preserves_ret|]).
  - intros c r c' H. now inversion H.
  - apply preserves_bind; [apply preserves_lift|intros collected].
    apply preserves_bind; [apply all_emitted_gather|intros results].
    apply preserves_bind; [apply preserves_lift|intros s'].
    apply IH.
Qed.

Lemma all_emitted_execute_graph f eid registry graph nodes :
  preserves (all_emitted f eid) (_execute_graph registry graph nodes).
Proof.
  unfold _execute_graph.
  destruct (zero_keys (initial_in_degree graph)); [apply preserves_throw|].
  apply preserves_bind; [apply all_emitted_waves|intros s].
  destruct (negb _); [apply preserves_throw|].
  destruct (is_truthy_id _); apply preserves_reader.
Qed.

Lemma all_emitted_workflow f eid registry definition :
  preserves (all_emitted f eid)
    (try_except (workflow_body registry definition) workflow_handler).
Proof.
  apply preserves_try.
  - unfold workflow_body.
    apply preserves_bind.
    { unfold start.
      apply preserves_bind; [silent|intros _].
      apply preserves_bind; [apply all_emitted_add_log|intros _].
      apply (all_emitted_status_event f eid
               (fun c => EvStatus (execution_id c) (s2p "running") None None)).
      reflexivity. }
    intros _. apply preserves_bind.
    { unfold _validate_graph. destruct (_has_cycle _);
        [apply preserves_throw|apply preserves_ret]. }
    intros _.
    apply preserves_bind; [apply all_emitted_execute_graph|intros output_data].
    apply preserves_bind; [|intros _; apply preserves_reader].
    unfold complete.
    apply preserves_bind; [silent|intros _].
    apply preserves_bind; [apply all_emitted_add_log|intros _].
    apply (all_emitted_status_event f eid
             (fun c => EvStatus (execution_id c) (s2p "completed") (Some output_data) None)).
    reflexivity.
  - intros e. unfold workflow_handler.
    apply preserves_bind; [|intros _; apply preserves_reader].
    unfold fail.
    apply preserves_bind; [silent|intros _].
    apply preserves_bind; [apply all_emitted_add_log|intros _].
    apply (all_emitted_status_event f eid
             (fun c => EvStatus (execution_id c) (s2p "failed") None
                         (Some (s2p "Workflow execution failed: " ++ exn_msg e)))).
    reflexivity.
Qed.

(** C2 (amended).  With an observer callback installed, every node status
    change and every log entry of a run calls it with an event, in order
    (the log events delivered are the stored log, and every stored node
    status was delivered).  A callback that never raises has no effect on
    the run: with no callback the result is the same and the context is the
    same apart from the callback itself.  The context does not contain a
    failure of the callback: [set_node_status] and [add_log] raise the
    callback's error to their caller, after the status or the log entry has
    been stored. *)
Theorem observer_is_told_and_is_transparent :
  forall registry eid wid definition input_data f r c,
    execute_workflow registry eid wid definition input_data (Some f) = (r, c) ->
    (flat_map (event_of eid) (trace c) = List.filter is_node_or_log (delivered c)
     /\ List.map EvLog (logs c) = List.filter is_log_event (delivered c)
     /\ (forall node_id st, dict_get (node_statuses c) node_id = Some st ->
           In (EvNodeStatus eid node_id st) (delivered c)))
    /\ ((forall history ev, f history ev = None) ->
        execute_workflow registry eid wid definition input_data None
        = (r, strip_observer c))
    /\ (forall c0 node_id st e,
          callback c0 = Some f ->
          f (delivered c0) (EvNodeStatus (execution_id c0) node_id st) = Some e ->
          exists c1, set_node_status node_id st c0 = (Raised e, c1)
                     /\ dict_get (node_statuses c1) node_id = Some st)
    /\ (forall c0 level message node_id metadata e,
          callback c0 = Some f ->
          f (delivered c0)
            (EvLog (LogEntry (execution_id c0) level message node_id metadata)) = Some e ->
          exists c1, add_log level message node_id metadata c0 = (Raised e, c1)
                     /\ logs c1 = logs c0
                          ++ [LogEntry (execution_id c0) level message node_id metadata]).
Proof.
  intros registry eid wid definition input_data f r c H.
  split; [|split; [|split]].
  - unfold execute_workflow in H.
    destruct (all_emitted_workflow f eid registry definition _ _ _ H)
      as (_ & _ & H3 & H4 & H5); [|now repeat split].
    unfold all_emitted, new_context; simpl. repeat split; auto. intros ? ?; discriminate.
  - intros Hq. unfold execute_workflow in *.
    destruct (transparent_try _ _ (transparent_workflow_body registry definition)
                transparent_workflow_handler
                (new_context eid wid input_data (Some f)) Hq) as [E _].
    rewrite H in E. exact E.
  - intros c0 node_id st e Hcb Hf.
    unfold set_node_status, bind, modify, call_callback. simpl.
    rewrite Hcb, Hf. eexists; split; [reflexivity|]. simpl.
    rewrite dict_get_set. now destruct (decide (node_id = node_id)).
  - intros c0 level message node_id metadata e Hcb Hf.
    unfold add_log, call_callback. simpl. rewrite Hcb, Hf.
    eexists; split; reflexivity.
Qed.

(** ** The condition node *)


Lemma add_log_quiet_logs level message node_id metadata c :
  quiet_callback (callback c) ->
  exists c', add_log level message node_id metadata c = (Ok tt, c')
    /\ callback c' = callback c
    /\ logs c' = logs c ++ [LogEntry (execution_id c) level message node_id metadata].
Proof.
  intros Hq. unfold add_log. rewrite call_callback_quiet by exact Hq.
  eexists. split; [reflexivity|].
  destruct (deliver_fields
              (EvLog (LogEntry (execution_id c) level message node_id metadata))
              (record (TLog (LogEntry (execution_id c) level message node_id metadata))
                 (set_logs c (logs c
                    ++ [LogEntry (execution_id c) level message node_id metadata]))))
    as (E1 & _ & _ & _ & E5 & _).
  rewrite E1, E5. split; reflexivity.
Qed.






(** ** The execution service *)

Ltac status_clash :=
  match goal with
  | H : s2p _ = s2p _ |- _ => vm_compute in H; discriminate H
  | H : s2p _ <> s2p _ |- _ => exfalso; apply H; reflexivity
  end.

Ltac status_cases H :=
  unfold live_statuses in H; simpl in H;
  repeat match type of H with
         | _ \/ _ => destruct H as [H|H]
         | False => destruct H
         end.

Lemma service_inv_submitted execution_id workflow_id :
  service_inv (submitted execution_id workflow_id).
Proof.
  unfold service_inv, submitted, live_statuses; simpl. split; [|repeat split]. tauto.
Qed.

Lemma pause_execution_status e :
  (rec_status e = s2p "running"
   /\ rec_status (snd (pause_execution e)) = s2p "paused")
  \/ (rec_status e <> s2p "running" /\ pause_execution e = (false, e)).
Proof.
  unfold pause_execution. case_bool_decide as H; [right; now split|left].
  split; [|reflexivity]. destruct (decide (rec_status e = s2p "running")); tauto.
Qed.

Lemma resume_execution_status e :
  (rec_status e = s2p "paused"
   /\ rec_status (snd (resume_execution e)) = s2p "running")
  \/ (rec_status e <> s2p "paused" /\ resume_execution e = (false, e)).
Proof.
  unfold resume_execution. case_bool_decide as H; [right; now split|left].
  split; [|reflexivity]. destruct (decide (rec_status e = s2p "paused")); tauto.
Qed.

Lemma pause_execution_rest e :
  rec_task (snd (pause_execution e)) = rec_task e
  /\ rec_waiting_stops (snd (pause_execution e)) = rec_waiting_stops e
  /\ ctl_stopped (snd (pause_execution e)) = ctl_stopped e.
Proof. unfold pause_execution. case_bool_decide; repeat split. Qed.

Lemma resume_execution_rest e :
  rec_task (snd (resume_execution e)) = rec_task e
  /\ rec_waiting_stops (snd (resume_execution e)) = rec_waiting_stops e
  /\ ctl_stopped (snd (resume_execution e)) = ctl_stopped e.
Proof. unfold resume_execution. case_bool_decide; repeat split. Qed.

Lemma service_inv_act a e e' :
  service_inv e -> act a e = Some e' -> service_inv e'.
Proof.
  intros [Hall Htask] H. unfold act in H.
  destruct a.
  - (* the task begins *)
    destruct (rec_task e) eqn:Et; inversion H; subst; clear H.
    unfold service_inv, task_begin, live_statuses; simpl. tauto.
  - (* the engine returns *)
    destruct (rec_task e) eqn:Et; inversion H; subst; clear H.
    destruct Htask as (_ & Hw & Hs).
    unfold service_inv, task_return, live_statuses. rewrite Hs.
    case_bool_decide; simpl; (split; [tauto|intros; congruence]).
  - (* the engine raises *)
    destruct (rec_task e) eqn:Et; inversion H; subst; clear H.
    destruct Htask as (_ & Hw & _).
    unfold service_inv, task_raise, live_statuses; simpl.
    split; [tauto|intros; congruence].
  - (* the cancellation arrives *)
    destruct (rec_task e) eqn:Et; inversion H; subst; clear H.
    unfold service_inv, task_cancelled; simpl. split; [exact Hall|]. intros _. exact Htask.
  - (* stop is called *)
    inversion H; subst; clear H.
    unfold service_inv, stop_execution, stop_finish, live_statuses; simpl.
    destruct (rec_task e) eqn:Et; simpl.
    + destruct Htask as (Hs & _). rewrite Hs. tauto.
    + destruct Htask as (Hs & _). destruct Hs as [Hs|Hs]; rewrite Hs; tauto.
    + split; [exact Hall|exact Htask].
    + rewrite Et. tauto.
  - (* a stop call resumes *)
    destruct (rec_task e) eqn:Et; try discriminate.
    destruct (rec_waiting_stops e); inversion H; subst; clear H.
    unfold service_inv, stop_execution_resumed, stop_finish, live_statuses; simpl.
    rewrite Et. tauto.
  - (* pause *)
    assert (e' = snd (pause_execution e)) by (destruct (rec_task e); now inversion H).
    subst e'. clear H.
    destruct (pause_execution_rest e) as (R1 & R2 & R3).
    unfold service_inv. rewrite R1, R2, R3.
    destruct (pause_execution_status e) as [[Hs Hs']|[_ Hsame]].
    + rewrite Hs'. rewrite Hs in *. unfold live_statuses in *. simpl.
      split; [tauto|].
      destruct (rec_task e); try tauto.
      destruct Htask as (Hp & _). status_clash.
    + rewrite Hsame. simpl. now split.
  - (* resume *)
    assert (e' = snd (resume_execution e)) by (destruct (rec_task e); now inversion H).
    subst e'. clear H.
    destruct (resume_execution_rest e) as (R1 & R2 & R3).
    unfold service_inv. rewrite R1, R2, R3.
    destruct (resume_execution_status e) as [[Hs Hs']|[_ Hsame]].
    + rewrite Hs'. rewrite Hs in *. unfold live_statuses in *. simpl.
      split; [tauto|].
      destruct (rec_task e); try tauto.
      destruct Htask as (Hp & _). status_clash.
    + rewrite Hsame. simpl. now split.
Qed.

Lemma service_inv_acts l :
  forall e e', service_inv e -> acts l e = Some e' -> service_inv e'.
Proof.
  induction l as [|a l IH]; intros e e' Hinv H; simpl in H.
  - now inversion H; subst.
  - destruct (act a e) as [e1|] eqn:E; [|discriminate].
    eapply IH; [|exact H]. eapply service_inv_act; eauto.
Qed.

(** C9 (amended).  For the record of an execution whose id was submitted
    once, every step of the service (the task beginning, the engine
    returning or raising, a cancellation arriving, stop, pause, resume)
    other than a stop call on a record already completed or failed either
    leaves the status as it is or changes it along pending -> running |
    stopped, running -> completed | failed | stopped | paused, paused ->
    running | stopped | completed | failed; and a record whose status is
    completed, failed or stopped refuses pause and resume: they return
    False and change nothing. *)
Theorem status_moves_along_run_states :
  forall execution_id workflow_id history e a e',
    acts history (submitted execution_id workflow_id) = Some e ->
    act a e = Some e' ->
    (a = Stop -> rec_status e <> s2p "completed" /\ rec_status e <> s2p "failed") ->
    (rec_status e' = rec_status e \/ In (rec_status e, rec_status e') run_state_edges)
    /\ (In (rec_status e) [s2p "completed"; s2p "failed"; s2p "stopped"] ->
        pause_execution e = (false, e) /\ resume_execution e = (false, e)).
Proof.
  intros execution_id workflow_id history e a e' Hreach Hact Hstop.
  pose proof (service_inv_acts history _ _
                (service_inv_submitted execution_id workflow_id) Hreach) as [Hall Htask].
  split.
  - unfold act in Hact. destruct a.
    + destruct (rec_task e) eqn:Et; inversion Hact; subst; clear Hact.
      destruct Htask as (Hs & _). right. simpl. rewrite Hs.
      unfold run_state_edges; simpl; tauto.
    + destruct (rec_task e) eqn:Et; inversion Hact; subst; clear Hact.
      destruct Htask as (Hs & _ & Hf). right. unfold task_return. rewrite Hf.
      unfold run_state_edges.
      case_bool_decide; simpl; destruct Hs as [Hs|Hs]; rewrite Hs; simpl; tauto.
    + destruct (rec_task e) eqn:Et; inversion Hact; subst; clear Hact.
      destruct Htask as (Hs & _). right. unfold run_state_edges.
      destruct Hs as [Hs|Hs]; rewrite Hs; simpl; tauto.
    + destruct (rec_task e) eqn:Et; inversion Hact; subst; clear Hact. now left.
    + inversion Hact; subst; clear Hact.
      destruct (Hstop eq_refl) as [Hc Hf].
      unfold stop_execution, stop_finish; simpl.
      destruct (rec_task e) eqn:Et; simpl; try (now left).
      unfold run_state_edges. status_cases Hall; rewrite <- Hall in *; simpl; tauto.
    + destruct (rec_task e) eqn:Et; try discriminate.
      destruct (rec_waiting_stops e) eqn:Ew; inversion Hact; subst; clear Hact.
      assert (Hlive : In (rec_status e) live_statuses) by (apply Htask; lia).
      unfold stop_execution_resumed, stop_finish, run_state_edges; simpl.
      status_cases Hlive; rewrite <- Hlive; simpl; tauto.
    + assert (e' = snd (pause_execution e)) by (destruct (rec_task e); now inversion Hact).
      subst e'.
      destruct (pause_execution_status e) as [[Hs Hs']|[_ Hsame]].
      * right. rewrite Hs, Hs'. unfold run_state_edges; simpl; tauto.
      * left. now rewrite Hsame.
    + assert (e' = snd (resume_execution e)) by (destruct (rec_task e); now inversion Hact).
      subst e'.
      destruct (resume_execution_status e) as [[Hs Hs']|[_ Hsame]].
      * right. rewrite Hs, Hs'. unfold run_state_edges; simpl; tauto.
      * left. now rewrite Hsame.
  - intros Hterm.
    destruct (pause_execution_status e) as [[Hs _]|[_ Hp]];
      [exfalso; rewrite Hs in Hterm; status_cases Hterm; status_clash|].
    destruct (resume_execution_status e) as [[Hs _]|[_ Hr]];
      [exfalso; rewrite Hs in Hterm; status_cases Hterm; status_clash|].
    now split.
Qed.

(** ** What the context operations leave alone *)

Lemma dict_set_set {V} (d : dict V) k v v' :
  dict_set (dict_set d k v) k v' = dict_set d k v'.
Proof.
  induction d as [|[k0 v0] d IH]; simpl.
  - destruct (decide (k = k)); [reflexivity|congruence].
  - destruct (decide (k0 = k)); simpl.
    + destruct (decide (k = k)); [reflexivity|congruence].
    + destruct (decide (k0 = k)); [congruence|]. now rewrite IH.
Qed.

Lemma same_data_refl c : same_data c c.
Proof. repeat split. Qed.

Lemma same_data_trans c1 c2 c3 : same_data c1 c2 -> same_data c2 c3 -> same_data c1 c3.
Proof.
  unfold same_data. intros (A1 & A2 & A3 & A4 & A5 & A6 & A7 & A8 & A9)
                           (B1 & B2 & B3 & B4 & B5 & B6 & B7 & B8 & B9).
  repeat split; congruence.
Qed.

Lemma call_callback_frame ev c r c' :
  call_callback ev c = (r, c') -> r <> OutOfFuel /\ same_data c c'.
Proof.
  unfold call_callback. destruct (callback c) as [f|] eqn:E.
  - destruct (f (delivered c) ev); intros H; inversion H; subst;
      (split; [discriminate|]); unfold same_data; simpl; rewrite E; repeat split.
  - intros H; inversion H; subst. split; [discriminate|apply same_data_refl].
Qed.

Lemma add_log_frame level message node_id metadata c r c' :
  add_log level message node_id metadata c = (r, c') -> r <> OutOfFuel /\ same_data c c'.
Proof.
  unfold add_log. intros H. apply call_callback_frame in H as [Hne Hs].
  split; [exact Hne|]. exact Hs.
Qed.

Lemma interp_frame {A} (p : prog A) :
  forall c r c', interp p c = (r, c') -> r <> OutOfFuel /\ same_data c c'.
Proof.
  induction p as [a|e|l m n md next IH on_raise IHr]; intros c r c' H; simpl in H.
  - inversion H; subst. split; [discriminate|apply same_data_refl].
  - inversion H; subst. split; [discriminate|apply same_data_refl].
  - destruct (add_log l m n md c) as [[[]|e|] c1] eqn:E;
      destruct (add_log_frame _ _ _ _ _ _ _ E) as [Hne Hs].
    + destruct (IH _ _ _ H) as [Hne' Hs']. split; [exact Hne'|].
      eapply same_data_trans; eauto.
    + destruct (IHr e _ _ _ H) as [Hne' Hs']. split; [exact Hne'|].
      eapply same_data_trans; eauto.
    + congruence.
Qed.

Lemma set_node_status_quiet node_id st c :
  quiet_callback (callback c) ->
  exists c', set_node_status node_id st c = (Ok tt, c')
    /\ callback c' = callback c
    /\ node_statuses c' = dict_set (node_statuses c) node_id st
    /\ variables c' = variables c /\ node_outputs c' = node_outputs c
    /\ trace c' = trace c ++ [TStatus node_id st].
Proof.
  intros Hq. unfold set_node_status, bind, modify.
  rewrite call_callback_quiet by exact Hq. eexists. split; [reflexivity|].
  match goal with
  | |- context [deliver ?ev ?x] =>
      destruct (deliver_fields ev x) as (E1 & _ & _ & E4 & _ & E6 & E7 & E8 & _)
  end.
  rewrite E1, E4, E6, E7, E8. repeat split.
Qed.

Lemma add_log_quiet_frame level message node_id metadata c :
  quiet_callback (callback c) ->
  exists c', add_log level message node_id metadata c = (Ok tt, c')
    /\ same_data c c'
    /\ trace c' = trace c ++ [TLog (LogEntry (execution_id c) level message node_id metadata)].
Proof.
  intros Hq. destruct (add_log_quiet level message node_id metadata c Hq)
    as (c' & E & _ & _ & _ & Ht).
  exists c'. split; [exact E|]. split; [|exact Ht].
  now apply add_log_frame in E.
Qed.

Lemma dict_get_set_same {V} (d : dict V) k v : dict_get (dict_set d k v) k = Some v.
Proof. rewrite dict_get_set. destruct (decide (k = k)); [reflexivity|congruence]. Qed.

Lemma dict_get_set_other {V} (d : dict V) k v k' :
  k <> k' -> dict_get (dict_set d k v) k' = dict_get d k'.
Proof. intros H. rewrite dict_get_set. destruct (decide (k = k')); [congruence|reflexivity]. Qed.

(** ** The lifecycle template under an observer that does not raise *)

Lemma run_handler_quiet node_id e c :
  quiet_callback (callback c) ->
  exists c', run_handler node_id e c
             = (Ok (failed_result node_id (error_message_of e)), c')
    /\ callback c' = callback c
    /\ node_statuses c' = dict_set (node_statuses c) node_id (s2p "failed")
    /\ variables c' = variables c /\ node_outputs c' = node_outputs c
    /\ exists ext, trace c' = trace c ++ ext /\ Forall (fun t => t <> TExecute node_id) ext.
Proof.
  intros Hq. unfold run_handler.
  destruct (set_node_status_quiet node_id (s2p "failed") c Hq)
    as (c1 & E1 & Hcb1 & Hst1 & Hv1 & Ho1 & Ht1).
  rewrite (bind_ok _ _ _ _ _ E1).
  assert (Hq1 : quiet_callback (callback c1)) by now rewrite Hcb1.
  match goal with
  | |- context [add_log ?l ?m ?n ?md] =>
      destruct (add_log_quiet_frame l m n md c1 Hq1) as (c2 & E2 & Hs2 & Ht2)
  end.
  rewrite (bind_ok _ _ _ _ _ E2).
  destruct Hs2 as (S1 & _ & _ & _ & _ & _ & S7 & S8 & S9).
  unfold bind, modify, ret. eexists. split; [reflexivity|]. simpl.
  rewrite S1, S7, S8, S9, Hcb1, Hst1, Hv1, Ho1. repeat split.
  eexists. split.
  - rewrite Ht2, Ht1, <- !app_assoc. reflexivity.
  - repeat constructor; discriminate.
Qed.

(** What [run] does, case by case. *)
Lemma run_quiet_spec ex node_id node_type node_config c :
  quiet_callback (callback c) ->
  exists res c',
    run ex node_id node_type node_config c = (Ok res, c')
    /\ callback c' = callback c
    /\ node_statuses c' = dict_set (node_statuses c) node_id (res_status res)
    /\ (res_status res = s2p "success" ->
          node_outputs c' = dict_set (node_outputs c) node_id (res_output res)
          /\ variables c'
             = dict_set (variables c) (s2p "nodes." ++ node_id) (res_output res))
    /\ (res_status res <> s2p "success" ->
          node_outputs c' = node_outputs c /\ variables c' = variables c)
    /\ (validate_config ex node_config <> inr true ->
          res = failed_result node_id
                  (error_message_of
                     (match validate_config ex node_config with
                      | inl e => e
                      | inr _ => Exn NodeValidationError
                                   (s2p "Invalid configuration for node " ++ node_id)
                      end))
          /\ ~ In (TExecute node_id) (skipn (length (trace c)) (trace c'))).
Proof.
  intros Hq. unfold run, try_except.
  assert (Hfailed : forall e c1,
    callback c1 = callback c ->
    node_statuses c1 = dict_set (node_statuses c) node_id (s2p "running") ->
    variables c1 = variables c -> node_outputs c1 = node_outputs c ->
    (exists ext, trace c1 = trace c ++ ext /\ Forall (fun t => t <> TExecute node_id) ext) ->
    exists c',
      run_handler node_id e c1
      = (Ok (failed_result node_id (error_message_of e)), c')
      /\ callback c' = callback c
      /\ node_statuses c' = dict_set (node_statuses c) node_id (s2p "failed")
      /\ node_outputs c' = node_outputs c /\ variables c' = variables c
      /\ ~ In (TExecute node_id) (skipn (length (trace c)) (trace c'))).
  { intros e c1 Hcb Hst Hv Ho (ext & Ht & Hext).
    assert (Hq1 : quiet_callback (callback c1)) by now rewrite Hcb.
    destruct (run_handler_quiet node_id e c1 Hq1)
      as (c' & E & Hcb' & Hst' & Hv' & Ho' & ext' & Ht' & Hext').
    exists c'. split; [exact E|]. split; [congruence|].
    split.
    { rewrite Hst', Hst. apply dict_set_set. }
    split; [congruence|]. split; [congruence|].
    rewrite Ht', Ht, <- app_assoc, skipn_app, skipn_all, Nat.sub_diag. simpl.
    intros Hin. apply in_app_or in Hin as [Hin|Hin].
    - rewrite List.Forall_forall in Hext. now apply (Hext _ Hin).
    - rewrite List.Forall_forall in Hext'. now apply (Hext' _ Hin). }
  unfold run_body.
  destruct (set_node_status_quiet node_id (s2p "running") c Hq)
    as (c1 & E1 & Hcb1 & Hst1 & Hv1 & Ho1 & Ht1).
  rewrite (bind_ok _ _ _ _ _ E1).
  assert (Hq1 : quiet_callback (callback c1)) by now rewrite Hcb1.
  match goal with
  | |- context [add_log ?l ?m ?n ?md] =>
      destruct (add_log_quiet_frame l m n md c1 Hq1) as (c2 & E2 & Hs2 & Ht2)
  end.
  rewrite (bind_ok _ _ _ _ _ E2).
  destruct Hs2 as (S1 & _ & _ & _ & _ & _ & S7 & S8 & S9).
  assert (Hext2 : exists ext, trace c2 = trace c ++ ext
                              /\ Forall (fun t => t <> TExecute node_id) ext).
  { eexists. split; [rewrite Ht2, Ht1, <- app_assoc; reflexivity|].
    repeat constructor; discriminate. }
  destruct (validate_config ex node_config) as [e|[|]] eqn:Ev.
  - (* validate_config raises *)
    unfold bind at 1. unfold lift at 1. unfold throw at 1.
    destruct (Hfailed e c2) as (c' & E & Hcb' & Hst' & Ho' & Hv' & Hno);
      try congruence.
    exists (failed_result node_id (error_message_of e)), c'.
    split; [exact E|]. split; [exact Hcb'|]. split; [exact Hst'|].
    split; [intros Hs; vm_compute in Hs; discriminate Hs|].
    split; [intros _; now split|]. intros _. now split.
  - (* valid: the executor runs *)
    unfold bind at 1. unfold lift at 1. unfold ret at 1.
    unfold bind at 1. unfold ret at 1.
    unfold bind at 1. unfold ret at 1.
    unfold bind at 1.
    destruct (interp (execute ex (_resolve_config_variables (variables c2) node_config)
                              (view c2)) (record (TExecute node_id) c2))
      as [[result|e|] c3] eqn:E3;
      destruct (interp_frame _ _ _ _ E3) as [Hne3 Hs3]; [| |congruence].
    + destruct Hs3 as (T1 & _ & _ & _ & _ & _ & T7 & T8 & T9). simpl in T1, T7, T8, T9.
      assert (Hq3 : quiet_callback (callback c3)) by (rewrite T1, S1, Hcb1; exact Hq).
      destruct (set_node_status_quiet node_id (res_status result) c3 Hq3)
        as (c4 & E4 & Hcb4 & Hst4 & Hv4 & Ho4 & Ht4).
      rewrite (bind_ok _ _ _ _ _ E4).
      assert (Hq4 : quiet_callback (callback c4)) by now rewrite Hcb4.
      assert (Hst : node_statuses c4
                    = dict_set (node_statuses c) node_id (res_status result)).
      { rewrite Hst4, T9, S9, Hst1. apply dict_set_set. }
      case_bool_decide as Hsucc.
      * destruct (set_node_output node_id (res_output result) c4) as [ro c4'] eqn:Eo.
        unfold set_node_output, modify in Eo. inversion Eo; subst ro c4'. clear Eo.
        match goal with
        | |- context [add_log ?l ?m ?n ?md] =>
            destruct (add_log_quiet_frame l m n md
                        (record (TOutput node_id (res_output result))
                           (set_variables
                              (set_node_outputs c4
                                 (dict_set (node_outputs c4) node_id (res_output result)))
                              (dict_set (variables c4) (s2p "nodes." ++ node_id)
                                 (res_output result)))) Hq4)
              as (c5 & E5 & Hs5 & Ht5)
        end.
        match goal with
        | |- context [bind (bind ?a ?b) ?k c4] =>
            assert (Einner : bind a b c4 = (Ok tt, c5))
              by (unfold bind at 1, set_node_output, modify; exact E5);
            rewrite (bind_ok _ k _ _ _ Einner)
        end.
        destruct Hs5 as (U1 & _ & _ & _ & _ & _ & U7 & U8 & U9). simpl in U1, U7, U8, U9.
        unfold bind, modify, ret. exists result. eexists. split; [reflexivity|]. simpl.
        split; [congruence|]. split; [congruence|].
        split; [intros _; split; congruence|].
        split; [intros Hn; contradiction|]. intros Hn. congruence.
      * match goal with
        | |- context [add_log ?l ?m ?n ?md] =>
            destruct (add_log_quiet_frame l m n md c4 Hq4) as (c5 & E5 & Hs5 & Ht5)
        end.
        rewrite (bind_ok _ _ _ _ _ E5).
        destruct Hs5 as (U1 & _ & _ & _ & _ & _ & U7 & U8 & U9).
        unfold bind, modify, ret. exists result. eexists. split; [reflexivity|]. simpl.
        split; [congruence|]. split; [congruence|].
        split; [intros Hn; contradiction|].
        split; [intros _; split; congruence|]. intros Hn. congruence.
    + (* the executor raises: the handler takes over, after TExecute *)
      destruct Hs3 as (T1 & _ & _ & _ & _ & _ & T7 & T8 & T9). simpl in T1, T7, T8, T9.
      assert (Hq3 : quiet_callback (callback c3)) by (rewrite T1, S1, Hcb1; exact Hq).
      destruct (run_handler_quiet node_id e c3 Hq3)
        as (c' & E & Hcb' & Hst' & Hv' & Ho' & _).
      exists (failed_result node_id (error_message_of e)), c'.
      split; [exact E|]. split; [congruence|].
      split.
      { rewrite Hst', T9, S9, Hst1. apply dict_set_set. }
      split; [intros Hs; vm_compute in Hs; discriminate Hs|].
      split; [intros _; split; congruence|]. intros Hn. congruence.
  - (* validate_config returns False *)
    unfold bind at 1. unfold lift at 1. unfold ret at 1.
    unfold bind at 1. unfold throw at 1.
    destruct (Hfailed (Exn NodeValidationError
                         (s2p "Invalid configuration for node " ++ node_id)) c2)
      as (c' & E & Hcb' & Hst' & Ho' & Hv' & Hno);
      try congruence.
    eexists _, c'.
    split; [exact E|]. split; [exact Hcb'|]. split; [exact Hst'|].
    split; [intros Hs; vm_compute in Hs; discriminate Hs|].
    split; [intros _; now split|]. intros _. now split.
Qed.

(** ** Invariants of a whole run *)

Section Preserved.

Variable I : ExecutionContext -> Prop.
Hypothesis I_status : forall node_id st, preserves I (set_node_status node_id st).
Hypothesis I_log : forall l m n md, preserves I (add_log l m n md).
Hypothesis I_output : forall node_id output, preserves I (set_node_output node_id output).
Hypothesis I_record : forall t c, I c -> I (record t c).
Hypothesis I_start : preserves I start.
Hypothesis I_complete : forall output, preserves I (complete output).
Hypothesis I_fail : forall message, preserves I (fail message).

Lemma preserved_modify_record t : preserves I (modify (record t)).
Proof. intros c r c' H Hc. unfold modify in H. inversion H; subst. now apply I_record. Qed.

Lemma preserved_interp {A} (p : prog A) : preserves I (interp p).
Proof.
  induction p as [a|e|l m n md next IH on_raise IHr]; simpl.
  - apply preserves_ret.
  - apply preserves_throw.
  - intros c r c' H Hc.
    destruct (add_log l m n md c) as [[[]|e|] c1] eqn:E.
    + eapply IH; [exact H|]. eapply I_log; eauto.
    + eapply IHr; [exact H|]. eapply I_log; eauto.
    + inversion H; subst. eapply I_log; eauto.
Qed.

Lemma preserved_run ex node_id node_type node_config :
  preserves I (run ex node_id node_type node_config).
Proof.
  apply preserves_try.
  - unfold run_body.
    apply preserves_bind; [apply I_status|intros _].
    apply preserves_bind; [apply I_log|intros _].
    apply preserves_bind; [apply preserves_lift|intros valid].
    apply preserves_bind;
      [destruct valid; [apply preserves_ret|apply preserves_throw]|intros _].
    apply preserves_bind; [apply preserves_reader|intros resolved].
    apply preserves_bind.
    { intros c r c' H Hc. cbv beta in H.
      eapply preserved_interp; [exact H|]. now apply I_record. }
    intros result.
    apply preserves_bind; [apply I_status|intros _].
    apply preserves_bind.
    { destruct (bool_decide _).
      - apply preserves_bind; [apply I_output|intros _]. apply I_log.
      - apply I_log. }
    intros _.
    apply preserves_bind; [apply preserved_modify_record|intros _]. apply preserves_ret.
  - intros e. unfold run_handler.
    apply preserves_bind; [apply I_status|intros _].
    apply preserves_bind; [apply I_log|intros _].
    apply preserves_bind; [apply preserved_modify_record|intros _]. apply preserves_ret.
Qed.

Lemma preserved_execute_node registry node : preserves I (_execute_node registry node).
Proof.
  unfold _execute_node.
  apply preserves_bind; [apply preserved_modify_record|intros _].
  destruct (registry (fn_type node)) as [cls|]; [|apply preserves_throw].
  apply preserves_bind; [apply preserves_lift|intros ex].
  apply preserved_run.
Qed.

Lemma preserved_gather registry tasks : preserves I (gather registry tasks).
Proof.
  induction tasks as [|node rest IH]; [apply preserves_ret|].
  intros c r c' H Hc. cbn [gather] in H.
  destruct (_execute_node registry node c) as [r1 c1] eqn:E1.
  assert (Hc1 : I c1) by (eapply preserved_execute_node; eauto).
  destruct (gather registry rest c1) as [r2 c2] eqn:E2.
  assert (Hc2 : I c2) by (eapply IH; eauto).
  destruct r1 as [x|e|]; [| |now inversion H; subst];
    destruct r2 as [results|e'|]; now inversion H; subst.
Qed.

Lemma preserved_waves fuel registry graph nodes s :
  preserves I (waves fuel registry graph nodes s).
Proof.
  revert s. induction fuel as [|fuel IH]; intros s; cbn [waves];
    (destruct (ready_nodes s); [apply preserves_ret|]).
  - intros c r c' H. now inversion H.
  - apply preserves_bind; [apply preserves_lift|intros collected].
    apply preserves_bind; [apply preserved_gather|intros results].
    apply preserves_bind; [apply preserves_lift|intros s'].
    apply IH.
Qed.

Lemma preserved_execute_graph registry graph nodes :
  preserves I (_execute_graph registry graph nodes).
Proof.
  unfold _execute_graph.
  destruct (zero_keys (initial_in_degree graph)); [apply preserves_throw|].
  apply preserves_bind; [apply preserved_waves|intros s].
  destruct (negb _); [apply preserves_throw|].
  destruct (is_truthy_id _); apply preserves_reader.
Qed.

Lemma preserved_workflow registry definition :
  preserves I (try_except (workflow_body registry definition) workflow_handler).
Proof.
  apply preserves_try.
  - unfold workflow_body.
    apply preserves_bind; [apply I_start|intros _].
    apply preserves_bind.
    { unfold _validate_graph. destruct (_has_cycle _);
        [apply preserves_throw|apply preserves_ret]. }
    intros _.
    apply preserves_bind; [apply preserved_execute_graph|intros output_data].
    apply preserves_bind; [apply I_complete|intros _; apply preserves_reader].
  - intros e. unfold workflow_handler.
    apply preserves_bind; [apply I_fail|intros _; apply preserves_reader].
Qed.

End Preserved.

Lemma input_kept_same_data input c c' :
  same_data c c' -> input_kept input c -> input_kept input c'.
Proof.
  intros (_ & _ & _ & S4 & _ & _ & S7 & _) (H1 & H2 & H3).
  unfold input_kept. rewrite S4, S7. auto.
Qed.

Lemma preserves_same_data {A} input (m : M A) :
  (forall c r c', m c = (r, c') -> same_data c c') -> preserves (input_kept input) m.
Proof. intros H c r c' E Hc. eapply input_kept_same_data; eauto. Qed.

Lemma set_node_status_frame node_id st c r c' :
  set_node_status node_id st c = (r, c') ->
  variables c' = variables c /\ input_data c' = input_data c.
Proof.
  unfold set_node_status, bind, modify. intros H.
  apply call_callback_frame in H as [_ (_ & _ & _ & S4 & _ & _ & S7 & _)].
  now split.
Qed.

Lemma status_then_log_frame f level message (ev : ExecutionContext -> event) c r c' :
  (forall c, variables (f c) = variables c /\ input_data (f c) = input_data c) ->
  bind (modify f) (fun _ => bind (add_log level message None [])
                                 (fun _ c => call_callback (ev c) c)) c = (r, c') ->
  variables c' = variables c /\ input_data c' = input_data c.
Proof.
  intros Hf H. unfold bind at 1, modify in H. unfold bind in H.
  destruct (Hf c) as [F1 F2].
  destruct (add_log level message None [] (f c)) as [[[]|e|] c1] eqn:E;
    apply add_log_frame in E as [_ (_ & _ & _ & S4 & _ & _ & S7 & _)].
  - apply call_callback_frame in H as [_ (_ & _ & _ & T4 & _ & _ & T7 & _)].
    split; congruence.
  - injection H as <- <-. split; congruence.
  - injection H as <- <-. split; congruence.
Qed.

Lemma input_kept_workflow input registry definition :
  preserves (input_kept input)
    (try_except (workflow_body registry definition) workflow_handler).
Proof.
  apply preserved_workflow.
  - intros node_id st c r c' H (H1 & H2 & H3).
    apply set_node_status_frame in H as [Hv Hi]. unfold input_kept. now rewrite Hv, Hi.
  - intros l m n md. apply preserves_same_data. intros c r c' H.
    now apply add_log_frame in H.
  - intros node_id output c r c' H (H1 & H2 & H3).
    unfold set_node_output, modify in H. injection H as <- <-. unfold input_kept; simpl.
    rewrite !dict_get_set.
    split; [exact H1|]. split.
    + destruct (decide (s2p "nodes." ++ node_id = s2p "input")) as [E|_]; [|exact H2].
      vm_compute in E. discriminate E.
    + destruct (decide (s2p "nodes." ++ node_id = s2p "nodes")) as [E|_]; [|exact H3].
      vm_compute in E. discriminate E.
  - intros t c (H1 & H2 & H3). now repeat split.
  - intros c r c' H (H1 & H2 & H3). unfold start in H.
    apply status_then_log_frame in H as [Hv Hi]; [|intros ?; now split].
    unfold input_kept. now rewrite Hv, Hi.
  - intros output c r c' H (H1 & H2 & H3). unfold complete in H.
    unfold bind at 1, modify in H.
    assert (Hmid : input_kept input
                     (set_variables (set_status c (s2p "completed"))
                        (dict_set (variables c) (s2p "output") output))).
    { unfold input_kept; simpl. rewrite !dict_get_set.
      split; [exact H1|]. split.
      - destruct (decide (s2p "output" = s2p "input")) as [E|_]; [|exact H2].
        vm_compute in E. discriminate E.
      - destruct (decide (s2p "output" = s2p "nodes")) as [E|_]; [|exact H3].
        vm_compute in E. discriminate E. }
    unfold bind in H.
    match type of H with
    | context [add_log ?l ?m ?n ?md ?x] =>
        destruct (add_log l m n md x) as [[[]|e|] c1] eqn:E;
        apply add_log_frame in E as [_ Hs]
    end.
    + apply call_callback_frame in H as [_ Hs'].
      eapply input_kept_same_data; [exact Hs'|].
      eapply input_kept_same_data; [exact Hs|exact Hmid].
    + injection H as <- <-. eapply input_kept_same_data; [exact Hs|exact Hmid].
    + injection H as <- <-. eapply input_kept_same_data; [exact Hs|exact Hmid].
  - intros message c r c' H (H1 & H2 & H3). unfold fail in H.
    apply status_then_log_frame in H as [Hv Hi]; [|intros ?; now split].
    unfold input_kept. now rewrite Hv, Hi.
Qed.

(** ** Node outputs and variables *)

(** X1.  [set_node_output] followed by [get_node_output] gives the output back,
    leaves the outputs of the other nodes alone, and files the output under
    the one variable ["nodes." + node_id]. *)
Theorem node_output_round_trip :
  forall c node_id output,
    fst (set_node_output node_id output c) = Ok tt
    /\ get_node_output (snd (set_node_output node_id output c)) node_id = output
    /\ get_variable (snd (set_node_output node_id output c)) (s2p "nodes." ++ node_id) VNone
       = output
    /\ (forall other, other <> node_id ->
          get_node_output (snd (set_node_output node_id output c)) other
          = get_node_output c other)
    /\ node_statuses (snd (set_node_output node_id output c)) = node_statuses c.
Proof.
  intros c node_id output.
  unfold set_node_output, modify, get_node_output, get_variable, value_get.
  cbn [fst snd record set_trace set_variables set_node_outputs
       variables node_outputs node_statuses].
  rewrite !dict_get_set_same.
  split; [reflexivity|]. split; [reflexivity|]. split; [reflexivity|].
  split; [|reflexivity]. intros other Hother.
  rewrite dict_get_set_other by congruence. reflexivity.
Qed.

Lemma nodes_path_finds_nothing variables path rest :
  dict_get variables (s2p "nodes") = None ->
  split_dot path = s2p "nodes" :: rest ->
  _get_nested_value variables path = VNone.
Proof.
  intros Hn Hs. unfold _get_nested_value. rewrite Hs. simpl.
  unfold value_get. now rewrite Hn.
Qed.

(** X2.  The output that [set_node_output] stores cannot be reached by a dotted
    path: the lookup splits the path at its dots and looks for a variable
    named [nodes], while the output sits under the single key
    ["nodes." + node_id].  So a [{{nodes...}}] token stays as it is written. *)
Theorem node_output_is_not_reachable_by_path :
  forall c node_id output inner rest,
    dict_get (variables c) (s2p "nodes") = None ->
    split_dot (strip inner) = s2p "nodes" :: rest ->
    _get_nested_value (variables (snd (set_node_output node_id output c))) (strip inner)
    = VNone
    /\ replace_var (variables (snd (set_node_output node_id output c)))
         (token_text inner) inner = token_text inner.
Proof.
  intros c node_id output inner rest Hn Hs.
  assert (H : _get_nested_value (variables (snd (set_node_output node_id output c)))
                (strip inner) = VNone).
  { apply nodes_path_finds_nothing with (rest := rest); [|exact Hs].
    unfold set_node_output, modify; simpl. rewrite dict_get_set.
    destruct (decide (s2p "nodes." ++ node_id = s2p "nodes")) as [E|_]; [|exact Hn].
    vm_compute in E. discriminate E. }
  split; [exact H|]. unfold replace_var. now rewrite H.
Qed.

(** X3.  Throughout a run the variable [input] holds the submitted input, and no
    variable named [nodes] is ever defined, whatever the nodes do and
    whatever the observer does. *)
Theorem run_keeps_the_input_variable :
  forall registry eid wid definition input cb r c,
    execute_workflow registry eid wid definition input cb = (r, c) ->
    input_data c = input
    /\ get_variable c (s2p "input") VNone = input
    /\ dict_get (variables c) (s2p "nodes") = None
    /\ forall path rest, split_dot path = s2p "nodes" :: rest ->
         _get_nested_value (variables c) path = VNone.
Proof.
  intros registry eid wid definition input cb r c H.
  unfold execute_workflow in H.
  destruct (input_kept_workflow input registry definition _ _ _ H) as (H1 & H2 & H3).
  { unfold input_kept, new_context; cbn [input_data variables]. repeat split. }
  split; [exact H1|]. split; [unfold get_variable; now rewrite H2|].
  split; [exact H3|]. intros path rest Hs.
  now apply nodes_path_finds_nothing with (rest := rest).
Qed.

(** ** The execution graph *)

(** X4.  [_build_execution_graph]: the keys are the node ids and the edge
    sources, each once; the successors of a key are the targets of its
    edges in the order of the definition, repeated edges included. *)
Theorem execution_graph_lists_edge_targets :
  forall definition,
    List.NoDup (dict_keys (_build_execution_graph definition))
    /\ (forall k, In k (dict_keys (_build_execution_graph definition)) <->
          In k (node_ids definition)
          \/ In k (List.map edge_source (def_edges definition)))
    /\ (forall u, successors (_build_execution_graph definition) u
                  = targets_from u (def_edges definition)).
Proof.
  intros definition. destruct (build_spec definition) as (H1 & H2 & H3).
  split; [exact H1|]. split; [exact H3|exact H2].
Qed.

(** X5.  [_get_node_by_id] returns the first node with the id, so a later node
    that repeats an id is never found; it returns nothing exactly when no
    node has the id. *)
Theorem get_node_by_id_finds_the_first :
  forall node_id nodes,
    (forall node,
        _get_node_by_id node_id nodes = Some node <->
        exists before after,
          nodes = before ++ node :: after /\ fn_id node = node_id
          /\ ~ In node_id (List.map fn_id before))
    /\ (_get_node_by_id node_id nodes = None <-> ~ In node_id (List.map fn_id nodes)).
Proof.
  intros node_id nodes. induction nodes as [|n rest [IH1 IH2]]; simpl.
  - split.
    + intros node. split; [discriminate|].
      intros (before & after & H & _). destruct before; discriminate.
    + split; [intros _ []|reflexivity].
  - destruct (decide (fn_id n = node_id)) as [E|E].
    + split.
      * intros node. split.
        -- intros H. injection H as <-. exists [], rest. simpl. auto.
        -- intros (before & after & H & Hid & Hnot).
           destruct before as [|b before]; simpl in H.
           ++ injection H as -> _. reflexivity.
           ++ injection H as -> _. simpl in Hnot. tauto.
      * split; [discriminate|]. intros H. tauto.
    + split.
      * intros node. rewrite IH1. split.
        -- intros (before & after & -> & Hid & Hnot).
           exists (n :: before), after. simpl. repeat split; auto. tauto.
        -- intros (before & after & H & Hid & Hnot).
           destruct before as [|b before]; simpl in H.
           ++ injection H as -> _. congruence.
           ++ injection H as -> ->. exists before, after. simpl in Hnot.
              repeat split; auto.
      * rewrite IH2. tauto.
Qed.

(** ** The lifecycle template *)

(** X6.  [run] never raises when the observer does not: whatever
    [validate_config] and [execute] do, it returns a result, and the status
    recorded for the node is the status of that result. *)
Theorem run_always_returns_a_result :
  forall ex node_id node_type node_config c,
    quiet_callback (callback c) ->
    exists res c',
      run ex node_id node_type node_config c = (Ok res, c')
      /\ get_node_status c' node_id = Some (res_status res).
Proof.
  intros ex node_id node_type node_config c Hq.
  destruct (run_quiet_spec ex node_id node_type node_config c Hq)
    as (res & c' & E & _ & Hst & _).
  exists res, c'. split; [exact E|].
  unfold get_node_status. now rewrite Hst, dict_get_set_same.
Qed.



(** ** The result of a run *)

Lemma lifecycle_frame f level message (ev : ExecutionContext -> event) c r c' :
  bind (modify f) (fun _ => bind (add_log level message None [])
                                 (fun _ c => call_callback (ev c) c)) c = (r, c') ->
  same_data (f c) c'.
Proof.
  intros H. unfold bind at 1, modify in H. unfold bind in H.
  destruct (add_log level message None [] (f c)) as [[[]|e|] c1] eqn:E;
    apply add_log_frame in E as [_ Hs].
  - apply call_callback_frame in H as [_ Hs']. eapply same_data_trans; eauto.
  - now injection H as <- <-.
  - now injection H as <- <-.
Qed.

Lemma complete_sets_output output c c' :
  complete output c = (Ok tt, c') ->
  status c' = s2p "completed"
  /\ dict_get (variables c') (s2p "output") = Some output
  /\ node_statuses c' = node_statuses c.
Proof.
  intros H. unfold complete in H.
  apply lifecycle_frame in H as (_ & _ & _ & _ & S5 & _ & S7 & _ & S9).
  simpl in S5, S7, S9. rewrite S5, S7, S9, dict_get_set_same. repeat split.
Qed.

Lemma fail_quiet_frame message c :
  quiet_callback (callback c) ->
  exists c', fail message c = (Ok tt, c')
    /\ status c' = s2p "failed" /\ error c' = Some message
    /\ node_statuses c' = node_statuses c /\ node_outputs c' = node_outputs c.
Proof.
  intros Hq. destruct (fail_quiet message c Hq) as (c' & E & _ & H1 & H2 & _).
  exists c'. split; [exact E|]. split; [exact H1|]. split; [exact H2|].
  unfold fail in E. apply lifecycle_frame in E as (_ & _ & _ & _ & _ & _ & _ & S8 & S9).
  now split.
Qed.

(** X9.  With an observer that is absent or does not raise, [execute_workflow]
    never raises: it returns a result whose status is "completed" or
    "failed", the same as the status left in the context, with the summary
    of that context.  A completed result carries the output that is also
    stored in the variable [output]; a failed result carries, as in the
    context, the error text "Workflow execution failed: " followed by the
    message of the error. *)
Theorem execute_workflow_returns_completed_or_failed :
  forall registry eid wid definition input cb,
    quiet_callback cb ->
    exists w c,
      execute_workflow registry eid wid definition input cb = (Ok w, c)
      /\ wr_summary w = get_execution_summary c
      /\ status c = wr_status w
      /\ ((wr_status w = s2p "completed" /\ wr_error w = None
           /\ exists output, wr_output w = Some output
                /\ get_variable c (s2p "output") VNone = output)
          \/ (wr_status w = s2p "failed" /\ wr_output w = None
              /\ error c = wr_error w
              /\ exists e, wr_error w
                           = Some (s2p "Workflow execution failed: " ++ exn_msg e))).
Proof.
  intros registry eid wid definition input cb Hq.
  unfold execute_workflow, try_except.
  destruct (workflow_body registry definition (new_context eid wid input cb))
    as [r1 c1] eqn:Ebody.
  destruct (keeps_order_body registry definition _ _ _ Ebody (dispatch_ordered_nil _))
    as (Hne & Hcb & _).
  destruct r1 as [w|e|]; [| |congruence].
  - exists w, c1. split; [reflexivity|].
    unfold workflow_body in Ebody.
    apply bind_ok_inv in Ebody as ([] & c2 & _ & Ebody).
    apply bind_ok_inv in Ebody as ([] & c3 & _ & Ebody).
    apply bind_ok_inv in Ebody as (output & c4 & _ & Ebody).
    apply bind_ok_inv in Ebody as ([] & c5 & Ecomplete & Ebody).
    unfold ret in Ebody. injection Ebody as <- <-. simpl.
    destruct (complete_sets_output _ _ _ Ecomplete) as (Hs & Hv & _).
    split; [reflexivity|]. split; [exact Hs|]. left.
    split; [reflexivity|]. split; [reflexivity|].
    exists output. split; [reflexivity|]. unfold get_variable. now rewrite Hv.
  - assert (Hq1 : quiet_callback (callback c1)) by (rewrite Hcb; exact Hq).
    unfold workflow_handler.
    destruct (fail_quiet_frame (s2p "Workflow execution failed: " ++ exn_msg e) c1 Hq1)
      as (c2 & Efail & Hs & He & _).
    rewrite (bind_ok _ _ _ _ _ Efail). unfold ret.
    eexists _, c2. split; [reflexivity|]. simpl.
    split; [reflexivity|]. split; [exact Hs|]. right.
    split; [reflexivity|]. split; [reflexivity|]. split; [exact He|].
    exists e. reflexivity.
Qed.


(** ** Each node is dispatched once *)

Lemma dispatched_app tr1 tr2 : dispatched (tr1 ++ tr2) = dispatched tr1 ++ dispatched tr2.
Proof. unfold dispatched. apply flat_map_app. Qed.

Lemma dispatched_none ext : Forall not_dispatch ext -> dispatched ext = [].
Proof.
  induction 1 as [|t ext Ht _ IH]; [reflexivity|].
  simpl. rewrite IH. now destruct t.
Qed.

Lemma steady_dispatched {A} (m : M A) c r c' :
  steady m -> m c = (r, c') -> dispatched (trace c') = dispatched (trace c).
Proof.
  intros Hm H. destruct (Hm _ _ _ H) as (_ & _ & ext & -> & Hext).
  now rewrite dispatched_app, (dispatched_none _ Hext), app_nil_r.
Qed.

Lemma gather_dispatched registry tasks :
  forall c r c', gather registry tasks c = (r, c') ->
    dispatched (trace c') = dispatched (trace c) ++ List.map fn_id tasks.
Proof.
  induction tasks as [|node rest IH]; intros c r c' H.
  - unfold gather, ret in H. injection H as <- <-. now rewrite app_nil_r.
  - cbn [gather] in H.
    destruct (_execute_node registry node c) as [r1 c1] eqn:E1.
    destruct (execute_node_spec _ _ _ _ _ E1) as (Hne & _ & (ext & Ht & Hext) & _).
    assert (Hd1 : dispatched (trace c1) = dispatched (trace c) ++ [fn_id node]).
    { rewrite Ht, dispatched_app. simpl. now rewrite (dispatched_none _ Hext). }
    destruct (gather registry rest c1) as [r2 c2] eqn:E2.
    pose proof (IH _ _ _ E2) as Hd2.
    assert (c' = c2).
    { destruct r1 as [x|e|]; [| |congruence];
        destruct r2 as [results|e'|]; now injection H as <- <-. }
    subst c'. rewrite Hd2, Hd1, <- app_assoc. reflexivity.
Qed.

Lemma gather_length registry tasks :
  forall c results c', gather registry tasks c = (Ok results, c') ->
    length results = length tasks.
Proof.
  induction tasks as [|node rest IH]; intros c results c' H.
  - unfold gather, ret in H. now injection H as <- <-.
  - cbn [gather] in H.
    destruct (_execute_node registry node c) as [r1 c1] eqn:E1.
    destruct (gather registry rest c1) as [r2 c2] eqn:E2.
    destruct r1 as [x|e|]; [| |discriminate];
      (destruct r2 as [results2|e'|]; [|discriminate|discriminate]);
      injection H as <- <-; simpl; f_equal; eapply IH; eauto.
Qed.

Lemma waves_dispatched_once registry graph nodes :
  List.NoDup (dict_keys graph) ->
  forall fuel s done c r c',
    sched_inv graph nodes done [] s ->
    dispatched_once nodes (trace c) ->
    (forall u, In u (dispatched (trace c)) -> u ∈ done) ->
    waves fuel registry graph nodes s c = (r, c') ->
    dispatched_once nodes (trace c').
Proof.
  intros Hkeys. induction fuel as [|fuel IH]; intros s done c r c' Hinv Honce Hdone H.
  - cbn [waves] in H. destruct (ready_nodes s); now injection H as <- <-.
  - cbn [waves] in H.
    destruct (ready_nodes s) as [|b batch'] eqn:Hready.
    { now injection H as <- <-. }
    rewrite <- Hready in *.
    unfold bind at 1 in H.
    destruct (collect_tasks nodes (ready_nodes s) (output_node_id s))
      as [e|[tasks o']] eqn:Ecollect; simpl in H.
    { now injection H as <- <-. }
    destruct (collect_tasks_spec _ _ _ _ _ Ecollect) as [Hids Hknown].
    unfold bind at 1 in H.
    destruct (gather registry tasks c) as [rg c1] eqn:Egather.
    pose proof (gather_dispatched _ _ _ _ _ Egather) as Hd1. rewrite Hids in Hd1.
    assert (Honce1 : dispatched_once nodes (trace c1)).
    { destruct Honce as [Hnd Hin]. split.
      - rewrite Hd1. apply List.NoDup_app;
          [exact Hnd|exact (inv_nodup _ _ _ _ _ Hinv)|].
        intros x Hx Hx'. apply Hdone in Hx.
        destruct (inv_ready _ _ _ _ _ Hinv x Hx') as (Hnot & _). contradiction.
      - intros u Hu. rewrite Hd1 in Hu. apply in_app_or in Hu as [Hu|Hu]; auto. }
    destruct rg as [results|e|]; [| |now injection H as <- <-];
      [|now injection H as <- <-].
    unfold bind at 1 in H.
    assert (Hlen : length results = length tasks) by (eapply gather_length; eauto).
    assert (Hfst : List.map fst (combine (List.map fn_id tasks) results) = ready_nodes s).
    { rewrite map_fst_combine; [exact Hids|]. now rewrite length_map. }
    destruct (process_results graph
                (combine (List.map fn_id tasks) results)
                (MkSchedule (in_degree s) [] (executed_nodes s) o'))
      as [e|s1] eqn:Eproc; simpl in H.
    { now injection H as <- <-. }
    destruct (process_results_inv graph nodes Hkeys
                (combine (List.map fn_id tasks) results) done
                (MkSchedule (in_degree s) [] (executed_nodes s) o'))
      with (s' := s1) as (done' & Hinv' & Hdone' & _).
    { rewrite Hfst. now apply sched_inv_begin_wave. }
    { rewrite Hfst. exact Hknown. }
    { exact Eproc. }
    eapply (IH s1 done' c1 r c' Hinv' Honce1); [|exact H].
    intros u Hu. rewrite Hd1 in Hu. apply Hdone'.
    apply in_app_or in Hu as [Hu|Hu]; [right; now apply Hdone|left; now rewrite Hfst].
Qed.

Lemma execute_graph_dispatched_once registry graph nodes c r c' :
  List.NoDup (dict_keys graph) ->
  dispatched (trace c) = [] ->
  _execute_graph registry graph nodes c = (r, c') ->
  dispatched_once nodes (trace c').
Proof.
  intros Hkeys Hnil H.
  assert (Hc : dispatched_once nodes (trace c)).
  { unfold dispatched_once. rewrite Hnil. split; [constructor|intros u []]. }
  unfold _execute_graph in H.
  destruct (zero_keys (initial_in_degree graph)) as [|b ready'] eqn:Hready.
  { now injection H as <- <-. }
  rewrite <- Hready in H. unfold bind at 1 in H.
  destruct (waves (S (length (initial_in_degree graph))) registry graph nodes
              (MkSchedule (initial_in_degree graph) (zero_keys (initial_in_degree graph))
                          [] None) c) as [rw c1] eqn:Ew.
  assert (H1 : dispatched_once nodes (trace c1)).
  { eapply (waves_dispatched_once registry graph nodes Hkeys _ _ ∅);
      [apply initial_sched_inv|exact Hc| |exact Ew].
    intros u Hu. rewrite Hnil in Hu. destruct Hu. }
  destruct rw as [s'|e|]; [|now injection H as <- <-|now injection H as <- <-].
  destruct (negb _); [now injection H as <- <-|].
  destruct (is_truthy_id _); now injection H as <- <-.
Qed.

(** X11.  In every run, whatever the observer does, each dispatch is of the id of
    a node of the definition, and no id is dispatched twice. *)
Theorem no_node_is_dispatched_twice :
  forall registry eid wid definition input cb r c,
    execute_workflow registry eid wid definition input cb = (r, c) ->
    List.NoDup (dispatched (trace c))
    /\ forall u, In u (dispatched (trace c)) -> In u (node_ids definition).
Proof.
  intros registry eid wid definition input cb r c H.
  unfold execute_workflow, try_except in H.
  destruct (workflow_body registry definition (new_context eid wid input cb))
    as [r1 c1] eqn:Ebody.
  assert (Hbody : dispatched_once (def_nodes definition) (trace c1)).
  { unfold workflow_body in Ebody. unfold bind at 1 in Ebody.
    destruct (start (new_context eid wid input cb)) as [r2 c2] eqn:Estart.
    pose proof (steady_dispatched _ _ _ _ steady_start Estart) as Hd2. simpl in Hd2.
    assert (Hnil : dispatched_once (def_nodes definition) (trace c2)).
    { unfold dispatched_once. rewrite Hd2. split; [constructor|intros u []]. }
    destruct r2 as [[]|e|]; [| |now injection Ebody as <- <-];
      [|now injection Ebody as <- <-].
    unfold bind at 1 in Ebody. unfold _validate_graph in Ebody.
    destruct (_has_cycle _); [now injection Ebody as <- <-|].
    unfold ret at 1 in Ebody. unfold bind at 1 in Ebody.
    destruct (_execute_graph registry (_build_execution_graph definition)
                (def_nodes definition) c2) as [r3 c3] eqn:Egraph.
    destruct (build_spec definition) as (Hkeys & _ & _).
    pose proof (execute_graph_dispatched_once _ _ _ _ _ _ Hkeys Hd2 Egraph) as H3.
    destruct r3 as [output|e|]; [| |now injection Ebody as <- <-];
      [|now injection Ebody as <- <-].
    unfold bind at 1 in Ebody.
    destruct (complete output c3) as [r4 c4] eqn:Ecomplete.
    pose proof (steady_dispatched _ _ _ _ (steady_complete output) Ecomplete) as Hd4.
    assert (H4 : dispatched_once (def_nodes definition) (trace c4))
      by (unfold dispatched_once; rewrite Hd4; exact H3).
    destruct r4 as [[]|e|]; now injection Ebody as <- <-. }
  destruct r1 as [w|e|]; [now injection H as <- <-| |now injection H as <- <-].
  unfold workflow_handler, bind in H.
  destruct (fail (s2p "Workflow execution failed: " ++ exn_msg e) c1) as [r5 c5] eqn:Efail.
  pose proof (steady_dispatched _ _ _ _ (steady_fail _) Efail) as Hd5.
  assert (c = c5) by (destruct r5 as [[]|e'|]; now injection H as <- <-).
  subst c. unfold dispatched_once in Hbody. rewrite Hd5. exact Hbody.
Qed.

(** ** A completed run *)

Lemma dict_set_entries {V} (d : dict V) k v k' v' :
  In (k', v') (dict_set d k v) -> (k' = k /\ v' = v) \/ In (k', v') d.
Proof.
  induction d as [|[k0 v0] d IH]; simpl.
  - intros [[= <- <-]|[]]. now left.
  - destruct (decide (k0 = k)) as [->|Hne]; simpl.
    + intros [[= <- <-]|H]; [now left|right; now right].
    + intros [H|H]; [right; now left|].
      destruct (IH H) as [?|?]; [now left|right; now right].
Qed.

Lemma no_failed_set d k v : no_failed d -> v <> s2p "failed" -> no_failed (dict_set d k v).
Proof.
  intros Hd Hv k' v' Hin. apply dict_set_entries in Hin as [[_ ->]|Hin]; [exact Hv|].
  eapply Hd; eauto.
Qed.

Lemma execute_node_quiet registry node c r c' :
  quiet_callback (callback c) ->
  _execute_node registry node c = (r, c') ->
  callback c' = callback c
  /\ forall res, r = Ok res ->
       node_statuses c' = dict_set (node_statuses c) (fn_id node) (res_status res).
Proof.
  intros Hq H. unfold _execute_node in H.
  unfold bind at 1, modify in H.
  destruct (registry (fn_type node)) as [cls|].
  2:{ unfold throw in H. injection H as <- <-. split; [reflexivity|discriminate]. }
  unfold bind in H. destruct (cls (fn_id node) (fn_type node)) as [e|ex]; simpl in H.
  { unfold throw in H. injection H as <- <-. split; [reflexivity|discriminate]. }
  unfold ret in H.
  destruct (run_quiet_spec ex (fn_id node) (fn_type node) (fn_config node)
              (record (TDispatch (fn_id node)) c) Hq)
    as (res0 & c0 & E & Hcb & Hst & _).
  rewrite E in H. injection H as <- <-.
  split; [exact Hcb|]. intros res [= <-]. exact Hst.
Qed.

Lemma gather_statuses registry tasks :
  forall c results c',
    quiet_callback (callback c) ->
    gather registry tasks c = (Ok results, c') ->
    callback c' = callback c
    /\ (Forall (fun r => exists res, snd r = inr res /\ res_status res <> s2p "failed")
               (combine (List.map fn_id tasks) results) ->
        no_failed (node_statuses c) ->
        no_failed (node_statuses c')
        /\ forall u, In u (dict_keys (node_statuses c)) \/ In u (List.map fn_id tasks) ->
                     In u (dict_keys (node_statuses c'))).
Proof.
  induction tasks as [|node rest IH]; intros c results c' Hq H.
  - unfold gather, ret in H. injection H as <- <-.
    split; [reflexivity|]. intros _ Hn. split; [exact Hn|]. intros u [Hu|[]]. exact Hu.
  - cbn [gather] in H.
    destruct (_execute_node registry node c) as [r1 c1] eqn:E1.
    destruct (execute_node_quiet _ _ _ _ _ Hq E1) as [Hcb1 Hst1].
    assert (Hq1 : quiet_callback (callback c1)) by now rewrite Hcb1.
    destruct (gather registry rest c1) as [r2 c2] eqn:E2.
    destruct r1 as [x|e|]; [| |discriminate];
      (destruct r2 as [results2|e'|]; [|discriminate|discriminate]);
      injection H as <- <-;
      destruct (IH _ _ _ Hq1 E2) as [Hcb2 Hrest];
      (split; [congruence|]); intros Hall Hn;
      inversion Hall as [|? ? (res & Hres & Hnf) Hall']; subst; simpl in Hres.
    + injection Hres as ->.
      assert (Hn1 : no_failed (node_statuses c1)).
      { rewrite (Hst1 res eq_refl). now apply no_failed_set. }
      destruct (Hrest Hall' Hn1) as [Hn2 Hkeys]. split; [exact Hn2|].
      intros u Hu. apply Hkeys. rewrite (Hst1 res eq_refl).
      destruct Hu as [Hu|[<-|Hu]].
      * left. apply dict_keys_set_in. now left.
      * left. apply dict_keys_set_in. now right.
      * now right.
    + discriminate.
Qed.

Lemma waves_statuses registry graph nodes :
  List.NoDup (dict_keys graph) ->
  forall fuel s done c s' c',
    quiet_callback (callback c) ->
    sched_inv graph nodes done [] s ->
    no_failed (node_statuses c) ->
    (forall u, u ∈ done -> In u (dict_keys (node_statuses c))) ->
    waves fuel registry graph nodes s c = (Ok s', c') ->
    exists done',
      sched_inv graph nodes done' [] s' /\ ready_nodes s' = []
      /\ no_failed (node_statuses c')
      /\ (forall u, u ∈ done' -> In u (dict_keys (node_statuses c')))
      /\ callback c' = callback c.
Proof.
  intros Hkeys. induction fuel as [|fuel IH]; intros s done c s' c' Hq Hinv Hn Hdone H.
  - cbn [waves] in H. destruct (ready_nodes s) eqn:Hready; [|discriminate].
    injection H as <- <-. exists done.
    split; [exact Hinv|]. split; [exact Hready|]. split; [exact Hn|].
    split; [exact Hdone|reflexivity].
  - cbn [waves] in H.
    destruct (ready_nodes s) as [|b batch'] eqn:Hready.
    { injection H as <- <-. exists done.
      split; [exact Hinv|]. split; [exact Hready|]. split; [exact Hn|].
      split; [exact Hdone|reflexivity]. }
    rewrite <- Hready in *.
    unfold bind at 1 in H.
    destruct (collect_tasks nodes (ready_nodes s) (output_node_id s))
      as [e|[tasks o']] eqn:Ecollect; simpl in H; [discriminate|].
    destruct (collect_tasks_spec _ _ _ _ _ Ecollect) as [Hids Hknown].
    unfold bind at 1 in H.
    destruct (gather registry tasks c) as [[results|e|] c1] eqn:Egather;
      [|discriminate|discriminate].
    destruct (gather_statuses _ _ _ _ _ Hq Egather) as [Hcb1 Hstat].
    unfold bind at 1 in H.
    assert (Hlen : length results = length tasks) by (eapply gather_length; eauto).
    assert (Hfst : List.map fst (combine (List.map fn_id tasks) results) = ready_nodes s).
    { rewrite map_fst_combine; [exact Hids|]. now rewrite length_map. }
    destruct (process_results graph
                (combine (List.map fn_id tasks) results)
                (MkSchedule (in_degree s) [] (executed_nodes s) o'))
      as [e|s1] eqn:Eproc; simpl in H; [discriminate|].
    destruct (process_results_inv graph nodes Hkeys
                (combine (List.map fn_id tasks) results) done
                (MkSchedule (in_degree s) [] (executed_nodes s) o'))
      with (s' := s1) as (done' & Hinv' & Hdone' & _ & Hok).
    { rewrite Hfst. now apply sched_inv_begin_wave. }
    { rewrite Hfst. exact Hknown. }
    { exact Eproc. }
    destruct (Hstat Hok Hn) as [Hn1 Hkeys1].
    assert (Hq1 : quiet_callback (callback c1)) by now rewrite Hcb1.
    destruct (IH s1 done' c1 s' c' Hq1 Hinv' Hn1) as (done'' & H1 & H2 & H3 & H4 & H5);
      [|exact H|].
    { intros u Hu. apply Hkeys1. apply Hdone' in Hu as [Hu|Hu].
      - right. rewrite Hids. now rewrite Hfst in Hu.
      - left. now apply Hdone. }
    exists done''. split; [exact H1|]. split; [exact H2|]. split; [exact H3|].
    split; [exact H4|congruence].
Qed.

Lemma execute_graph_statuses registry graph nodes c v c' :
  List.NoDup (dict_keys graph) ->
  (forall k, In k (List.map fn_id nodes) -> In k (dict_keys graph)) ->
  quiet_callback (callback c) ->
  node_statuses c = [] ->
  _execute_graph registry graph nodes c = (Ok v, c') ->
  no_failed (node_statuses c')
  /\ forall k, In k (dict_keys graph) -> In k (dict_keys (node_statuses c')).
Proof.
  intros Hkeys Hids Hq Hnil H. unfold _execute_graph in H.
  destruct (zero_keys (initial_in_degree graph)) as [|b ready'] eqn:Hready; [discriminate|].
  rewrite <- Hready in H. unfold bind at 1 in H.
  destruct (waves (S (length (initial_in_degree graph))) registry graph nodes
              (MkSchedule (initial_in_degree graph) (zero_keys (initial_in_degree graph))
                          [] None) c) as [[s'|e|] c1] eqn:Ew; [|discriminate|discriminate].
  assert (Hn0 : no_failed (node_statuses c)) by (rewrite Hnil; intros k x []).
  assert (Hd0 : forall u, u ∈ (∅ : gset pystr) -> In u (dict_keys (node_statuses c)))
    by (intros u Hu; set_solver).
  destruct (waves_statuses registry graph nodes Hkeys _ _ ∅ _ _ _ Hq
              (initial_sched_inv graph nodes) Hn0 Hd0 Ew)
    as (done' & Hinv & Hempty & Hn & Hdone & _).
  destruct (negb (length (executed_nodes s') =? length graph)) eqn:Hcheck; [discriminate|].
  assert (c' = c1) by (destruct (is_truthy_id (output_node_id s')); now injection H as <- <-).
  subst c'. split; [exact Hn|].
  apply negb_false_iff, Nat.eqb_eq in Hcheck.
  assert (Hexec_keys : incl (executed_nodes s') (dict_keys graph)).
  { intros x Hx. apply Hids. apply (inv_executed _ _ _ _ _ Hinv) in Hx.
    now apply (inv_done _ _ _ _ _ Hinv). }
  intros x Hx. apply Hdone. apply (inv_executed _ _ _ _ _ Hinv).
  assert (Hle : length (dict_keys graph) <= length (executed_nodes s'))
    by (rewrite length_dict_keys; lia).
  exact (@NoDup_length_incl _ (executed_nodes s') (dict_keys graph)
           (inv_executed_nodup _ _ _ _ _ Hinv) Hle Hexec_keys x Hx).
Qed.

Lemma count_status_no_failed d : no_failed d -> count_status (s2p "failed") d = 0.
Proof.
  unfold count_status. induction d as [|[k v] d IH]; intros H; [reflexivity|].
  simpl. case_bool_decide as E.
  - exfalso. simpl in E. eapply H; [left; reflexivity|exact E].
  - apply IH. intros k' v' Hin. eapply H. right. exact Hin.
Qed.

(** X12.  When a run completes (the observer being absent or not raising), every
    node of the definition has a status, no node has the status "failed",
    and the summary counts no failed node. *)
Theorem completed_run_has_no_failed_node :
  forall registry eid wid definition input cb w c,
    quiet_callback cb ->
    execute_workflow registry eid wid definition input cb = (Ok w, c) ->
    wr_status w = s2p "completed" ->
    (forall u, In u (node_ids definition) ->
       exists st, get_node_status c u = Some st /\ st <> s2p "failed")
    /\ (forall u st, get_node_status c u = Some st -> st <> s2p "failed")
    /\ sum_failed_nodes (wr_summary w) = 0.
Proof.
  intros registry eid wid definition input cb w c Hq H Hw.
  unfold execute_workflow, try_except in H.
  destruct (workflow_body registry definition (new_context eid wid input cb))
    as [r1 c1] eqn:Ebody.
  destruct r1 as [w1|e|]; [| |discriminate].
  2:{ exfalso. unfold workflow_handler, bind in H.
      destruct (fail _ c1) as [[[]|e'|] c2]; try discriminate.
      unfold ret in H. injection H as <- <-. simpl in Hw.
      vm_compute in Hw. discriminate Hw. }
  injection H as <- <-.
  unfold workflow_body in Ebody.
  apply bind_ok_inv in Ebody as ([] & c2 & Estart & Ebody).
  apply bind_ok_inv in Ebody as ([] & c3 & Evalid & Ebody).
  apply bind_ok_inv in Ebody as (output & c4 & Egraph & Ebody).
  apply bind_ok_inv in Ebody as ([] & c5 & Ecomplete & Ebody).
  unfold ret in Ebody. injection Ebody as <- <-.
  assert (Hc2 : node_statuses c2 = [] /\ callback c2 = cb).
  { unfold start in Estart.
    apply lifecycle_frame in Estart as (S1 & _ & _ & _ & _ & _ & _ & _ & S9).
    split; [exact S9|exact S1]. }
  destruct Hc2 as [Hnil Hcb2].
  assert (c3 = c2).
  { unfold _validate_graph in Evalid.
    destruct (_has_cycle _); [discriminate|]. unfold ret in Evalid. now injection Evalid. }
  subst c3.
  destruct (build_spec definition) as (Hkeys & _ & Hk).
  assert (Hq2 : quiet_callback (callback c2)) by (rewrite Hcb2; exact Hq).
  destruct (execute_graph_statuses registry _ _ _ _ _ Hkeys
              (build_node_ids_are_keys definition) Hq2 Hnil Egraph) as [Hn Hall].
  destruct (complete_sets_output _ _ _ Ecomplete) as (_ & _ & Hst).
  assert (Hfinal : forall u st, get_node_status c5 u = Some st -> st <> s2p "failed").
  { intros u st Hu. unfold get_node_status in Hu. rewrite Hst in Hu.
    apply dict_get_In in Hu. eapply Hn; eauto. }
  split; [|split; [exact Hfinal|]].
  - intros u Hu.
    assert (Hin : In u (dict_keys (node_statuses c4)))
      by (apply Hall, build_node_ids_are_keys; exact Hu).
    apply dict_get_Some_keys in Hin as [st Hget].
    exists st. unfold get_node_status. rewrite Hst. split; [exact Hget|].
    apply dict_get_In in Hget. eapply Hn; eauto.
  - simpl. rewrite Hst. now apply count_status_no_failed.
Qed.



(** ** Start nodes *)

(** X13.  [_get_start_nodes] and the scheduler agree on where a run starts: the
    keys without an incoming edge are the keys whose in-degree
    [_execute_graph] computes as zero.  They differ when there is no such
    key in a graph that is not empty: [_get_start_nodes] then falls back on
    the first key, where [_execute_graph] raises. *)
Theorem start_nodes_have_in_degree_zero :
  forall graph,
    (forall x, In x (zero_keys (initial_in_degree graph)) <->
               In x (dict_keys graph) /\ ~ In x (concat (List.map snd graph)))
    /\ (zero_keys (initial_in_degree graph) <> [] ->
        forall x, x ∈ _get_start_nodes graph <->
                  In x (zero_keys (initial_in_degree graph)))
    /\ (zero_keys (initial_in_degree graph) = [] ->
        _get_start_nodes graph
        = match dict_keys graph with first :: _ => {[first]} | [] => ∅ end).
Proof.
  intros graph.
  assert (Hzero : forall x, In x (zero_keys (initial_in_degree graph)) <->
                    In x (dict_keys graph) /\ ~ In x (concat (List.map snd graph))).
  { intros x. rewrite (zero_keys_in _ _ (initial_in_degree_nodup graph)).
    rewrite initial_in_degree_spec, remaining_empty.
    case_bool_decide as Hin.
    - apply list_elem_of_In in Hin. unfold graph_nodes in Hin.
      split.
      + intros [= H0]. apply occurrences_zero in H0.
        split; [|exact H0]. apply in_app_or in Hin as [Hk|Ht]; [exact Hk|contradiction].
      + intros [_ Hn]. f_equal. now apply occurrences_zero.
    - split; [discriminate|]. intros [Hk _]. exfalso. apply Hin.
      apply list_elem_of_In. unfold graph_nodes. apply in_or_app. now left. }
  assert (Hset : forall x,
            x ∈ (list_to_set (dict_keys graph) : gset pystr)
                  ∖ list_to_set (concat (List.map snd graph))
            <-> In x (zero_keys (initial_in_degree graph))).
  { intros x. rewrite Hzero, elem_of_difference, !elem_of_list_to_set.
    now rewrite !list_elem_of_In. }
  split; [exact Hzero|]. split.
  - intros Hne x. unfold _get_start_nodes.
    destruct (decide _) as [Hempty|_]; [|apply Hset].
    exfalso. destruct (zero_keys (initial_in_degree graph)) as [|z zs] eqn:E; [congruence|].
    assert (Hz : z ∈ (∅ : gset pystr)).
    { rewrite <- Hempty. apply Hset. now left. }
    set_solver.
  - intros Hnil. unfold _get_start_nodes.
    destruct (decide _) as [_|Hne]; [reflexivity|].
    exfalso. apply Hne. apply set_eq. intros x. rewrite Hset, Hnil. set_solver.
Qed.

(** ** Validation of a condition node *)

Lemma operator_known op :
  In op operator_names <-> exists op_func, dict_get OPERATORS op = Some op_func.
Proof.
  split.
  - intros H. apply dict_get_Some_keys. exact H.
  - intros [f H]. apply dict_get_key in H. exact H.
Qed.

Lemma validate_conditions_iff conditions :
  forall i, validate_conditions i conditions = inr tt <->
            Forall well_formed_condition conditions.
Proof.
  induction conditions as [|condition rest IH]; intros i.
  - split; [constructor|reflexivity].
  - cbn [validate_conditions]. split.
    + intros H.
      destruct condition as [| | | | |d]; try discriminate.
      destruct (dict_get d (s2p "field")) as [field|] eqn:E1; [|discriminate].
      destruct (dict_get d (s2p "operator")) as [op|] eqn:E2; [|discriminate].
      destruct (dict_get d (s2p "value")) as [expected|] eqn:E3; [|discriminate].
      destruct (dict_get d (s2p "branch")) as [branch|] eqn:E4; [|discriminate].
      destruct (operator_lookup op) as [e|[op_func|]] eqn:E5; try discriminate.
      destruct branch as [| | |b| |]; try discriminate.
      destruct (strip b) eqn:E6; [discriminate|].
      constructor; [|eapply IH; exact H].
      destruct op as [| | |name| |]; try discriminate.
      exists d, field, name, expected, b.
      unfold operator_lookup in E5. injection E5 as E5.
      repeat split; auto.
      * apply operator_known. eauto.
      * rewrite E6. discriminate.
    + intros H. inversion H as [|? ? (d & field & op & expected & branch
                                     & -> & E1 & E2 & Hop & E3 & E4 & Hb) Hrest]; subst.
      rewrite E1, E2, E3, E4.
      apply operator_known in Hop as [op_func Hop].
      unfold operator_lookup. rewrite Hop.
      destruct (strip branch) eqn:E6; [congruence|].
      now apply IH.
Qed.

(** X14.  [validate_config] of a condition node returns True exactly for a
    configuration whose [conditions] is a non-empty list of dictionaries,
    each with the keys field, operator, value and branch, an operator among
    the eight names and a branch that is a string with more than white
    space, and whose [default_branch], when present, is such a string too.
    It never returns False: a configuration is accepted or the call
    raises. *)
Theorem condition_config_accepted_iff_well_formed :
  forall config,
    (condition_validate_config config = inr true <->
     exists condition rest,
       dict_get config (s2p "conditions") = Some (VList (condition :: rest))
       /\ Forall well_formed_condition (condition :: rest)
       /\ match dict_get config (s2p "default_branch") with
          | None => True
          | Some (VStr b) => strip b <> []
          | Some _ => False
          end)
    /\ condition_validate_config config <> inr false.
Proof.
  intros config. unfold condition_validate_config. split.
  - split.
    + intros H.
      destruct (dict_get config (s2p "conditions")) as [[| | | |[|condition rest]|]|];
        try discriminate.
      destruct (validate_conditions 0 (condition :: rest)) as [e|[]] eqn:E; [discriminate|].
      exists condition, rest. split; [reflexivity|].
      split; [apply (validate_conditions_iff _ 0); exact E|].
      destruct (dict_get config (s2p "default_branch")) as [[| | |b| |]|];
        try discriminate; [|exact I].
      destruct (strip b); [discriminate|discriminate].
    + intros (condition & rest & -> & Hall & Hd).
      apply (validate_conditions_iff _ 0) in Hall. rewrite Hall.
      destruct (dict_get config (s2p "default_branch")) as [[| | |b| |]|];
        try contradiction; [|reflexivity].
      destruct (strip b); [congruence|reflexivity].
  - destruct (dict_get config (s2p "conditions")) as [[| | | |[|condition rest]|]|];
      try discriminate.
    destruct (validate_conditions 0 (condition :: rest)) as [e|[]]; [discriminate|].
    destruct (dict_get config (s2p "default_branch")) as [[| | |b| |]|];
      try discriminate.
    destruct (strip b); discriminate.
Qed.

(** ** The execution service, step by step *)

(** X15.  Pausing a running execution and resuming it: both calls are accepted,
    the status goes to paused and back to running, the paused flag is set
    and cleared, and nothing else changes but the log, which gets the two
    entries.  A second pause in a row is refused. *)
Theorem pause_then_resume_restores_running :
  forall e,
    rec_status e = s2p "running" ->
    fst (pause_execution e) = true
    /\ rec_status (snd (pause_execution e)) = s2p "paused"
    /\ ctl_paused (snd (pause_execution e)) = true
    /\ pause_execution (snd (pause_execution e)) = (false, snd (pause_execution e))
    /\ fst (resume_execution (snd (pause_execution e))) = true
    /\ resume_execution (snd (pause_execution e))
       = (true,
          MkExecution (rec_execution_id e) (rec_workflow_id e) (s2p "running")
            (rec_output_data e) (rec_error_message e) false (ctl_stopped e) (rec_task e)
            (rec_waiting_stops e)
            (rec_logs e ++ [(s2p "info", s2p "Execution paused");
                            (s2p "info", s2p "Execution resumed")])).
Proof.
  intros e Hs. unfold pause_execution.
  rewrite bool_decide_eq_false_2 by (intros H; now apply H).
  cbn [fst snd]. unfold resume_execution, _add_log, _update_status, set_paused.
  cbn [rec_status rec_execution_id rec_workflow_id rec_output_data rec_error_message
       ctl_paused ctl_stopped rec_task rec_waiting_stops rec_logs].
  rewrite bool_decide_eq_true_2 by (intros H; vm_compute in H; discriminate H).
  rewrite bool_decide_eq_false_2 by (intros H; now apply H).
  cbn [fst snd]. rewrite <- app_assoc. repeat split.
Qed.

(** X16.  After a stop has been requested, the task never reports: the stopped
    flag stays set, and no later step records an output, an error message,
    or the status completed or failed. *)
Theorem stop_request_is_final :
  forall execution_id workflow_id history e a e',
    acts history (submitted execution_id workflow_id) = Some e ->
    ctl_stopped e = true ->
    act a e = Some e' ->
    ctl_stopped e' = true
    /\ rec_output_data e' = rec_output_data e
    /\ rec_error_message e' = rec_error_message e
    /\ (rec_status e' = s2p "completed" \/ rec_status e' = s2p "failed" ->
        rec_status e' = rec_status e).
Proof.
  intros execution_id workflow_id history e a e' Hreach Hstop Hact.
  pose proof (service_inv_acts history _ _
                (service_inv_submitted execution_id workflow_id) Hreach) as [_ Htask].
  assert (Hlive : rec_task e = Cancelling \/ rec_task e = Finished).
  { destruct (rec_task e); [| |now left|now right];
      destruct Htask as (_ & _ & Hf); congruence. }
  unfold act in Hact. destruct a.
  - destruct Hlive as [Ht|Ht]; rewrite Ht in Hact; discriminate.
  - destruct Hlive as [Ht|Ht]; rewrite Ht in Hact; discriminate.
  - destruct Hlive as [Ht|Ht]; rewrite Ht in Hact; discriminate.
  - destruct Hlive as [Ht|Ht]; rewrite Ht in Hact; [|discriminate].
    injection Hact as <-. unfold task_cancelled; simpl. auto.
  - assert (e' = stop_execution e) by (destruct (rec_task e); now injection Hact).
    subst e'. unfold stop_execution, stop_finish; simpl.
    destruct Hlive as [Ht|Ht]; rewrite Ht; simpl.
    + auto.
    + repeat split. intros [Hx|Hx]; vm_compute in Hx; discriminate Hx.
  - destruct Hlive as [Ht|Ht]; rewrite Ht in Hact; [discriminate|].
    destruct (rec_waiting_stops e); [discriminate|]. injection Hact as <-.
    unfold stop_execution_resumed, stop_finish; simpl.
    repeat split; auto. intros [Hx|Hx]; vm_compute in Hx; discriminate Hx.
  - assert (e' = snd (pause_execution e)) by (destruct (rec_task e); now injection Hact).
    subst e'. unfold pause_execution. case_bool_decide; simpl; [auto|].
    repeat split; auto. intros [Hx|Hx]; vm_compute in Hx; discriminate Hx.
  - assert (e' = snd (resume_execution e)) by (destruct (rec_task e); now injection Hact).
    subst e'. unfold resume_execution. case_bool_decide; simpl; [auto|].
    repeat split; auto. intros [Hx|Hx]; vm_compute in Hx; discriminate Hx.
Qed.

(** X17.  No step of the service removes or rewrites a log entry, and none
    changes the ids of the record. *)
Theorem service_log_only_grows :
  forall a e e',
    act a e = Some e' ->
    (exists new, rec_logs e' = rec_logs e ++ new)
    /\ rec_execution_id e' = rec_execution_id e
    /\ rec_workflow_id e' = rec_workflow_id e.
Proof.
  intros a e e' H. unfold act in H. destruct a.
  - destruct (rec_task e); try discriminate. injection H as <-.
    unfold task_begin; simpl. split; [eexists; reflexivity|auto].
  - destruct (rec_task e); try discriminate. injection H as <-.
    unfold task_return. destruct (ctl_stopped e); [|case_bool_decide]; simpl;
      (split; [eexists; reflexivity|auto]).
  - destruct (rec_task e); try discriminate. injection H as <-.
    unfold task_raise; simpl. split; [eexists; reflexivity|auto].
  - destruct (rec_task e); try discriminate. injection H as <-.
    unfold task_cancelled; simpl. split; [exists []; now rewrite app_nil_r|auto].
  - assert (e' = stop_execution e) by (destruct (rec_task e); now injection H).
    subst e'. unfold stop_execution, stop_finish; simpl.
    destruct (rec_task e); simpl;
      (split; [first [exists []; now rewrite app_nil_r|eexists; reflexivity]|auto]).
  - destruct (rec_task e); try discriminate.
    destruct (rec_waiting_stops e); [discriminate|]. injection H as <-.
    unfold stop_execution_resumed, stop_finish; simpl.
    split; [eexists; reflexivity|auto].
  - assert (e' = snd (pause_execution e)) by (destruct (rec_task e); now injection H).
    subst e'. unfold pause_execution. case_bool_decide; simpl;
      (split; [first [exists []; now rewrite app_nil_r|eexists; reflexivity]|auto]).
  - assert (e' = snd (resume_execution e)) by (destruct (rec_task e); now injection H).
    subst e'. unfold resume_execution. case_bool_decide; simpl;
      (split; [first [exists []; now rewrite app_nil_r|eexists; reflexivity]|auto]).
Qed.

Lemma slice_last_length {A} (l : list A) limit :
  (0 < limit)%Z -> length (slice_last l limit) = Nat.min (Z.to_nat limit) (length l).
Proof.
  intros H. unfold slice_last. rewrite (proj2 (Z.ltb_lt _ _) H).
  rewrite length_skipn. lia.
Qed.

(** X18.  [get_execution_logs]: the entries returned are entries of the
    execution's log, in their order, all with the requested level when a
    level is given; a positive limit keeps the latest [limit] of them (all
    when there are fewer); a limit of 0 is no limit; an id that is not
    known has no entries. *)
Theorem get_execution_logs_returns_the_latest :
  forall sv execution_id level limit,
    (exists dropped kept,
        get_execution_logs sv execution_id level None = kept
        /\ kept = dropped ++ get_execution_logs sv execution_id level limit)
    /\ (forall lv entry, level = Some lv -> lv <> [] ->
          In entry (get_execution_logs sv execution_id level limit) -> fst entry = lv)
    /\ (forall n, limit = Some n -> (0 < n)%Z ->
          length (get_execution_logs sv execution_id level limit)
          = Nat.min (Z.to_nat n)
              (length (get_execution_logs sv execution_id level None)))
    /\ get_execution_logs sv execution_id level (Some 0%Z)
       = get_execution_logs sv execution_id level None
    /\ (dict_get sv execution_id = None ->
        get_execution_logs sv execution_id level limit = []).
Proof.
  intros sv execution_id level limit.
  assert (Hsuffix : exists dropped,
            get_execution_logs sv execution_id level None
            = dropped ++ get_execution_logs sv execution_id level limit).
  { unfold get_execution_logs.
    set (logs := match level with
                 | Some [] | None => _
                 | Some _lv => _
                 end).
    destruct limit as [n|]; [|exists []; reflexivity].
    destruct (n =? 0)%Z; [exists []; reflexivity|].
    unfold slice_last. destruct (0 <? n)%Z; eexists; symmetry; apply firstn_skipn. }
  split; [|split; [|split; [|split]]].
  - destruct Hsuffix as [dropped Hd]. eexists dropped, _. split; [reflexivity|exact Hd].
  - intros lv entry -> Hlv Hin.
    destruct Hsuffix as [dropped Hd].
    assert (Hin' : In entry (get_execution_logs sv execution_id (Some lv) None))
      by (rewrite Hd; apply in_or_app; now right).
    unfold get_execution_logs in Hin'. destruct lv as [|ch lv]; [congruence|].
    apply filter_In in Hin' as [_ Hb]. now apply bool_decide_eq_true in Hb.
  - intros n -> Hn. unfold get_execution_logs.
    rewrite (proj2 (Z.eqb_neq n 0)) by lia. now apply slice_last_length.
  - reflexivity.
  - intros Hnone. unfold get_execution_logs. rewrite Hnone.
    destruct level as [[|ch lv]|]; simpl;
      (destruct limit as [n|]; [|reflexivity]);
      (destruct (n =? 0)%Z; [reflexivity|]);
      unfold slice_last; destruct (0 <? n)%Z; now rewrite skipn_nil.
Qed.

(** ** Bodies under an observer that does not raise *)

Lemma interp_quiet {A} (p : prog A) :
  forall c, quiet_callback (callback c) ->
    fst (interp p c) = outcome_of (quiet_result p)
    /\ List.map level_message (logs (snd (interp p c)))
       = List.map level_message (logs c) ++ quiet_logs p.
Proof.
  induction p as [a|e|l m n md next IH on_raise _]; intros c Hq; simpl.
  - split; [reflexivity|]. now rewrite app_nil_r.
  - split; [reflexivity|]. now rewrite app_nil_r.
  - destruct (add_log_quiet_logs l m n md c Hq) as (c1 & E & Hcb & Hl).
    rewrite E. destruct (IH c1) as [R L]; [now rewrite Hcb|].
    split; [exact R|]. rewrite L, Hl, List.map_app. cbn [List.map level_message].
    now rewrite <- app_assoc.
Qed.

Lemma quiet_result_bind {A B} (p : prog A) (f : A -> prog B) :
  quiet_result (prog_bind p f)
  = match quiet_result p with
    | inl e => inl e
    | inr a => quiet_result (f a)
    end.
Proof. induction p as [a|e|l m n md next IH on_raise _]; simpl; auto. Qed.

Lemma quiet_result_try {A} (p : prog A) (h : exn -> prog A) :
  quiet_result (prog_try p h)
  = match quiet_result p with
    | inl e => quiet_result (h e)
    | inr a => inr a
    end.
Proof. induction p as [a|e|l m n md next IH on_raise _]; simpl; auto. Qed.



Lemma quiet_result_lift {A} (r : exn + A) : quiet_result (prog_lift r) = r.
Proof. destruct r; reflexivity. Qed.

(** ** Input node *)













(** ** Output node *)

Lemma py_eq_str_l k y : py_eq (VStr k) y = true <-> y = VStr k.
Proof.
  destruct y; simpl; try (split; [discriminate|discriminate]).
  rewrite bool_decide_eq_true. split; congruence.
Qed.



(** A test that does not raise makes the comprehension a filter. *)
Lemma filter_items_total (f : pystr -> bool) d :
  filter_items (fun k => inr (f k)) d = inr (List.filter (fun kv => f (fst kv)) d).
Proof.
  induction d as [|[k x] d IH]; [reflexivity|].
  cbn [filter_items List.filter fst]. rewrite IH. reflexivity.
Qed.



Lemma split_dot_cons s : exists p ps, split_dot s = p :: ps.
Proof.
  induction s as [|ch s IH]; simpl; [eauto|].
  destruct (ch =? DOT)%N; [eauto|].
  destruct IH as (p & ps & ->). eauto.
Qed.

(** X25.  The custom format resolves its template in a context of its own, which
    has two variables: [input], the input of the run, and [output], the
    data to format.  A token that begins with any other name (a variable
    of the run, a node output) is left in the text as it is written. *)
Theorem output_custom_template_sees_input_and_output :
  forall node_id data cfg v c template,
    dict_get cfg (s2p "template") = Some (VStr template) ->
    let variables := [(s2p "input", view_input_data v); (s2p "output", data)] in
    fst (interp (_format_output node_id data (VStr (s2p "custom")) cfg v) c)
    = Ok (VStr (resolve_variables variables template))
    /\ forall before inner after,
         tokens template = before ++ Tok inner :: after ->
         hd [] (token_path inner) <> s2p "input" ->
         hd [] (token_path inner) <> s2p "output" ->
         resolve_variables variables template
         = flat_map (render variables) before ++ token_text inner
             ++ flat_map (render variables) after.
Proof.
  intros node_id data cfg v c template Ht variables. split.
  - unfold _format_output.
    change (py_eq (VStr (s2p "custom")) (VStr (s2p "raw"))) with false.
    change (py_eq (VStr (s2p "custom")) (VStr (s2p "json"))) with false.
    change (py_eq (VStr (s2p "custom")) (VStr (s2p "text"))) with false.
    change (py_eq (VStr (s2p "custom")) (VStr (s2p "custom"))) with true.
    cbv iota. rewrite Ht. reflexivity.
  - intros before inner after Htok Hi Ho.
    apply resolve_token_verbatim; [exact Htok|]. apply absent_get_nested.
    unfold token_path in *.
    destruct (split_dot_cons (strip inner)) as (p & ps & E). rewrite E in *.
    cbn [hd] in Hi, Ho. subst variables. cbn [spec_lookup dict_get].
    destruct (decide (s2p "input" = p)); [congruence|].
    destruct (decide (s2p "output" = p)); [congruence|]. reflexivity.
Qed.

Lemma output_handler_passes node_id msg :
  quiet_result (output_handler node_id (Exn NodeExecutionError msg))
  = inl (Exn NodeExecutionError msg).
Proof. reflexivity. Qed.

(** The result of [execute] from the results of its steps. *)
Lemma output_execute_result node_id cfg v :
  quiet_result (output_execute node_id cfg v)
  = match
      match (if py_truthy (value_get cfg (s2p "source_node"))
             then source_output v (value_get cfg (s2p "source_node"))
             else inr (_get_last_node_output v)) with
      | inl e => inl e
      | inr input_data =>
          match quiet_result
                  (_filter_fields node_id
                     (match input_data with VNone => VDict [] | _ => input_data end)
                     cfg) with
          | inl e => inl e
          | inr filtered_data =>
              match quiet_result
                      (_format_output node_id filtered_data
                         (match dict_get cfg (s2p "format") with
                          | Some f => f
                          | None => VStr (s2p "raw")
                          end) cfg v) with
              | inl e => inl e
              | inr output => inr (MkNodeResult node_id (s2p "success") output None)
              end
          end
      end
    with
    | inl e => quiet_result (output_handler node_id e)
    | inr r => inr r
    end.
Proof.
  unfold output_execute.
  rewrite quiet_result_try, quiet_result_bind.
  assert (Hsrc :
    quiet_result
      (if py_truthy (value_get cfg (s2p "source_node"))
       then prog_bind (prog_lift (source_output v (value_get cfg (s2p "source_node"))))
              (fun input_data =>
               prog_bind
                 (prog_log (s2p "info")
                    (s2p "Getting output from source node: "
                       ++ py_str (value_get cfg (s2p "source_node"))) (Some node_id))
                 (fun _ => Return input_data))
       else prog_bind (prog_log (s2p "info") (s2p "Using last node output") (Some node_id))
              (fun _ => Return (_get_last_node_output v)))
    = (if py_truthy (value_get cfg (s2p "source_node"))
       then source_output v (value_get cfg (s2p "source_node"))
       else inr (_get_last_node_output v))).
  { destruct (py_truthy _); [|reflexivity].
    rewrite quiet_result_bind, quiet_result_lift.
    destruct (source_output _ _); reflexivity. }
  rewrite Hsrc.
  destruct (if py_truthy (value_get cfg (s2p "source_node"))
            then source_output v (value_get cfg (s2p "source_node"))
            else inr (_get_last_node_output v)) as [e|input_data]; [reflexivity|].
  rewrite quiet_result_bind.
  assert (Hnone :
    quiet_result
      (match input_data with
       | VNone =>
           prog_bind
             (prog_log (s2p "warning") (s2p "No input data available") (Some node_id))
             (fun _ => Return (VDict []))
       | _ => Return input_data
       end)
    = inr (match input_data with VNone => VDict [] | _ => input_data end)).
  { destruct input_data; reflexivity. }
  rewrite Hnone, quiet_result_bind.
  destruct (quiet_result (_filter_fields _ _ _)) as [e|filtered]; [reflexivity|].
  rewrite quiet_result_bind.
  destruct (quiet_result (_format_output _ _ _ _ _)) as [e|output]; reflexivity.
Qed.


Lemma in_names_formats f :
  in_names f VALID_FORMATS = true ->
  f = VStr (s2p "raw") \/ f = VStr (s2p "json") \/ f = VStr (s2p "text")
  \/ f = VStr (s2p "custom").
Proof.
  unfold in_names, VALID_FORMATS. cbn [existsb].
  rewrite !Bool.orb_true_iff, !py_eq_str_l. intuition discriminate.
Qed.

(** X27.  With a configuration that [validate_config] accepts and a source node
    that is named by a string, if it is named, the output node always
    succeeds.  [validate_config] does not look at [source_node]. *)
Theorem validated_output_node_always_succeeds :
  forall node_id cfg v c,
    quiet_callback (callback c) ->
    output_validate_config cfg = inr true ->
    (forall s, dict_get cfg (s2p "source_node") = Some s -> exists k, s = VStr k) ->
    exists output,
      fst (interp (output_execute node_id cfg v) c)
      = Ok (MkNodeResult node_id (s2p "success") output None).
Proof.
  intros node_id cfg v c Hq Hv Hsrc.
  rewrite (proj1 (interp_quiet _ c Hq)), output_execute_result.
  (* the source *)
  assert (Hin : exists input_data,
             (if py_truthy (value_get cfg (s2p "source_node"))
              then source_output v (value_get cfg (s2p "source_node"))
              else inr (_get_last_node_output v)) = inr input_data).
  { unfold value_get.
    destruct (dict_get cfg (s2p "source_node")) as [s|] eqn:Es; [|eexists; reflexivity].
    destruct (Hsrc s eq_refl) as (k & ->).
    destruct (py_truthy (VStr k)); eexists; reflexivity. }
  destruct Hin as (input_data & ->).
  (* what the accepted configuration says about each key *)
  unfold output_validate_config in Hv.
  assert (Hfmt : match dict_get cfg (s2p "format") with
                 | Some f =>
                     in_names f VALID_FORMATS = true
                     /\ (f = VStr (s2p "custom") -> dict_mem cfg (s2p "template") = true)
                 | None => True
                 end).
  { destruct (dict_get cfg (s2p "format")) as [f|]; [|exact I].
    destruct (in_names f VALID_FORMATS); [|discriminate Hv]. split; [reflexivity|].
    intros ->. cbn [negb] in Hv.
    change (py_eq (VStr (s2p "custom")) (VStr (s2p "custom"))) with true in Hv.
    destruct (dict_mem cfg (s2p "template")); [reflexivity|discriminate Hv]. }
  assert (Hrest : match dict_get cfg (s2p "fields") with
                  | Some (VList _) | None => True
                  | Some _ => False
                  end
                  /\ match dict_get cfg (s2p "exclude_fields") with
                     | Some (VList _) | None => True
                     | Some _ => False
                     end
                  /\ match dict_get cfg (s2p "template") with
                     | Some (VStr _) | None => True
                     | Some _ => False
                     end).
  { destruct (match dict_get cfg (s2p "format") with
              | Some format_type => _
              | None => inr tt
              end) as [e|[]]; [discriminate Hv|].
    destruct (dict_get cfg (s2p "fields")) as [[| | | |l|d]|]; try discriminate Hv;
      (split; [exact I|]);
      destruct (dict_get cfg (s2p "exclude_fields")) as [[| | | |l'|d']|];
      try discriminate Hv; (split; [exact I|]);
      destruct (dict_get cfg (s2p "template")) as [[| | |t|l''|d'']|];
      try discriminate Hv; exact I. }
  clear Hv. destruct Hrest as (Hf & He & Ht).
  (* the filter *)
  assert (Hfil : forall x, exists filtered,
             quiet_result (_filter_fields node_id x cfg) = inr filtered).
  { intros x. unfold _filter_fields.
    destruct x as [| | | |l|d]; try (eexists; reflexivity).
    destruct (dict_get cfg (s2p "fields")) as [[| | | |fields|]|]; try contradiction.
    - cbn [py_in].
      rewrite (filter_items_total (fun k => existsb (fun y => py_eq y (VStr k)) fields)).
      eexists. reflexivity.
    - destruct (dict_get cfg (s2p "exclude_fields")) as [[| | | |excluded|]|];
        try contradiction; [|eexists; reflexivity].
      cbn [py_in].
      rewrite (filter_items_total
                 (fun k => negb (existsb (fun y => py_eq y (VStr k)) excluded))).
      eexists. reflexivity. }
  destruct (Hfil (match input_data with VNone => VDict [] | _ => input_data end))
    as (filtered & ->).
  (* the format *)
  assert (Hout : exists output,
             quiet_result
               (_format_output node_id filtered
                  (match dict_get cfg (s2p "format") with
                   | Some f => f
                   | None => VStr (s2p "raw")
                   end) cfg v) = inr output).
  { destruct (dict_get cfg (s2p "format")) as [f|]; [|eexists; reflexivity].
    destruct Hfmt as [Hn Hc].
    apply in_names_formats in Hn as [E|[E|[E|E]]]; subst f.
    - eexists. reflexivity.
    - unfold _format_output.
      change (py_eq (VStr (s2p "json")) (VStr (s2p "raw"))) with false.
      change (py_eq (VStr (s2p "json")) (VStr (s2p "json"))) with true.
      cbv iota. destruct (json_dumps _ filtered); eexists; reflexivity.
    - unfold _format_output.
      change (py_eq (VStr (s2p "text")) (VStr (s2p "raw"))) with false.
      change (py_eq (VStr (s2p "text")) (VStr (s2p "json"))) with false.
      change (py_eq (VStr (s2p "text")) (VStr (s2p "text"))) with true.
      cbv iota. destruct filtered; eexists; reflexivity.
    - unfold _format_output.
      change (py_eq (VStr (s2p "custom")) (VStr (s2p "raw"))) with false.
      change (py_eq (VStr (s2p "custom")) (VStr (s2p "json"))) with false.
      change (py_eq (VStr (s2p "custom")) (VStr (s2p "text"))) with false.
      change (py_eq (VStr (s2p "custom")) (VStr (s2p "custom"))) with true.
      cbv iota.
      destruct (dict_get cfg (s2p "template")) as [[| | |t|l|d]|];
        try contradiction; eexists; reflexivity. }
  destruct Hout as (output & ->).
  exists output. reflexivity.
Qed.

End Workflow.

(** * Worked instances *)

Lemma resolve_absent_token_unchanged_witness :
  resolve_variables repr_plain alice_variables (s2p "id={{missing}}!")
  = s2p "id={{missing}}!".
Proof.
  pose proof (proj1 (resolve_absent_token_unchanged repr_plain)
                alice_variables (s2p "id={{missing}}!")
                (List.map Lit (s2p "id=")) (s2p "missing") [Lit 33%N]
                eq_refl eq_refl) as [H _].
  exact H.
Defined.

Lemma resolve_idempotent_when_settled_witness :
  resolve_variables repr_plain alice_variables
    (resolve_variables repr_plain alice_variables (s2p "{{input.user.name}} {{missing}}"))
  = resolve_variables repr_plain alice_variables (s2p "{{input.user.name}} {{missing}}").
Proof.
  apply (proj2 (resolve_idempotent_when_settled repr_plain)).
  intros inner Hin. vm_compute in Hin.
  destruct Hin as [H|[H|[H|[H|[H|[H|[H|H]]]]]]]; try discriminate H; try contradiction.
  injection H as <-. vm_compute. exact I.
Defined.

(** C5 as stated fails: with a = "{{b}}" and b = "x", "{{a}}" resolves to
    "{{b}}", which resolves to "x". *)
Lemma resolve_twice_differs :
  resolve_variables repr_plain chained_variables
    (resolve_variables repr_plain chained_variables (s2p "{{a}}"))
  <> resolve_variables repr_plain chained_variables (s2p "{{a}}").
Proof. vm_compute. discriminate. Qed.

Lemma null_token_left_verbatim_witness :
  replace_var repr_plain [(s2p "k", VNone)] (token_text (s2p " k.x ")) (s2p " k.x ")
  = token_text (s2p " k.x ").
Proof.
  apply (proj1 (null_token_left_verbatim repr_plain)
           [(s2p "k", VNone)] (s2p " k.x ") [s2p "k"] [s2p "x"]);
    vm_compute; reflexivity.
Defined.


(** C8 as stated fails for a self-loop: the definition with the single edge
    a -> a is rejected by graph validation. *)
Lemma self_loop_is_rejected :
  _has_cycle (_build_execution_graph self_loop_definition) = true
  /\ fst (_validate_graph (_build_execution_graph self_loop_definition)
            (new_context (s2p "e1") (s2p "w1") (VDict []) None))
     = Raised (Exn WorkflowEngineError (s2p "Workflow contains circular dependencies")).
Proof. split; vm_compute; reflexivity. Qed.

Lemma duplicate_edges_tolerated_cycles_rejected_witness :
  _has_cycle (_build_execution_graph
                (MkDefinition [MkNode (s2p "a") (s2p "input") []; MkNode (s2p "b") (s2p "output") []]
                              ([MkEdge (s2p "a") (s2p "b")] ++ [MkEdge (s2p "a") (s2p "b")])))
  = _has_cycle (_build_execution_graph
                  (MkDefinition [MkNode (s2p "a") (s2p "input") []; MkNode (s2p "b") (s2p "output") []]
                                [MkEdge (s2p "a") (s2p "b")])).
Proof.
  apply (proj1 (proj2 duplicate_edges_tolerated_cycles_rejected)
           (MkDefinition [MkNode (s2p "a") (s2p "input") []; MkNode (s2p "b") (s2p "output") []]
                         [MkEdge (s2p "a") (s2p "b")])
           [MkEdge (s2p "a") (s2p "b")]).
  intros e [<-|[]]. left. reflexivity.
Defined.

Lemma dispatch_follows_predecessors_witness :
  exists status,
    In (TReturn (s2p "a") status)
       (firstn 9 (trace (snd (execute_workflow repr_plain (fun _ => []) echo_registry
                                (s2p "e1") (s2p "w1") chain_definition (VDict []) None))))
    /\ status <> s2p "failed".
Proof.
  set (X := execute_workflow repr_plain (fun _ => []) echo_registry
              (s2p "e1") (s2p "w1") chain_definition (VDict []) None).
  destruct (proj2 (dispatch_follows_predecessors repr_plain (fun _ => []) echo_registry
                     (s2p "e1") (s2p "w1") chain_definition (VDict []) None
                     (fst X) (snd X) (surjective_pairing X))
              (firstn 9 (trace (snd X))) (s2p "b") (skipn 10 (trace (snd X)))
              ltac:(vm_compute; reflexivity)
              (s2p "a") ltac:(left; reflexivity))
    as (status & H1 & H2 & _).
  exists status. split; assumption.
Defined.

(** C1 as stated fails when an executor returns a status that is neither
    "success" nor "failed": in the chain a -> b, with executors that return
    "skipped", b runs although a did not finish with status success and
    nothing was written for a. *)
Lemma skipped_predecessor_releases_successor :
  dict_get (node_statuses (snd (execute_workflow repr_plain (fun _ => []) skipping_registry
                                  (s2p "e1") (s2p "w1") chain_definition (VDict []) None)))
           (s2p "a") = Some (s2p "skipped")
  /\ dict_get (node_statuses (snd (execute_workflow repr_plain (fun _ => []) skipping_registry
                                     (s2p "e1") (s2p "w1") chain_definition (VDict []) None)))
              (s2p "b") = Some (s2p "skipped")
  /\ dict_get (node_outputs (snd (execute_workflow repr_plain (fun _ => []) skipping_registry
                                    (s2p "e1") (s2p "w1") chain_definition (VDict []) None)))
              (s2p "a") = None
  /\ dict_get (variables (snd (execute_workflow repr_plain (fun _ => []) skipping_registry
                                 (s2p "e1") (s2p "w1") chain_definition (VDict []) None)))
              (s2p "nodes.a") = None.
Proof. repeat split; vm_compute; reflexivity. Qed.

Lemma unknown_endpoint_fails_the_run_witness :
  exists w,
    fst (execute_workflow repr_plain (fun _ => []) echo_registry
           (s2p "e1") (s2p "w1") dangling_definition (VDict []) None) = Ok w
    /\ wr_status w = s2p "failed".
Proof.
  set (X := execute_workflow repr_plain (fun _ => []) echo_registry
              (s2p "e1") (s2p "w1") dangling_definition (VDict []) None).
  assert (Hunk : unknown_endpoint dangling_definition).
  { exists (MkEdge (s2p "a") (s2p "x")). split; [left; reflexivity|].
    right. intros [H|[]]. vm_compute in H. discriminate H. }
  destruct (unknown_endpoint_fails_the_run repr_plain (fun _ => []) echo_registry
              (s2p "e1") (s2p "w1") dangling_definition (VDict []) None
              (fst X) (snd X) Hunk (surjective_pairing X))
    as (_ & _ & H).
  destruct (H I) as (w & Hw & Hs & _). exists w. split; assumption.
Defined.

(** C7 as stated fails: the definition with the node a and the edge a -> x
    passes graph validation, and a runs to success before the unknown id x
    is met. *)
Lemma dangling_edge_passes_validation :
  fst (_validate_graph (_build_execution_graph dangling_definition)
         (new_context (s2p "e1") (s2p "w1") (VDict []) None)) = Ok tt
  /\ dict_get (node_statuses (snd (execute_workflow repr_plain (fun _ => []) echo_registry
                                     (s2p "e1") (s2p "w1") dangling_definition (VDict []) None)))
              (s2p "a") = Some (s2p "success")
  /\ In (TExecute (s2p "a"))
        (trace (snd (execute_workflow repr_plain (fun _ => []) echo_registry
                       (s2p "e1") (s2p "w1") dangling_definition (VDict []) None))).
Proof.
  split; [vm_compute; reflexivity|]. split; [vm_compute; reflexivity|].
  vm_compute. do 4 right. left. reflexivity.
Qed.

(** C2 at work: an observer that never raises leaves the run of the chain
    a -> b as it is without an observer. *)
Lemma observer_is_told_and_is_transparent_witness :
  execute_workflow repr_plain (fun _ => []) echo_registry
    (s2p "e1") (s2p "w1") chain_definition (VDict []) None
  = (fst (execute_workflow repr_plain (fun _ => []) echo_registry
            (s2p "e1") (s2p "w1") chain_definition (VDict []) (Some (fun _ _ => None))),
     strip_observer
       (snd (execute_workflow repr_plain (fun _ => []) echo_registry
               (s2p "e1") (s2p "w1") chain_definition (VDict [])
               (Some (fun _ _ => None))))).
Proof.
  set (X := execute_workflow repr_plain (fun _ => []) echo_registry
              (s2p "e1") (s2p "w1") chain_definition (VDict []) (Some (fun _ _ => None))).
  exact (proj1 (proj2 (observer_is_told_and_is_transparent repr_plain (fun _ => [])
                         echo_registry (s2p "e1") (s2p "w1") chain_definition (VDict [])
                         (fun _ _ => None) (fst X) (snd X) (surjective_pairing X)))
               (fun _ _ => eq_refl)).
Defined.

(** C2 as stated fails: the callback is called with no protection.  With
    the callback that [ExecutionService] installs, which raises on every
    call, the chain a -> b that completes without a callback does not even
    start: [execute_workflow] itself raises the callback's error and no node
    gets a status. *)
Lemma raising_observer_aborts_the_run :
  (exists w,
     fst (execute_workflow repr_plain (fun _ => []) echo_registry
            (s2p "e1") (s2p "w1") chain_definition (VDict []) None) = Ok w
     /\ wr_status w = s2p "completed")
  /\ fst (execute_workflow repr_plain (fun _ => []) echo_registry
            (s2p "e1") (s2p "w1") chain_definition (VDict [])
            (Some (status_callback (fun _ => []))))
     = Raised (builtin (fun _ => []) (MissingArgument (s2p "status_callback") (s2p "status")))
  /\ node_statuses
       (snd (execute_workflow repr_plain (fun _ => []) echo_registry
               (s2p "e1") (s2p "w1") chain_definition (VDict [])
               (Some (status_callback (fun _ => []))))) = [].
Proof.
  split; [|split].
  - eexists. split; vm_compute; reflexivity.
  - vm_compute. reflexivity.
  - vm_compute. reflexivity.
Qed.


(** With input {age: 10} the second condition (age < 18) is the first that
    holds; and a condition whose operator raises (a number compared with a
    string) is passed over with one warning entry. *)
Example condition_node_examples :
  fst (interp (execute (ConditionNodeExecutor repr_plain (fun _ => []) (s2p "n1"))
                 age_config (view (age_context (VInt 10))))
              (age_context (VInt 10)))
  = Ok (MkNodeResult (s2p "n1") (s2p "success")
          (VDict [ (s2p "branch", VStr (s2p "minor"));
                   (s2p "matched_condition", VInt 1);
                   (s2p "field", VStr (s2p "input.age"));
                   (s2p "actual_value", VInt 10);
                   (s2p "expected_value", VInt 18);
                   (s2p "operator", VStr (s2p "lt")) ])
          None)
  /\ fst (interp (execute (ConditionNodeExecutor repr_plain (fun _ => []) (s2p "n1"))
                    mismatch_config (view (age_context (VInt 20))))
                 (age_context (VInt 20)))
     = Ok (MkNodeResult (s2p "n1") (s2p "success")
             (VDict [ (s2p "branch", VStr (s2p "b"));
                      (s2p "matched_condition", VInt 1);
                      (s2p "field", VStr (s2p "input.age"));
                      (s2p "actual_value", VInt 20);
                      (s2p "expected_value", VInt 20);
                      (s2p "operator", VStr (s2p "eq")) ])
             None)
  /\ List.map log_level
       (logs (snd (interp (execute (ConditionNodeExecutor repr_plain (fun _ => []) (s2p "n1"))
                             mismatch_config (view (age_context (VInt 20))))
                          (age_context (VInt 20)))))
     = [s2p "info"; s2p "warning"; s2p "info"].
Proof. repeat split; vm_compute; reflexivity. Qed.

(** C9 at work: pausing a running execution. *)
Lemma status_moves_along_run_states_witness :
  rec_status (snd (pause_execution (task_begin 2 (submitted (s2p "e1") (s2p "w1")))))
  = rec_status (task_begin 2 (submitted (s2p "e1") (s2p "w1")))
  \/ In (rec_status (task_begin 2 (submitted (s2p "e1") (s2p "w1"))),
         rec_status (snd (pause_execution
                            (task_begin 2 (submitted (s2p "e1") (s2p "w1"))))))
        run_state_edges.
Proof.
  exact (proj1 (status_moves_along_run_states (s2p "e1") (s2p "w1") [TaskBegins 2]
                  (task_begin 2 (submitted (s2p "e1") (s2p "w1"))) Pause
                  (snd (pause_execution (task_begin 2 (submitted (s2p "e1") (s2p "w1")))))
                  eq_refl eq_refl
                  (fun H : Pause = Stop => ltac:(discriminate H)))).
Defined.

(** C9 as stated fails.  [stop_execution] tests nothing but the presence of
    the id: called on a record already completed, or already failed, it
    sets the status to stopped.  And a paused execution goes on running:
    when the engine returns, its status goes from paused to completed. *)
Lemma stop_after_the_end_marks_stopped :
  option_map rec_status
    (acts [TaskBegins 2; TaskReturns completed_result]
          (submitted (s2p "e1") (s2p "w1"))) = Some (s2p "completed")
  /\ option_map rec_status
       (acts [TaskBegins 2; TaskReturns completed_result; Stop]
             (submitted (s2p "e1") (s2p "w1"))) = Some (s2p "stopped")
  /\ option_map rec_status
       (acts [TaskBegins 2; TaskRaises (Exn OtherError (s2p "boom"))]
             (submitted (s2p "e1") (s2p "w1"))) = Some (s2p "failed")
  /\ option_map rec_status
       (acts [TaskBegins 2; TaskRaises (Exn OtherError (s2p "boom")); Stop]
             (submitted (s2p "e1") (s2p "w1"))) = Some (s2p "stopped")
  /\ option_map rec_status
       (acts [TaskBegins 2; Pause] (submitted (s2p "e1") (s2p "w1")))
     = Some (s2p "paused")
  /\ option_map rec_status
       (acts [TaskBegins 2; Pause; TaskReturns completed_result]
             (submitted (s2p "e1") (s2p "w1"))) = Some (s2p "completed").
Proof. repeat split; vm_compute; reflexivity. Qed.

(** A [{{nodes.a}}] token after the output of node a has been stored. *)
Lemma node_output_is_not_reachable_by_path_witness :
  replace_var repr_plain
    (variables (snd (set_node_output (s2p "a") (VStr (s2p "x"))
                       (new_context (s2p "e1") (s2p "w1") (VDict []) None))))
    (token_text (s2p "nodes.a")) (s2p "nodes.a")
  = token_text (s2p "nodes.a").
Proof.
  exact (proj2 (node_output_is_not_reachable_by_path repr_plain
                  (new_context (s2p "e1") (s2p "w1") (VDict []) None)
                  (s2p "a") (VStr (s2p "x")) (s2p "nodes.a") [s2p "a"]
                  ltac:(vm_compute; reflexivity) ltac:(vm_compute; reflexivity))).
Defined.

(** The chain a -> b run on the input {}. *)
Lemma run_keeps_the_input_variable_witness :
  get_variable
    (snd (execute_workflow repr_plain (fun _ => []) echo_registry
            (s2p "e1") (s2p "w1") chain_definition (VDict []) None))
    (s2p "input") VNone = VDict [].
Proof.
  set (X := execute_workflow repr_plain (fun _ => []) echo_registry
              (s2p "e1") (s2p "w1") chain_definition (VDict []) None).
  exact (proj1 (proj2 (run_keeps_the_input_variable repr_plain (fun _ => []) echo_registry
                         (s2p "e1") (s2p "w1") chain_definition (VDict []) None
                         (fst X) (snd X) (surjective_pairing X)))).
Defined.

Lemma run_always_returns_a_result_witness :
  exists res c',
    run repr_plain (echo_executor (s2p "a")) (s2p "a") (s2p "input") []
        (new_context (s2p "e1") (s2p "w1") (VDict []) None) = (Ok res, c')
    /\ get_node_status c' (s2p "a") = Some (res_status res).
Proof.
  exact (run_always_returns_a_result repr_plain (echo_executor (s2p "a")) (s2p "a")
           (s2p "input") [] (new_context (s2p "e1") (s2p "w1") (VDict []) None) I).
Defined.



Lemma execute_workflow_returns_completed_or_failed_witness :
  exists w c,
    execute_workflow repr_plain (fun _ => []) echo_registry
      (s2p "e1") (s2p "w1") chain_definition (VDict []) None = (Ok w, c)
    /\ wr_summary w = get_execution_summary c
    /\ status c = wr_status w
    /\ ((wr_status w = s2p "completed" /\ wr_error w = None
         /\ exists output, wr_output w = Some output
              /\ get_variable c (s2p "output") VNone = output)
        \/ (wr_status w = s2p "failed" /\ wr_output w = None
            /\ error c = wr_error w
            /\ exists e, wr_error w
                         = Some (s2p "Workflow execution failed: " ++ exn_msg e))).
Proof.
  exact (execute_workflow_returns_completed_or_failed repr_plain (fun _ => [])
           echo_registry (s2p "e1") (s2p "w1") chain_definition (VDict []) None I).
Defined.


Lemma no_node_is_dispatched_twice_witness :
  List.NoDup
    (dispatched (trace (snd (execute_workflow repr_plain (fun _ => []) echo_registry
                               (s2p "e1") (s2p "w1") chain_definition (VDict []) None)))).
Proof.
  set (X := execute_workflow repr_plain (fun _ => []) echo_registry
              (s2p "e1") (s2p "w1") chain_definition (VDict []) None).
  exact (proj1 (no_node_is_dispatched_twice repr_plain (fun _ => []) echo_registry
                  (s2p "e1") (s2p "w1") chain_definition (VDict []) None
                  (fst X) (snd X) (surjective_pairing X))).
Defined.

Lemma completed_run_has_no_failed_node_witness :
  exists st,
    get_node_status
      (snd (execute_workflow repr_plain (fun _ => []) echo_registry
              (s2p "e1") (s2p "w1") chain_definition (VDict []) None)) (s2p "b")
    = Some st /\ st <> s2p "failed".
Proof.
  set (X := execute_workflow repr_plain (fun _ => []) echo_registry
              (s2p "e1") (s2p "w1") chain_definition (VDict []) None).
  exact (proj1 (completed_run_has_no_failed_node repr_plain (fun _ => []) echo_registry
                  (s2p "e1") (s2p "w1") chain_definition (VDict []) None
                  (match fst X with Ok w => w | _ => completed_result end) (snd X)
                  I ltac:(vm_compute; reflexivity) ltac:(vm_compute; reflexivity))
               (s2p "b") ltac:(right; left; reflexivity)).
Defined.

(** The chain a -> b starts at a. *)
Lemma start_nodes_have_in_degree_zero_witness :
  s2p "a" ∈ _get_start_nodes (_build_execution_graph chain_definition).
Proof.
  apply (proj1 (proj2 (start_nodes_have_in_degree_zero
                         (_build_execution_graph chain_definition)))).
  - vm_compute. discriminate.
  - vm_compute. now left.
Defined.

Lemma pause_then_resume_restores_running_witness :
  rec_status (snd (resume_execution
                     (snd (pause_execution
                             (task_begin 2 (submitted (s2p "e1") (s2p "w1")))))))
  = s2p "running".
Proof.
  pose proof (proj2 (proj2 (proj2 (proj2 (proj2
                (pause_then_resume_restores_running
                   (task_begin 2 (submitted (s2p "e1") (s2p "w1"))) eq_refl))))))
    as H.
  rewrite H. reflexivity.
Defined.

(** Stop while the task is awaiting the engine; then the cancellation
    arrives. *)
Lemma stop_request_is_final_witness :
  ctl_stopped
    (task_cancelled (stop_execution (task_begin 2 (submitted (s2p "e1") (s2p "w1")))))
  = true.
Proof.
  exact (proj1 (stop_request_is_final (s2p "e1") (s2p "w1") [TaskBegins 2; Stop]
                  (stop_execution (task_begin 2 (submitted (s2p "e1") (s2p "w1"))))
                  TaskCancelled
                  (task_cancelled
                     (stop_execution (task_begin 2 (submitted (s2p "e1") (s2p "w1")))))
                  eq_refl eq_refl eq_refl)).
Defined.

Lemma service_log_only_grows_witness :
  exists new,
    rec_logs (snd (pause_execution (task_begin 2 (submitted (s2p "e1") (s2p "w1")))))
    = rec_logs (task_begin 2 (submitted (s2p "e1") (s2p "w1"))) ++ new.
Proof.
  exact (proj1 (service_log_only_grows Pause
                  (task_begin 2 (submitted (s2p "e1") (s2p "w1")))
                  (snd (pause_execution (task_begin 2 (submitted (s2p "e1") (s2p "w1")))))
                  eq_refl)).
Defined.

(** The latest entry of an execution that has two. *)
Lemma get_execution_logs_returns_the_latest_witness :
  length (get_execution_logs
            [(s2p "e1", task_begin 2 (submitted (s2p "e1") (s2p "w1")))]
            (s2p "e1") None (Some 1%Z))
  = Nat.min (Z.to_nat 1)
      (length (get_execution_logs
                 [(s2p "e1", task_begin 2 (submitted (s2p "e1") (s2p "w1")))]
                 (s2p "e1") None None)).
Proof.
  exact (proj1 (proj2 (proj2 (get_execution_logs_returns_the_latest
                                [(s2p "e1", task_begin 2 (submitted (s2p "e1") (s2p "w1")))]
                                (s2p "e1") None (Some 1%Z))))
               1%Z eq_refl ltac:(lia)).
Defined.

Lemma node_output_round_trip_witness :
  get_node_output
    (snd (set_node_output (s2p "a") (VStr (s2p "x"))
            (new_context (s2p "e1") (s2p "w1") (VDict []) None))) (s2p "b")
  = get_node_output (new_context (s2p "e1") (s2p "w1") (VDict []) None) (s2p "b").
Proof.
  exact (proj1 (proj2 (proj2 (proj2
           (node_output_round_trip (new_context (s2p "e1") (s2p "w1") (VDict []) None)
              (s2p "a") (VStr (s2p "x"))))))
           (s2p "b") ltac:(intros H; vm_compute in H; discriminate H)).
Defined.







Lemma output_custom_template_sees_input_and_output_witness :
  fst (interp (_format_output repr_plain (fun _ x => inr (repr_plain x)) (s2p "out")
                 (VInt 5) (VStr (s2p "custom"))
                 [(s2p "template", VStr (s2p "got {{output}}"))]
                 (view (new_context (s2p "e1") (s2p "w1") VNone None)))
         (new_context (s2p "e1") (s2p "w1") VNone None))
  = Ok (VStr (resolve_variables repr_plain
                [(s2p "input", VNone); (s2p "output", VInt 5)] (s2p "got {{output}}"))).
Proof.
  exact (proj1 (output_custom_template_sees_input_and_output repr_plain
                  (fun _ x => inr (repr_plain x)) (s2p "out")
                  (VInt 5) [(s2p "template", VStr (s2p "got {{output}}"))]
                  (view (new_context (s2p "e1") (s2p "w1") VNone None))
                  (new_context (s2p "e1") (s2p "w1") VNone None)
                  (s2p "got {{output}}") eq_refl)).
Defined.


Lemma validated_output_node_always_succeeds_witness :
  exists output,
    fst (interp (output_execute repr_plain (fun _ => []) (fun _ x => inr (repr_plain x))
                   (s2p "out")
                   [(s2p "format", VStr (s2p "custom"));
                    (s2p "template", VStr (s2p "{{output}}"))]
                   (view (new_context (s2p "e1") (s2p "w1") VNone None)))
           (new_context (s2p "e1") (s2p "w1") VNone None))
    = Ok (MkNodeResult (s2p "out") (s2p "success") output None).
Proof.
  refine (validated_output_node_always_succeeds repr_plain (fun _ => [])
            (fun _ x => inr (repr_plain x))
            (s2p "out")
            [(s2p "format", VStr (s2p "custom"));
             (s2p "template", VStr (s2p "{{output}}"))]
            (view (new_context (s2p "e1") (s2p "w1") VNone None))
            (new_context (s2p "e1") (s2p "w1") VNone None)
            I eq_refl _).
  intros s H. vm_compute in H. discriminate H.
Defined.
